(** * tinySafetyNet: the audio front ends and the spreadsheet export

    A shallow embedding of the Python sources

    - [streamlit-int8-app/app.py]          (module [Int8App]),
    - [week1/streamlit-int8-app/app.py]    (module [Week1App]),
    - [Shiny-R/Convert dataset to excel.py] (module [ExcelExport]),
    - [Shiny-R/synthetic data generation.py] (module [SyntheticData]),

    followed by the properties of the preprocessing contract, of the
    notifier, of the resource handling and of the batch export.

    Conventions.  In the pipelines a NumPy [float32] is modelled by an
    exact rational [Q]: the arithmetic of the sources is kept, its
    rounding error is not, and what is stated of these pipelines is what
    rounding does not change (shapes, orders, ranges, control flow).  The
    quantization and the dequantization, lines 79-80 and 118 of the mel
    front end, are also given in binary32 itself (module [F32], on the
    floats of [SpecFloat]), and their numerical properties are stated
    there.  An [ndarray] is a shape together with its elements in
    row-major order.
    Library calls whose result the sources only pass along (librosa,
    TensorFlow, paho-mqtt, Streamlit widgets) are parameters of the
    sections that use them. *)

From Stdlib Require Import ZArith QArith Qabs Qround Qfield Qpower.
From Stdlib Require Import Floats.SpecFloat.
From Stdlib Require Import List String Ascii Bool Lia Lqa.
From Stdlib Require Import Permutation Sorted OrderedTypeEx.
Import ListNotations.

Local Open Scope Q_scope.

(** ** Python exceptions *)

Module Py.

(** The exceptions the sources raise or may receive from a library call.
    All of them are subclasses of [Exception]. *)
Inductive exception : Type :=
| ValueError_shape_mismatch (got expected : list nat)
    (* ValueError(f"Input shape mismatch: got {..}, expected {..}") *)
| ValueError_zero_size
    (* numpy: zero-size array to reduction operation which has no identity *)
| IndexError
| TypeError
| KeyError (key : Z)
| OSError (msg : string)
| LibraryError (msg : string).

(** A call either returns a value or raises. *)
Definition result (A : Type) : Type := (exception + A)%type.

Definition ret {A} (a : A) : result A := inr a.
Definition raise {A} (e : exception) : result A := inl e.
Definition bind {A B} (m : result A) (k : A -> result B) : result B :=
  match m with
  | inl e => inl e
  | inr a => k a
  end.

(** Code with side effects threads a state of type [S]; the state an
    exception leaves behind is kept, as in Python. *)
Definition M (S A : Type) : Type := S -> result A * S.

Definition mret {S A} (a : A) : M S A := fun s => (inr a, s).
Definition mbind {S A B} (m : M S A) (k : A -> M S B) : M S B :=
  fun s =>
    match m s with
    | (inl e, s') => (inl e, s')
    | (inr a, s') => k a s'
    end.
Definition lift {S A} (r : result A) : M S A := fun s => (r, s).
Definition modify {S} (f : S -> S) : M S unit := fun s => (inr tt, f s).

(** [try: body  except Exception as e: handler(e)] *)
Definition try_except {S A} (body : M S A) (handler : exception -> M S A)
  : M S A :=
  fun s =>
    match body s with
    | (inl e, s') => handler e s'
    | (inr a, s') => (inr a, s')
    end.

(** [try: body  finally: cleanup]: the cleanup runs on both exits; an
    exception of the cleanup replaces the outcome of the body. *)
Definition try_finally {S A} (body : M S A) (cleanup : M S unit) : M S A :=
  fun s =>
    match body s with
    | (r, s') =>
        match cleanup s' with
        | (inl e, s'') => (inl e, s'')
        | (inr _, s'') => (r, s'')
        end
    end.

End Py.

Notation "x <- m ;; k" := (Py.bind m (fun x => k))
  (at level 61, m at next level, right associativity).
Notation "x <~ m ;; k" := (Py.mbind m (fun x => k))
  (at level 61, m at next level, right associativity).
Notation "m ;;; k" := (Py.mbind m (fun _ => k))
  (at level 61, right associativity).

(** ** NumPy *)

Module Np.

Inductive dtype : Type := float32 | int8 | uint8.

Definition dtype_eqb (a b : dtype) : bool :=
  match a, b with
  | float32, float32 | int8, int8 | uint8, uint8 => true
  | _, _ => false
  end.

Record array (A : Type) : Type := mk_array { shape : list nat; data : list A }.
Arguments mk_array {A} _ _.
Arguments shape {A} _.
Arguments data {A} _.

(** What [preprocess_audio] hands to the interpreter. *)
Inductive ndarray : Type :=
| nd_float32 (a : array Q)
| nd_int8 (a : array Z).

Definition nd_shape (t : ndarray) : list nat :=
  match t with
  | nd_float32 a => shape a
  | nd_int8 a => shape a
  end.

Definition map_array {A B} (f : A -> B) (a : array A) : array B :=
  mk_array (shape a) (map f (data a)).

(** [shape != EXPECTED_SHAPE] compares two tuples of integers. *)
Definition shape_eqb (s1 s2 : list nat) : bool :=
  if list_eq_dec Nat.eq_dec s1 s2 then true else false.

Definition maximum (x y : Q) : Q := if Qle_bool x y then y else x.
Definition minimum (x y : Q) : Q := if Qle_bool x y then x else y.

(** [np.max] and [ndarray.max()]: a reduction that has no identity. *)
Definition max (xs : list Q) : Py.result Q :=
  match xs with
  | [] => Py.raise Py.ValueError_zero_size
  | x :: rest => Py.ret (fold_left maximum rest x)
  end.

Definition min (xs : list Q) : Py.result Q :=
  match xs with
  | [] => Py.raise Py.ValueError_zero_size
  | x :: rest => Py.ret (fold_left minimum rest x)
  end.

(** [np.clip(x, lo, hi)] is [minimum(maximum(x, lo), hi)]. *)
Definition clip (x lo hi : Q) : Q := minimum (maximum x lo) hi.

(** [.astype(np.int8)] on a float: the C conversion, which drops the
    fractional part (rounds toward zero).  The sources apply it to values
    already clipped to [-128, 127], where the conversion is defined. *)
Definition astype_int8 (x : Q) : Z := Z.quot (Qnum x) (Zpos (Qden x)).

(** [.astype(np.float32)] on an int8. *)
Definition astype_float32 (z : Z) : Q := inject_Z z.

(** [np.argmax]: the first index of the largest element. *)
Fixpoint argmax_from (i best_i : nat) (best : Q) (xs : list Q) : nat :=
  match xs with
  | [] => best_i
  | x :: rest =>
      if Qle_bool x best then argmax_from (S i) best_i best rest
      else argmax_from (S i) i x rest
  end.

Definition argmax (xs : list Q) : Py.result nat :=
  match xs with
  | [] => Py.raise Py.ValueError_zero_size
  | x :: rest => Py.ret (argmax_from 1 0 x rest)
  end.

End Np.

(** ** IEEE 754 binary32, the arithmetic of [np.float32] *)

Module F32.

Definition prec : Z := 24.
Definition emax : Z := 128.

(** The float nearest to the integer [z], and to [m * 2 ^ e]. *)
Definition of_int (z : Z) : spec_float := binary_normalize prec emax z 0 false.
Definition dyadic (m e : Z) : spec_float :=
  binary_normalize prec emax m e false.

Definition add : spec_float -> spec_float -> spec_float := SFadd prec emax.
Definition sub : spec_float -> spec_float -> spec_float := SFsub prec emax.
Definition mul : spec_float -> spec_float -> spec_float := SFmul prec emax.
Definition div : spec_float -> spec_float -> spec_float := SFdiv prec emax.

Definition is_nan (x : spec_float) : bool :=
  match x with
  | S754_nan => true
  | _ => false
  end.

(** A zero or a finite non-zero number: neither an infinity nor a NaN. *)
Definition is_finite (x : spec_float) : bool :=
  match x with
  | S754_zero _ | S754_finite _ _ _ => true
  | _ => false
  end.

(** [np.maximum], [np.minimum] and [np.clip] on floats; a NaN is passed
    on. *)
Definition maximum (x y : spec_float) : spec_float :=
  if is_nan x then x else if is_nan y then y
  else if SFleb x y then y else x.
Definition minimum (x y : spec_float) : spec_float :=
  if is_nan x then x else if is_nan y then y
  else if SFleb x y then x else y.
Definition clip (x lo hi : spec_float) : spec_float :=
  minimum (maximum x lo) hi.

(** The C conversion to an integer of a finite float: toward zero.  (Of an
    infinity or a NaN the conversion is not defined by C; the sources
    convert clipped values.) *)
Definition astype_int8 (x : spec_float) : Z :=
  match x with
  | S754_finite s m e =>
      cond_Zopp s (if (0 <=? e)%Z then Z.shiftl (Zpos m) e
                   else Z.shiftr (Zpos m) (- e))
  | _ => 0%Z
  end.

(** A finite float in units of [2 ^ -149], the smallest positive binary32
    number. *)
Definition ulps (x : spec_float) : Z :=
  match x with
  | S754_finite s m e => cond_Zopp s (Zpos m * 2 ^ (e + 149))
  | _ => 0%Z
  end.

(** The float is one of the format: its mantissa has at most 24 bits, and
    exactly 24 unless the exponent is the smallest one, -149. *)
Definition valid (x : spec_float) : bool := valid_binary prec emax x.

(** The rational a finite float stands for. *)
Definition to_Q (x : spec_float) : Q :=
  match x with
  | S754_finite s m e => inject_Z (cond_Zopp s (Zpos m)) * 2 ^ e
  | _ => 0
  end.

End F32.

(** ** The operating system: files, and the temporary file of an upload *)

Module Os.

Local Open Scope string_scope.

Definition bytes : Type := string.

(** [files]: the paths that exist, with their contents.  [locked]: paths
    another process holds, which [os.remove] cannot delete.  [tmp_next]:
    what the next [NamedTemporaryFile] is called. *)
Record filesystem : Type := mk_fs {
  files : list (string * bytes);
  locked : list string;
  tmp_next : nat
}.

(** [os.path.exists(path)] *)
Definition path_exists (fs : filesystem) (path : string) : bool :=
  existsb (fun p => String.eqb (fst p) path) (files fs).

Definition read (fs : filesystem) (path : string) : option bytes :=
  option_map snd (find (fun p => String.eqb (fst p) path) (files fs)).

Definition delete (fs : filesystem) (path : string) : filesystem :=
  mk_fs (filter (fun p => negb (String.eqb (fst p) path)) (files fs))
        (locked fs) (tmp_next fs).

(** [os.remove(path)]: raises [OSError] when the path is absent or held. *)
Definition remove (fs : filesystem) (path : string)
  : Py.result unit * filesystem :=
  if negb (path_exists fs path)
  then (Py.raise (Py.OSError "FileNotFoundError"), fs)
  else if existsb (String.eqb path) (locked fs)
       then (Py.raise (Py.OSError "PermissionError"), fs)
       else (Py.ret tt, delete fs path).

Section TempFile.
(** The name [tempfile] picks for its [n]-th file with suffix [.wav]. *)
Variable tmp_name : nat -> string.

(** [with NamedTemporaryFile(delete=False, suffix=".wav") as tmp:
       tmp.write(content); audio_path = tmp.name] *)
Definition write_temp (fs : filesystem) (content : bytes)
  : string * filesystem :=
  let path := tmp_name (tmp_next fs) in
  (path, mk_fs ((path, content) :: files (delete fs path))
               (locked fs) (S (tmp_next fs))).
End TempFile.

End Os.

(** ** [streamlit-int8-app/app.py]: the mel-spectrogram front end *)

Module Int8App.
Import Py Np.

Definition TARGET_SR : Z := 16000.
Definition N_MELS : nat := 64.

Definition ID_TO_LABEL : list (nat * string) :=
  [ (0%nat, "Safe/Neutral"%string);
    (1%nat, "DANGER (Fear)"%string);
    (2%nat, "Caution (Angry)"%string) ].

(** One entry of [get_input_details()] / [get_output_details()]. *)
Record tensor_details : Type := mk_details {
  td_shape : list nat;
  td_dtype : dtype;
  td_quantization : Q * Z        (* (scale, zero_point) *)
}.

(** The affine quantization of one element, lines 79-80:
    [x / scale + zero_point], then [np.clip(., -128, 127).astype(np.int8)]. *)
Definition quantize (scale : Q) (zero_point : Z) (x : Q) : Z :=
  astype_int8 (clip (x / scale + inject_Z zero_point) (-128) 127).

(** The dequantization of one output element, line 118:
    [(output.astype(np.float32) - zero_point) * scale]. *)
Definition dequantize (scale : Q) (zero_point : Z) (q : Z) : Q :=
  (astype_float32 q - inject_Z zero_point) * scale.

(** The same two lines in binary32 arithmetic. *)
Definition quantize_f32 (scale : spec_float) (zero_point : Z)
    (x : spec_float) : Z :=
  F32.astype_int8
    (F32.clip (F32.add (F32.div x scale) (F32.of_int zero_point))
              (F32.of_int (-128)) (F32.of_int 127)).

Definition dequantize_f32 (scale : spec_float) (zero_point : Z) (q : Z)
  : spec_float :=
  F32.mul (F32.sub (F32.of_int q) (F32.of_int zero_point)) scale.

(** Lines 77-80 on a tensor of binary32 elements: the quantization applies
    when the input type of the model is [int8], and to every element. *)
Definition quantize_input_f32 (input_dtype : dtype) (scale : spec_float)
    (zero_point : Z) (mel_db : array spec_float)
  : array spec_float + array Z :=
  if dtype_eqb input_dtype int8
  then inr (map_array (quantize_f32 scale zero_point) mel_db)
  else inl mel_db.

(** Lines 42-44: peak normalization of the waveform. *)
Definition normalize_waveform (audio_np : list Q) : result (list Q) :=
  max_val <- Np.max (map Qabs audio_np) ;;
  ret (if Qlt_le_dec 0 max_val
       then map (fun x => x / max_val) audio_np
       else audio_np).

(** [a[:, :, np.newaxis]] *)
Definition newaxis_at_2 (a : array Q) : result (array Q) :=
  match shape a with
  | h :: w :: rest => ret (mk_array (h :: w :: 1%nat :: rest) (data a))
  | _ => raise IndexError
  end.

(** Of [n] consecutive blocks of [blk] elements, the first [keep] of each. *)
Fixpoint take_blocks {A} (n blk keep : nat) (xs : list A) : list A :=
  match n with
  | O => []
  | S n' => firstn keep xs ++ take_blocks n' blk keep (skipn blk xs)
  end.

(** [a[:, :, 0]] *)
Definition index_axis2_0 (a : array Q) : result (array Q) :=
  match shape a with
  | h :: w :: S c :: rest =>
      let inner := fold_right Nat.mul 1%nat rest in
      ret (mk_array (h :: w :: rest)
                    (take_blocks (h * w) (S c * inner) inner (data a)))
  | _ => raise IndexError
  end.

(** [a[np.newaxis, np.newaxis, :, :]] *)
Definition newaxis_nchw (a : array Q) : result (array Q) :=
  match shape a with
  | _ :: _ :: _ => ret (mk_array (1%nat :: 1%nat :: shape a) (data a))
  | _ => raise IndexError
  end.

Section Preprocess.

(** The model artifact: [input_details[0]]. *)
Variable input_details : tensor_details.

Definition EXPECTED_SHAPE : list nat := td_shape input_details.

(** [librosa.feature.melspectrogram(y=., sr=TARGET_SR, n_mels=N_MELS,
    n_fft=1024, hop_length=512)], [librosa.power_to_db(., ref=np.max)]
    and [tf.image.resize(., size).numpy()]. *)
Variable melspectrogram : list Q -> array Q.
Variable power_to_db : array Q -> array Q.
Variable image_resize : array Q -> nat * nat -> array Q.

(** Lines 46-68: the feature tensor in NCHW layout, before the shape
    check. *)
Definition mel_features (audio_np : list Q) : result (array Q) :=
  audio_np <- normalize_waveform audio_np ;;
  let mel := melspectrogram audio_np in
  let mel_db := power_to_db mel in
  expanded <- newaxis_at_2 mel_db ;;
  mel_db <- index_axis2_0 (image_resize expanded (64%nat, 64%nat)) ;;
  lo <- Np.min (data mel_db) ;;
  hi <- Np.max (data mel_db) ;;
  let mel_db :=
    map_array (fun x => (x - lo) / (hi - lo + (1 # 1000000))) mel_db in
  newaxis_nchw mel_db.

(** Lines 70-82: the shape validation, then the INT8 quantization. *)
Definition validate_and_quantize (mel_db : array Q) : result ndarray :=
  if negb (shape_eqb (shape mel_db) EXPECTED_SHAPE)
  then raise (ValueError_shape_mismatch (shape mel_db) EXPECTED_SHAPE)
  else
    if dtype_eqb (td_dtype input_details) int8
    then
      let '(scale, zero_point) := td_quantization input_details in
      ret (nd_int8 (map_array (quantize scale zero_point) mel_db))
    else ret (nd_float32 mel_db).

Definition preprocess_audio (audio_np : list Q) : result ndarray :=
  mel_db <- mel_features audio_np ;;
  validate_and_quantize mel_db.

End Preprocess.

(** What the page shows. *)
Inductive ui_event : Type :=
| st_success_prediction (pred_label : string)
    (* st.success(f"Prediction: **{pred_label}**") *)
| st_subheader_confidence
    (* st.subheader("Confidence Scores") *)
| st_write_score (label : string) (percent : Q)
    (* st.write(f"{label}: {probs[i]*100:.1f}%") *)
| st_error_inference (e : exception).
    (* st.error(f"Error during inference: {e}") *)

Record app_state : Type := mk_state {
  fs : Os.filesystem;
  ui : list ui_event
}.

Definition show (ev : ui_event) : M app_state unit :=
  modify (fun s => mk_state (fs s) (ui s ++ [ev])).

Definition os_remove (path : string) : M app_state unit :=
  fun s =>
    let (r, fs') := Os.remove (fs s) path in
    (r, mk_state fs' (ui s)).

(** [ID_TO_LABEL[pred_id]] *)
Definition label_of (pred_id : nat) : result string :=
  match find (fun p => Nat.eqb (fst p) pred_id) ID_TO_LABEL with
  | Some p => ret (snd p)
  | None => raise (KeyError (Z.of_nat pred_id))
  end.

(** [probs[i]] *)
Definition item (probs : list Q) (i : nat) : result Q :=
  match nth_error probs i with
  | Some x => ret x
  | None => raise IndexError
  end.

Section Handler.

Variables input_details output_details : tensor_details.
Variable melspectrogram : list Q -> array Q.
Variable power_to_db : array Q -> array Q.
Variable image_resize : array Q -> nat * nat -> array Q.

Variable tmp_name : nat -> string.
(** [librosa.load(., sr=TARGET_SR)] on the bytes of the file. *)
Variable librosa_load : Os.bytes -> result (list Q).
(** [interpreter.set_tensor(.); interpreter.invoke();
    interpreter.get_tensor(.)[0]] *)
Variable interpreter_run : ndarray -> result ndarray.
(** [tf.nn.softmax(.).numpy()] *)
Variable softmax : list Q -> list Q.

Definition load_audio (audio_path : string) : M app_state (list Q) :=
  fun s =>
    match Os.read (fs s) audio_path with
    | Some content => (librosa_load content, s)
    | None => (raise (OSError "FileNotFoundError"), s)
    end.

(** Lines 115-118. *)
Definition dequantize_output (output : ndarray) : list Q :=
  if dtype_eqb (td_dtype output_details) int8
  then
    let '(scale, zero_point) := td_quantization output_details in
    match output with
    | nd_int8 a => map (dequantize scale zero_point) (data a)
    | nd_float32 a =>
        map (fun x => (x - inject_Z zero_point) * scale) (data a)
    end
  else
    match output with
    | nd_int8 a => map astype_float32 (data a)
    | nd_float32 a => data a
    end.

Fixpoint write_scores (labels : list (nat * string)) (probs : list Q)
  : M app_state unit :=
  match labels with
  | [] => mret tt
  | (i, label) :: rest =>
      p <~ lift (item probs i) ;;
      show (st_write_score label (p * 100)) ;;;
      write_scores rest probs
  end.

(** Lines 101-129: the body of the [try]. *)
Definition infer_and_show (audio_path : string) : M app_state unit :=
  audio <~ load_audio audio_path ;;
  input_tensor <~ lift (preprocess_audio input_details melspectrogram
                          power_to_db image_resize audio) ;;
  output <~ lift (interpreter_run input_tensor) ;;
  let probs := softmax (dequantize_output output) in
  pred_id <~ lift (argmax probs) ;;
  pred_label <~ lift (label_of pred_id) ;;
  show (st_success_prediction pred_label) ;;;
  show st_subheader_confidence ;;;
  write_scores ID_TO_LABEL probs.

(** Lines 100-132: the [try] with its [except]. *)
Definition try_inference (audio_path : string) : M app_state unit :=
  try_except (infer_and_show audio_path)
             (fun e => show (st_error_inference e)).

(** Lines 95-135: what happens when a file has been uploaded. *)
Definition on_upload (uploaded_file : Os.bytes) : M app_state unit :=
  fun s =>
    let (audio_path, fs') := Os.write_temp tmp_name (fs s) uploaded_file in
    try_finally
      (try_except (infer_and_show audio_path)
                  (fun e => show (st_error_inference e)))
      (os_remove audio_path)
      (mk_state fs' (ui s)).

End Handler.

(** A loaded model: [get_input_details()[0]], [get_output_details()[0]],
    and [set_tensor(., x); invoke(); get_tensor(.)[0]]. *)
Record interpreter : Type := mk_interpreter {
  input_details_0 : tensor_details;
  output_details_0 : tensor_details;
  invoke : ndarray -> result ndarray
}.

(** The path of line 26, relative to the working directory. *)
Definition MODEL_PATH : string := "tiny_safety_3class_int8.tflite"%string.

Section Script.

Variable melspectrogram : list Q -> array Q.
Variable power_to_db : array Q -> array Q.
Variable image_resize : array Q -> nat * nat -> array Q.
Variable tmp_name : nat -> string.
Variable librosa_load : Os.bytes -> result (list Q).
Variable softmax : list Q -> list Q.
(** [tf.lite.Interpreter(model_path=.)] followed by [allocate_tensors()],
    on the bytes of the file. *)
Variable tflite_Interpreter : Os.bytes -> result interpreter.

(** Lines 23-29.  Nothing looks whether the file is there: the
    constructor raises on a path it cannot open.  (The decorator
    [st.cache_resource] memoises the interpreter; a run is modelled from
    an empty cache.) *)
Definition load_interpreter : M app_state interpreter :=
  fun s =>
    match Os.read (fs s) MODEL_PATH with
    | Some b => (tflite_Interpreter b, s)
    | None =>
        (raise (LibraryError
                  "Could not open 'tiny_safety_3class_int8.tflite'."), s)
    end.

(** One run of the script: lines 31-35, then lines 90-135 with what the
    uploader holds. *)
Definition script (uploaded_file : option Os.bytes) : M app_state unit :=
  interpreter <~ load_interpreter ;;
  match uploaded_file with
  | None => mret tt
  | Some uploaded_file =>
      on_upload (input_details_0 interpreter) (output_details_0 interpreter)
        melspectrogram power_to_db image_resize tmp_name librosa_load
        (invoke interpreter) softmax uploaded_file
  end.

End Script.

End Int8App.

(** ** [week1/streamlit-int8-app/app.py]: the MFCC front end and the notifier *)

Module Week1App.
Import Py Np.

Local Open Scope string_scope.

(** *** 1. Configuration *)

Definition os_path_join (dir name : string) : string := dir ++ "/" ++ name.

Record config : Type := mk_config {
  sample_rate : Z;
  duration : Q;
  n_mfcc : nat;
  model_path : string;
  classes_path : string;
  mqtt_broker : string;
  mqtt_topic : string
}.

Definition CONFIG (BASE_DIR : string) : config :=
  {| sample_rate := 22050;
     duration := 3;
     n_mfcc := 40;
     model_path := os_path_join BASE_DIR "women_safety_dscnn_f16.tflite";
     classes_path := os_path_join BASE_DIR "classes.npy";
     mqtt_broker := "broker.hivemq.com";
     mqtt_topic := "tinyml/anshika/badge" |}.

(** [int(CONFIG["sample_rate"] * CONFIG["duration"])]; neither field
    depends on [BASE_DIR]. *)
Definition TARGET_LENGTH : nat :=
  Z.to_nat (Qfloor (inject_Z (sample_rate (CONFIG "")) * duration (CONFIG ""))).
Definition EXPECTED_FRAMES : nat := 130.

(** *** 4. Preprocess: the two pad-or-truncate steps *)

(** Lines 120-125. *)
Definition pad_or_truncate (y : list Q) : list Q :=
  if (TARGET_LENGTH <? List.length y)%nat
  then firstn TARGET_LENGTH y
  else
    let padding := (TARGET_LENGTH - List.length y)%nat in
    (y ++ repeat 0 padding)%list.

(** A two-dimensional array, one list per row; [cols] is [shape[1]]. *)
Record matrix : Type := mk_matrix {
  cols : nat;
  rows : list (list Q)
}.

Definition well_formed (m : matrix) : Prop :=
  Forall (fun r => List.length r = cols m) (rows m).

(** Lines 131-137. *)
Definition fix_time_steps (mfcc : matrix) : matrix :=
  let curr := cols mfcc in
  if (curr <? EXPECTED_FRAMES)%nat
  then
    let pad_width := (EXPECTED_FRAMES - curr)%nat in
    mk_matrix (curr + pad_width)
              (map (fun r => (r ++ repeat 0 pad_width)%list) (rows mfcc))
  else
    mk_matrix (Nat.min curr EXPECTED_FRAMES)
              (map (firstn EXPECTED_FRAMES) (rows mfcc)).

(** Lines 139-141: [np.expand_dims(., axis=0)] then
    [np.expand_dims(., axis=-1)]. *)
Definition expand_dims_batch_channel (mfcc : matrix) : array Q :=
  mk_array [1%nat; List.length (rows mfcc); cols mfcc; 1%nat]
           (List.concat (rows mfcc)).

(** *** The state of a session *)

(** A call on the paho-mqtt client, with its arguments. *)
Inductive mqtt_call : Type :=
| Client (client_id : string)
| connect (host : string) (port keepalive : Z)
| loop_start
| publish (topic payload : string) (qos : Z)
| wait_for_publish (timeout : Q)
| loop_stop
| disconnect.

(** What a client call does: it returns, it raises, or, for
    [wait_for_publish(timeout=.)], it returns because the timeout has
    elapsed before the acknowledgement of the broker (paho-mqtt does not
    raise then; [msg_info.is_published()] stays false). *)
Inductive outcome : Type :=
| returned
| timed_out
| raised (e : exception).

(** A loaded model: [input_shape] is [get_input_details()[0]['shape']],
    [invoke x] is [invoke(); get_tensor(.)[0]] once the input tensor is
    set to [x]. *)
Record Interpreter : Type := mk_interpreter {
  input_shape : list nat;
  invoke : ndarray -> result (list Q)
}.

(** [set_tensor(input_details[0]['index'], x)], line 175: TensorFlow Lite
    takes a tensor of the declared shape only, and raises a [ValueError]
    on any other. *)
Definition set_tensor (interpreter : Interpreter) (x : ndarray)
  : result unit :=
  if shape_eqb (nd_shape x) (input_shape interpreter)
  then ret tt
  else raise (LibraryError "Cannot set tensor: Dimension mismatch").

(** Lines 175-177: [set_tensor(., x); invoke(); get_tensor(.)[0]]. *)
Definition run (interpreter : Interpreter) (x : ndarray)
  : result (list Q) :=
  _ <- set_tensor interpreter x ;;
  invoke interpreter x.

Inductive ui_event : Type :=
| st_error_mqtt (e : exception)
    (* st.error(f"MQTT Error: {e}") *)
| st_error_model_not_found (path : string)
    (* st.error(f"Model file {CONFIG['model_path']} not found!") *)
| st_error_loading_audio (e : exception)
    (* st.error(f"Error loading audio: {e}") *)
| st_audio (audio_path : string)
| st_error_model_not_loaded
    (* st.error("Model not loaded.") *)
| st_markdown_result (color status : string)
    (* st.markdown(f"## Result: :{color}[{status}]") *)
| st_markdown_emotion (emotion_upper : string)
    (* st.markdown(f"**Detected Emotion:** {emotion.upper()}") *)
| st_markdown_confidence (confidence : Q)
    (* st.markdown(f"**Confidence:** {confidence:.2f}%") *)
| st_success_sent (mqtt_cmd : string)
    (* st.success(f"... Signal '{mqtt_cmd}' sent to Wokwi Badge.") *)
| st_error_failed_to_send
    (* st.error("... Failed to send signal to Wokwi.") *)
| st_bar_chart (probs : list Q).

(** [fs]: the files; [ui]: what the page has shown, oldest first;
    [mqtt_log]: the client calls made, oldest first; [invoked]: the tensors
    [invoke()] was called on; [uuid_next]: the index of the next
    [uuid.uuid4()]. *)
Record app_state : Type := mk_state {
  fs : Os.filesystem;
  ui : list ui_event;
  mqtt_log : list mqtt_call;
  invoked : list ndarray;
  uuid_next : nat
}.

Definition show (ev : ui_event) : M app_state unit :=
  modify (fun s => mk_state (fs s) (ui s ++ [ev]) (mqtt_log s) (invoked s)
                            (uuid_next s)).

Definition os_remove (path : string) : M app_state unit :=
  fun s =>
    let (r, fs') := Os.remove (fs s) path in
    (r, mk_state fs' (ui s) (mqtt_log s) (invoked s) (uuid_next s)).

Definition read_file (path : string) : M app_state Os.bytes :=
  fun s =>
    match Os.read (fs s) path with
    | Some content => (ret content, s)
    | None => (raise (OSError "FileNotFoundError"), s)
    end.

(** [seq[i]] *)
Definition item {A} (seq : list A) (i : nat) : result A :=
  match nth_error seq i with
  | Some x => ret x
  | None => raise IndexError
  end.

(** [str.upper()] of an ASCII string: the letters a-z are capitalised and
    every other character is kept.  Outside ASCII, [str.upper] follows the
    Unicode tables, which are not modelled; what is stated of [upper] is
    stated of ASCII labels ([Spec.ascii_only]). *)
Definition upper_ascii (c : ascii) : ascii :=
  let n := nat_of_ascii c in
  if ((97 <=? n) && (n <=? 122))%nat then ascii_of_nat (n - 32) else c.

Fixpoint upper (s : string) : string :=
  match s with
  | EmptyString => EmptyString
  | String c rest => String (upper_ascii c) (upper rest)
  end.

(** Lines 184-196: status, colour and badge command of an emotion. *)
Definition safety_logic (emotion : string) : string * string * string :=
  if emotion =? "fear" then ("🚨 DANGER", "red", "D")
  else if emotion =? "angry" then ("⚠️ CAUTION", "orange", "C")
  else ("✅ SAFE", "green", "S").

Definition default_classes : list string :=
  ["angry"; "disgust"; "fear"; "happy"; "neutral"; "sad"; "surprise"].

(** An uploaded or recorded file: [source.name] and [source.read()]. *)
Record source : Type := mk_source {
  name : string;
  content : Os.bytes
}.

Section App.

Variable BASE_DIR : string.
(** The [n]-th value of [uuid.uuid4()], as text. *)
Variable uuid4 : nat -> string.
(** What the broker and the network make of each client call. *)
Variable mqtt_outcome : mqtt_call -> outcome.
Variable tmp_name : nat -> string.
(** [np.load(., allow_pickle=True)] and [tf.lite.Interpreter(model_path=.)]
    followed by [allocate_tensors()], on the bytes of the file. *)
Variable np_load : Os.bytes -> result (list string).
Variable tflite_Interpreter : Os.bytes -> result Interpreter.
(** [librosa.load(., sr=22050)], [librosa.effects.trim] and
    [librosa.feature.mfcc(y=., sr=sr, n_mfcc=40)]. *)
Variable librosa_load : Os.bytes -> result (list Q).
Variable librosa_effects_trim : list Q -> list Q.
Variable librosa_feature_mfcc : list Q -> matrix.

(** *** 2. MQTT *)

Definition mqtt_do (c : mqtt_call) : M app_state unit :=
  fun s =>
    let s' := mk_state (fs s) (ui s) (mqtt_log s ++ [c]) (invoked s)
                       (uuid_next s) in
    match mqtt_outcome c with
    | raised e => (raise e, s')
    | returned | timed_out => (ret tt, s')
    end.

Definition fresh_uuid : M app_state string :=
  fun s => (ret (uuid4 (uuid_next s)),
            mk_state (fs s) (ui s) (mqtt_log s) (invoked s)
                     (S (uuid_next s))).

(** Lines 54-78. *)
Definition send_to_wokwi (command : string) : M app_state bool :=
  try_except
    (u <~ fresh_uuid ;;
     let random_id := "streamlit_client_" ++ u in
     mqtt_do (Client random_id) ;;;
     mqtt_do (connect (mqtt_broker (CONFIG BASE_DIR)) 1883 60) ;;;
     mqtt_do loop_start ;;;
     mqtt_do (publish (mqtt_topic (CONFIG BASE_DIR)) command 1) ;;;
     mqtt_do (wait_for_publish 2) ;;;
     mqtt_do loop_stop ;;;
     mqtt_do disconnect ;;;
     mret true)
    (fun e => show (st_error_mqtt e) ;;; mret false).

(** *** 3. Load model and classes *)

(** Lines 84-98.  The decorator [st.cache_resource] memoises the pair
    that is returned; a run of the script is modelled from an empty
    cache. *)
Definition load_resources
  : M app_state (option Interpreter * option (list string)) :=
  fun s =>
    (classes <~ (if Os.path_exists (fs s) (classes_path (CONFIG BASE_DIR))
                 then (b <~ read_file (classes_path (CONFIG BASE_DIR)) ;;
                       lift (np_load b))
                 else mret default_classes) ;;
     if negb (Os.path_exists (fs s) (model_path (CONFIG BASE_DIR)))
     then
       show (st_error_model_not_found (model_path (CONFIG BASE_DIR))) ;;;
       mret (None, None)
     else
       b <~ read_file (model_path (CONFIG BASE_DIR)) ;;
       interpreter <~ lift (tflite_Interpreter b) ;;
       mret (Some interpreter, Some classes)) s.

(** *** 4. Preprocess *)

(** Lines 109-143; [None] is Python's [None]. *)
Definition preprocess_audio (audio_path : string)
  : M app_state (option ndarray) :=
  loaded <~ try_except
              (b <~ read_file audio_path ;;
               y <~ lift (librosa_load b) ;;
               mret (Some y))
              (fun e => show (st_error_loading_audio e) ;;; mret None) ;;
  match loaded with
  | None => mret None
  | Some y =>
      let y := librosa_effects_trim y in
      let y := pad_or_truncate y in
      let mfcc := librosa_feature_mfcc y in
      let mfcc := fix_time_steps mfcc in
      let input_tensor := expand_dims_batch_channel mfcc in
      mret (Some (nd_float32 input_tensor))
  end.

(** *** 5. The page *)

(** Lines 175-177 in a session: the tensor is recorded in [invoked] when
    [invoke()] is reached, that is, once [set_tensor] has taken it. *)
Definition interpreter_run (interpreter : Interpreter) (x : ndarray)
  : M app_state (list Q) :=
  lift (set_tensor interpreter x) ;;;
  fun s =>
    (invoke interpreter x,
     mk_state (fs s) (ui s) (mqtt_log s) (invoked s ++ [x]) (uuid_next s)).

Definition write_temp (b : Os.bytes) : M app_state string :=
  fun s =>
    let (audio_path, fs') := Os.write_temp tmp_name (fs s) b in
    (ret audio_path,
     mk_state fs' (ui s) (mqtt_log s) (invoked s) (uuid_next s)).

(** Lines 170-212: what the button does once the model is loaded. *)
Definition classify_and_notify (interpreter : Interpreter)
    (classes : option (list string)) (audio_path : string)
  : M app_state unit :=
  input_data <~ preprocess_audio audio_path ;;
  match input_data with
  | None => mret tt
  | Some input_data =>
      probs <~ interpreter_run interpreter input_data ;;
      pred_idx <~ lift (argmax probs) ;;
      p <~ lift (item probs pred_idx) ;;
      let confidence := (p * 100)%Q in
      emotion <~ lift (match classes with
                       | Some cs => item cs pred_idx
                       | None => raise TypeError
                       end) ;;
      let '(status, color, mqtt_cmd) := safety_logic emotion in
      sent <~ send_to_wokwi mqtt_cmd ;;
      show (st_markdown_result color status) ;;;
      show (st_markdown_emotion (upper emotion)) ;;;
      show (st_markdown_confidence confidence) ;;;
      (if sent : bool then show (st_success_sent mqtt_cmd)
       else show st_error_failed_to_send) ;;;
      show (st_bar_chart probs)
  end.

(** Lines 155-218.  [pressed]: whether [st.button("Analyze Audio", ..)]
    returned [True] in this run. *)
Definition analyze_audio (interpreter : option Interpreter)
    (classes : option (list string)) (src : source) (pressed : bool)
  : M app_state unit :=
  audio_path <~ write_temp (content src) ;;
  show (st_audio audio_path) ;;;
  (if pressed
   then
     match interpreter with
     | None => show st_error_model_not_loaded
     | Some interpreter => classify_and_notify interpreter classes audio_path
     end
   else mret tt) ;;;
  try_except (os_remove audio_path) (fun _ => mret tt).

(** One run of the script: lines 100 and 221-233. *)
Definition script (uploaded_file recorded_audio : option (source * bool))
  : M app_state unit :=
  loaded <~ load_resources ;;
  let '(interpreter, classes) := loaded in
  (match uploaded_file with
   | Some (src, pressed) => analyze_audio interpreter classes src pressed
   | None => mret tt
   end) ;;;
  match recorded_audio with
  | Some (src, pressed) => analyze_audio interpreter classes src pressed
  | None => mret tt
  end.

End App.

End Week1App.

(** ** [Shiny-R/Convert dataset to excel.py]: the batch export *)

Module ExcelExport.

Local Open Scope string_scope.

(** A directory as [os.scandir] lists it: the names of its files and its
    subdirectories, in the order of the operating system. *)
#[warnings="-register-all"]
Inductive dir : Type :=
| Dir (files : list string) (subdirs : list (string * dir)).

(** Paths are joined and split at ["/"], which stands for the separator
    of the platform. *)
Definition sep : ascii := "/"%char.

Definition os_path_join (root name : string) : string :=
  root ++ String sep name.

(** [str.split(c)] for a one-character separator. *)
Fixpoint split (c : ascii) (s : string) : list string :=
  match s with
  | EmptyString => [EmptyString]
  | String a rest =>
      if Ascii.eqb a c then EmptyString :: split c rest
      else
        match split c rest with
        | field :: fields => String a field :: fields
        | [] => [String a EmptyString]
        end
  end.

(** [os.path.basename] *)
Definition os_path_basename (path : string) : string :=
  List.last (split sep path) EmptyString.

(** [str.lower()] on ASCII letters. *)
Definition lower_ascii (c : ascii) : ascii :=
  let n := nat_of_ascii c in
  if ((65 <=? n) && (n <=? 90))%nat then ascii_of_nat (n + 32) else c.

Fixpoint lower (s : string) : string :=
  match s with
  | EmptyString => EmptyString
  | String c rest => String (lower_ascii c) (lower rest)
  end.

Definition endswith (s suffix : string) : bool :=
  let n := String.length s in
  let k := String.length suffix in
  ((k <=? n)%nat && (substring (n - k) k s =? suffix))%bool.

(** [list.sort()]: a stable sort by [<]; here by insertion, on a key. *)
Fixpoint insert_by {A} (key : A -> string) (x : A) (l : list A) : list A :=
  match l with
  | [] => [x]
  | y :: rest =>
      if String.leb (key x) (key y) then x :: y :: rest
      else y :: insert_by key x rest
  end.

Definition sort_by {A} (key : A -> string) (l : list A) : list A :=
  fold_right (insert_by key) [] l.

Definition sort (l : list string) : list string := sort_by (fun s => s) l.

(** A [datetime] is counted in seconds since 1900-01-01 00:00:00, the date
    [strptime] gives to a time without a date (the end of the range of
    [datetime], in the year 9999, is out of reach and not modelled). *)
Definition datetime : Type := Z.

(** [datetime.strptime("09:00:00", "%H:%M:%S")] *)
Definition start_time : datetime := (9 * 3600)%Z.

Definition TIME_GAP : Z := 3.

Definition digit (d : Z) : ascii := ascii_of_nat (48 + Z.to_nat d).

(** [%H], [%M], [%S]: two decimal digits. *)
Definition two_digits (n : Z) : string :=
  String (digit (n / 10)%Z) (String (digit (n mod 10)%Z) EmptyString).

(** [.strftime("%H:%M:%S")] *)
Definition strftime_HMS (t : datetime) : string :=
  two_digits ((t / 3600) mod 24)%Z ++ ":" ++
  two_digits ((t / 60) mod 60)%Z ++ ":" ++
  two_digits (t mod 60)%Z.

Record row : Type := mk_row {
  id : Z;
  time : string;
  inference_of_emotion : string
}.

(** The variables the loop updates. *)
Record state : Type := mk_state {
  rows : list row;
  current_time : datetime;
  audio_id : Z
}.

Definition initial : state := mk_state [] start_time 1.

(** Lines 22-32: the body of [for file in files]. *)
Definition on_file (root : string) (st : state) (file : string) : state :=
  if endswith (lower file) ".wav"
  then
    let emotion := List.last (split "_"%char (os_path_basename root))
                             EmptyString in
    mk_state
      (rows st ++ [ mk_row (audio_id st) (strftime_HMS (current_time st))
                           emotion ])%list
      (current_time st + TIME_GAP)%Z
      (audio_id st + 1)%Z
  else st.

(** Lines 17-32: [os.walk] top-down, with the loop body run at every
    directory.  The body sorts [dirs] in place, so the walk descends in the
    sorted order; each subdirectory is walked with the state the previous
    one left.  (The continuation of a subdirectory is built before the
    sort, which keeps its name as the key.) *)
Fixpoint walk (root : string) (d : dir) {struct d} : state -> state :=
  match d with
  | Dir files subdirs =>
      fun st =>
        let st := fold_left (on_file root) (sort files) st in
        let dirs :=
          sort_by fst
            (map (fun p : string * dir =>
                    let (name, sub) := p in
                    (name, walk (os_path_join root name) sub))
                 subdirs) in
        fold_left (fun st k => snd k st) dirs st
  end.

(** Lines 7-34: the rows handed to [pd.DataFrame]. *)
Definition export (DATASET_PATH : string) (tree : dir) : list row :=
  rows (walk DATASET_PATH tree initial).

End ExcelExport.

(** ** [Shiny-R/synthetic data generation.py]: the synthetic sheet *)

Module SyntheticData.
Import Py.

Local Open Scope string_scope.

(** Lines 6-10.  The two times are [datetime.strptime(., "%H:%M:%S")] of
    ["09:00:00"] and ["18:00:00"], in seconds as in [ExcelExport]. *)
Definition start_time : ExcelExport.datetime := (9 * 3600)%Z.
Definition end_time : ExcelExport.datetime := (18 * 3600)%Z.
Definition interval_seconds : Z := 10.

Definition emotions : list string :=
  ["angry"; "sad"; "happy"; "disgust"; "neutral"].

(** Lines 15-17: the [while] loop, for at most [fuel] tests of its
    condition; [None] when the loop is still running after them. *)
Fixpoint while_loop (fuel : nat) (current_time : ExcelExport.datetime)
    (timestamps : list string) : option (list string) :=
  match fuel with
  | O => None
  | S fuel' =>
      if (current_time <=? end_time)%Z
      then while_loop fuel'
             (current_time + interval_seconds)%Z
             (timestamps ++ [ExcelExport.strftime_HMS current_time])%list
      else Some timestamps
  end.

(** [range(1, stop)] *)
Definition range_from_1 (stop : nat) : list Z :=
  map Z.of_nat (seq 1 (stop - 1)).

Section Random.

(** The [k]-th draw of the generator: what [random._randbelow(n)]
    returns then. *)
Variable randbelow : nat -> nat -> nat.

(** [random.choice(seq)] at the [k]-th draw: [seq[_randbelow(len(seq))]],
    and [IndexError] on an empty sequence. *)
Definition random_choice (k : nat) (seq : list string) : result string :=
  match seq with
  | [] => raise IndexError
  | _ :: _ =>
      match nth_error seq (randbelow k (List.length seq)) with
      | Some x => ret x
      | None => raise IndexError
      end
  end.

(** Line 23: [[random.choice(emotions) for _ in timestamps]], the first
    draw being the [k]-th. *)
Fixpoint choices (k : nat) (timestamps : list string)
  : result (list string) :=
  match timestamps with
  | [] => ret []
  | _ :: rest =>
      e <- random_choice k emotions ;;
      es <- choices (S k) rest ;;
      ret (e :: es)
  end.

(** [pd.DataFrame(data)] on a dict of three columns: one row per index,
    and an error when the columns differ in length. *)
Fixpoint zip_columns (ids : list Z) (times labels : list string)
  : result (list ExcelExport.row) :=
  match ids, times, labels with
  | [], [], [] => ret []
  | i :: ids', t :: times', l :: labels' =>
      rows <- zip_columns ids' times' labels' ;;
      ret (ExcelExport.mk_row i t l :: rows)
  | _, _, _ =>
      raise (LibraryError "All arrays must be of the same length")
  end.

(** Lines 13-26: the frame the script writes, when the loop ends within
    [fuel] tests. *)
Definition script (fuel : nat) : option (result (list ExcelExport.row)) :=
  match while_loop fuel start_time [] with
  | None => None
  | Some timestamps =>
      Some (let ids := range_from_1 (List.length timestamps + 1) in
            labels <- choices 0 timestamps ;;
            zip_columns ids timestamps labels)
  end.

End Random.

End SyntheticData.
(** * Vocabulary of the properties *)

Module Spec.

(** [q] is [c] without its fractional part: the integer next to [c] on the
    side of zero. *)
Definition drops_fraction (c : Q) (q : Z) : Prop :=
  (0 <= c -> inject_Z q <= c /\ c < inject_Z q + 1) /\
  (c <= 0 -> inject_Z q - 1 < c /\ c <= inject_Z q).

(** [q] is an integer nearest to [c]. *)
Definition nearest_integer (c : Q) (q : Z) : Prop :=
  forall k : Z, Qabs (c - inject_Z q) <= Qabs (c - inject_Z k).

(** [c] is [y] limited to [-128, 127]. *)
Definition clipped (y c : Q) : Prop :=
  (y <= -128 -> c == -128) /\
  (127 <= y -> c == 127) /\
  (-128 <= y <= 127 -> c == y).

(** A waveform without sound. *)
Definition silent (audio : list Q) : Prop := Forall (fun x => x == 0) audio.

(** [i] is the first index of a largest element of [xs]. *)
Definition first_largest (xs : list Q) (i : nat) : Prop :=
  exists v,
    nth_error xs i = Some v /\
    (forall j y, nth_error xs j = Some y -> y <= v) /\
    (forall j y, (j < i)%nat -> nth_error xs j = Some y -> y < v).

(** *** The batch export *)

(** The order [list.sort()] sorts by, on the keys of the elements. *)
Definition key_le {A : Type} (key : A -> string) (a b : A) : Prop :=
  String.leb (key a) (key b) = true.

Section ExportVocabulary.
Import ExcelExport.
Local Open Scope string_scope.

(** A file the script writes a row for. *)
Definition is_wav (file : string) : bool := endswith (lower file) ".wav".

Fixpoint contains (c : ascii) (s : string) : bool :=
  match s with
  | EmptyString => false
  | String a rest => (Ascii.eqb a c || contains c rest)%bool
  end.

(** [e] is what follows the last underscore of [name], or all of [name]
    when it has none. *)
Definition after_last_underscore (name e : string) : Prop :=
  contains "_"%char e = false /\
  (name = e \/ exists prefix, name = prefix ++ String "_"%char e).

(** The label the script gives to the files of a folder called [name]. *)
Definition emotion_label (name : string) : string :=
  List.last (split "_"%char name) EmptyString.

(** The files with a row, in the whole tree; no order is involved. *)
Fixpoint count_wav (d : dir) : nat :=
  match d with
  | Dir files subdirs =>
      (List.length (filter is_wav files) +
       list_sum (map (fun p : string * dir => let (_, sub) := p in
                                              count_wav sub) subdirs))%nat
  end.

(** One label per file with a row, folder by folder; [name] is the name
    of the folder [d]. *)
Fixpoint folder_labels (name : string) (d : dir) : list string :=
  match d with
  | Dir files subdirs =>
      (repeat (emotion_label name) (List.length (filter is_wav files)) ++
       flat_map (fun p : string * dir => let (n, sub) := p in
                                         folder_labels n sub) subdirs)%list
  end.

(** The same labels in the order of the walk: the files of a folder
    first, then its subfolders by ascending name. *)
Fixpoint walk_labels (name : string) (d : dir) : list string :=
  match d with
  | Dir files subdirs =>
      (repeat (emotion_label name) (List.length (filter is_wav files)) ++
       List.concat
         (map snd
            (sort_by fst
               (map (fun p : string * dir =>
                       let (n, sub) := p in (n, walk_labels n sub))
                    subdirs))))%list
  end.

(** No entry name contains the path separator. *)
Fixpoint names_ok (d : dir) : bool :=
  match d with
  | Dir files subdirs =>
      forallb (fun p : string * dir =>
                 let (n, sub) := p in
                 (negb (contains sep n) && names_ok sub)%bool) subdirs
  end.

(** The listing of a tree in sorted order, at every level. *)
Fixpoint sorted_listing (d : dir) : dir :=
  match d with
  | Dir files subdirs =>
      Dir (sort files)
          (sort_by fst
             (map (fun p : string * dir => let (n, sub) := p in
                                           (n, sorted_listing sub)) subdirs))
  end.

(** The rows a sequence of labels gives, the first at time [t] with
    identifier [i]. *)
Fixpoint rows_of (t : datetime) (i : Z) (labels : list string) : list row :=
  match labels with
  | [] => []
  | label :: rest =>
      mk_row i (strftime_HMS t) label
      :: rows_of (t + TIME_GAP)%Z (i + 1)%Z rest
  end.

(** The state after one row for each label. *)
Definition add_rows (st : state) (labels : list string) : state :=
  mk_state (rows st ++ rows_of (current_time st) (audio_id st) labels)%list
           (current_time st + TIME_GAP * Z.of_nat (List.length labels))%Z
           (audio_id st + Z.of_nat (List.length labels))%Z.

(** What a walk adds to the state: the labels it writes, as many as the
    tree has [.wav] files, each folder giving its own label once per
    file. *)
Definition walk_adds (d : dir) : Prop :=
  forall root,
    names_ok d = true ->
    exists labels,
      List.length labels = count_wav d /\
      Permutation labels (folder_labels (os_path_basename root) d) /\
      forall st, walk root d st = add_rows st labels.

(** A folder of [n] recordings, [clip00000.wav], [clip00001.wav], ... *)
Definition clip_name (k : nat) : string :=
  let z := Z.of_nat k in
  "clip" ++
  String (digit ((z / 10000) mod 10)) (String (digit ((z / 1000) mod 10))
    (String (digit ((z / 100) mod 10)) (String (digit ((z / 10) mod 10))
      (String (digit (z mod 10)) ".wav")))).

Definition folder_of_clips (n : nat) : dir := Dir (map clip_name (seq 0 n)) [].

Definition digit_value (c : ascii) : option Z :=
  let n := nat_of_ascii c in
  if ((48 <=? n) && (n <=? 57))%nat then Some (Z.of_nat (n - 48)) else None.

Definition two_digit_value (a b : ascii) : option Z :=
  match digit_value a, digit_value b with
  | Some x, Some y => Some (10 * x + y)%Z
  | _, _ => None
  end.

(** The time of day a cell ["HH:MM:SS"] shows, in seconds. *)
Definition seconds_of_day (cell : string) : option Z :=
  match cell with
  | String h1 (String h2 (String c1 (String m1 (String m2
      (String c2 (String s1 (String s2 EmptyString))))))) =>
      if (Ascii.eqb c1 ":" && Ascii.eqb c2 ":")%bool then
        match two_digit_value h1 h2, two_digit_value m1 m2,
              two_digit_value s1 s2 with
        | Some h, Some m, Some s => Some (3600 * h + 60 * m + s)%Z
        | _, _, _ => None
        end
      else None
  | _ => None
  end.

End ExportVocabulary.

(** *** The temporary file *)

(** The file system once the temporary file has come and gone: the files
    are the same, the counter of temporary names has moved. *)
Definition files_restored (fs : Os.filesystem) : Os.filesystem :=
  Os.mk_fs (Os.files fs) (Os.locked fs) (S (Os.tmp_next fs)).

(** *** The notifier *)

Section Notifier.
Import Py Week1App.
Local Open Scope string_scope.

(** The client calls of one notification, in order. *)
Definition protocol (BASE_DIR uuid command : string) : list mqtt_call :=
  [ Client ("streamlit_client_" ++ uuid);
    connect (mqtt_broker (CONFIG BASE_DIR)) 1883 60;
    loop_start;
    publish (mqtt_topic (CONFIG BASE_DIR)) command 1;
    wait_for_publish 2;
    loop_stop;
    disconnect ].

(** The calls that are made, up to and including the first that raises,
    and what it raises. *)
Fixpoint until_failure (mqtt_outcome : mqtt_call -> outcome)
    (calls : list mqtt_call) : list mqtt_call * option exception :=
  match calls with
  | [] => ([], None)
  | c :: rest =>
      match mqtt_outcome c with
      | raised e => ([c], Some e)
      | returned | timed_out =>
          let (made, failure) := until_failure mqtt_outcome rest in
          (c :: made, failure)
      end
  end.

(** The call does not raise. *)
Definition no_raise (mqtt_outcome : mqtt_call -> outcome) (c : mqtt_call)
  : Prop :=
  forall e, mqtt_outcome c <> raised e.

(** The label is made of ASCII characters only. *)
Definition ascii_only (s : string) : bool :=
  forallb (fun c => (nat_of_ascii c <? 128)%nat) (list_ascii_of_string s).

(** The badge code of an emotion. *)
Definition badge_code (emotion : string) : string :=
  if emotion =? "fear" then "D" else if emotion =? "angry" then "C" else "S".

End Notifier.

End Spec.

(** ** A small world to run the front ends in *)

Module Example.
Import Py Np.
Local Open Scope string_scope.

Definition BASE_DIR : string := "/app".
Definition uuid4 (n : nat) : string := "6f1c".
Definition tmp_name (n : nat) : string := "/tmp/tmp0.wav".

(** A broker that answers, and one that cannot be reached. *)
Definition broker_up (c : Week1App.mqtt_call) : Week1App.outcome :=
  Week1App.returned.
Definition broker_down (c : Week1App.mqtt_call) : Week1App.outcome :=
  match c with
  | Week1App.connect _ _ _ => Week1App.raised (OSError "timed out")
  | _ => Week1App.returned
  end.
(** A broker that takes the connection and never acknowledges. *)
Definition broker_silent (c : Week1App.mqtt_call) : Week1App.outcome :=
  match c with
  | Week1App.wait_for_publish _ => Week1App.timed_out
  | _ => Week1App.returned
  end.

(** Every upload decodes to the same short waveform. *)
Definition librosa_load (b : Os.bytes) : result (list Q) :=
  ret [1 # 2; - (1 # 4)].
Definition librosa_effects_trim (y : list Q) : list Q := y.
(** Forty coefficients for each of two frames. *)
Definition librosa_feature_mfcc (y : list Q) : Week1App.matrix :=
  Week1App.mk_matrix 2 (repeat [1; 2] 40).

Definition np_load (b : Os.bytes) : result (list string) :=
  ret Week1App.default_classes.

(** A model for the MFCC front end that hears fear. *)
Definition mfcc_model : Week1App.Interpreter :=
  Week1App.mk_interpreter [1; 40; 130; 1]%nat
    (fun _ => ret [1 # 10; 0; 7 # 10; 0; 1 # 10; 1 # 10; 0]).

(** The model of the mel front end, put in its place: it declares the
    input shape (1, 1, 64, 64), which no tensor of the MFCC front end
    has. *)
Definition mel_model : Week1App.Interpreter :=
  Week1App.mk_interpreter [1; 1; 64; 64]%nat
    (fun _ => ret [1 # 10; 2 # 10; 7 # 10]).

(** A model of the right input shape whose interpreter raises. *)
Definition rejecting_model : Week1App.Interpreter :=
  Week1App.mk_interpreter [1; 40; 130; 1]%nat
    (fun _ => raise (LibraryError "Cannot set tensor: Dimension mismatch")).

Definition tflite_Interpreter (b : Os.bytes)
  : result Week1App.Interpreter := ret mfcc_model.

Definition upload : Week1App.source :=
  Week1App.mk_source "clip.wav" "RIFF".

(** A session with the model file in place and no label file. *)
Definition model_only : Week1App.app_state :=
  Week1App.mk_state
    (Os.mk_fs [("/app/women_safety_dscnn_f16.tflite", "TFL3")] [] 0)
    [] [] [] 0.

(** A session with the label file in place and no model file. *)
Definition labels_only : Week1App.app_state :=
  Week1App.mk_state
    (Os.mk_fs [("/app/classes.npy", "NUMPY")] [] 0)
    [] [] [] 0.

(** A session with neither file. *)
Definition no_files : Week1App.app_state :=
  Week1App.mk_state (Os.mk_fs [] [] 0) [] [] [] 0.

(** A session in which the upload already sits in its temporary file. *)
Definition with_clip : Week1App.app_state :=
  Week1App.mk_state (Os.mk_fs [("/tmp/tmp0.wav", "RIFF")] [] 1) [] [] [] 0.

(** A session in which another process holds the temporary file. *)
Definition held : Os.filesystem := Os.mk_fs [] ["/tmp/tmp0.wav"] 0.

(** The mel front end in the same world: a model with two input cells,
    small stand-ins for the library calls, and an output that is already
    a distribution. *)
Definition input_details : Int8App.tensor_details :=
  Int8App.mk_details [1; 1; 1; 2]%nat int8 (1 # 256, (-128)%Z).
Definition output_details : Int8App.tensor_details :=
  Int8App.mk_details [1; 3]%nat float32 (0, 0%Z).
Definition melspectrogram (y : list Q) : array Q :=
  mk_array [1; 2]%nat (y ++ y).
Definition power_to_db (a : array Q) : array Q := a.
Definition image_resize (a : array Q) (size : nat * nat) : array Q :=
  mk_array [1; 2; 1]%nat [0; 305 # 1024].
Definition interpreter_run (x : ndarray) : result ndarray :=
  ret (nd_float32 (mk_array [3]%nat [1 # 10; 7 # 10; 2 # 10])).
Definition failing_interpreter_run (x : ndarray) : result ndarray :=
  raise (LibraryError "Cannot set tensor").
Definition softmax (xs : list Q) : list Q := xs.

(** A resize that returns an image of the size it is asked for, with one
    channel. *)
Definition image_resize_to_size (a : array Q) (size : nat * nat) : array Q :=
  mk_array [fst size; snd size; 1%nat]
           (repeat (1 # 2) (fst size * snd size)).

End Example.

(** *** Induction on directory trees *)

Section DirInduction.
Import ExcelExport.

Variable P : dir -> Prop.
Hypothesis step :
  forall files subdirs,
    Forall (fun p : string * dir => P (snd p)) subdirs ->
    P (Dir files subdirs).

Fixpoint dir_induction (d : dir) : P d :=
  match d with
  | Dir files subdirs =>
      step files subdirs
        ((fix all (l : list (string * dir))
            : Forall (fun p : string * dir => P (snd p)) l :=
            match l with
            | [] => Forall_nil _
            | p :: rest =>
                Forall_cons p
                  (match p return P (snd p) with
                   | (_, sub) => dir_induction sub
                   end)
                  (all rest)
            end) subdirs)
  end.

End DirInduction.
(** * Properties *)

(** Running the combinators of the monad [Py.M] on a state. *)
Ltac run_py :=
  unfold Py.try_except, Py.try_finally, Py.mbind, Py.lift, Py.modify,
    Py.mret, Py.ret, Py.raise, Py.bind.

(** ** NumPy reductions and conversions *)

Section NumPyFacts.
Import Py Np.

Lemma maximum_cases (x y : Q) :
  (x <= y /\ maximum x y = y) \/ (y < x /\ maximum x y = x).
Proof.
  unfold maximum. destruct (Qle_bool x y) eqn:E.
  - left. split; [now apply Qle_bool_iff | reflexivity].
  - right. split; [| reflexivity].
    apply Qnot_le_lt. intro H. apply Qle_bool_iff in H. congruence.
Qed.

Lemma minimum_cases (x y : Q) :
  (x <= y /\ minimum x y = x) \/ (y < x /\ minimum x y = y).
Proof.
  unfold minimum. destruct (Qle_bool x y) eqn:E.
  - left. split; [now apply Qle_bool_iff | reflexivity].
  - right. split; [| reflexivity].
    apply Qnot_le_lt. intro H. apply Qle_bool_iff in H. congruence.
Qed.

Lemma fold_maximum_ge (l : list Q) (x0 : Q) :
  x0 <= fold_left maximum l x0 /\
  Forall (fun x => x <= fold_left maximum l x0) l.
Proof.
  revert x0. induction l as [| a l IH]; intros x0; simpl.
  - split; [apply Qle_refl | constructor].
  - destruct (IH (maximum x0 a)) as [H1 H2].
    destruct (maximum_cases x0 a) as [[Hle E] | [Hlt E]]; rewrite E in *.
    + split; [eapply Qle_trans; eassumption |].
      constructor; assumption.
    + split; [assumption |].
      constructor; [| assumption].
      eapply Qle_trans; [apply Qlt_le_weak; eassumption | assumption].
Qed.

Lemma fold_maximum_in (l : list Q) (x0 : Q) :
  In (fold_left maximum l x0) (x0 :: l).
Proof.
  revert x0. induction l as [| a l IH]; intros x0; simpl.
  - now left.
  - specialize (IH (maximum x0 a)).
    destruct (maximum_cases x0 a) as [[_ E] | [_ E]]; rewrite E in *.
    + right. exact IH.
    + destruct IH as [H | H]; [left; exact H | right; right; exact H].
Qed.

(** [np.max] of a non-empty list: an upper bound that is attained. *)
Lemma max_spec (l : list Q) :
  l <> [] ->
  exists m, Np.max l = inr m /\ In m l /\ Forall (fun x => x <= m) l.
Proof.
  destruct l as [| a l]; [congruence | intros _].
  exists (fold_left maximum l a). split; [reflexivity |]. split.
  - apply fold_maximum_in.
  - destruct (fold_maximum_ge l a). constructor; assumption.
Qed.

(** The conversion to an integer drops the fractional part. *)
Lemma astype_int8_nonneg (x : Q) :
  0 <= x -> inject_Z (astype_int8 x) <= x /\ x < inject_Z (astype_int8 x) + 1.
Proof.
  destruct x as [n d]. unfold astype_int8, Qle, Qlt, inject_Z. simpl.
  intros H. rewrite Z.mul_1_r in H.
  rewrite Z.quot_div_nonneg by lia.
  pose proof (Z.div_mod n (Z.pos d)) as E.
  pose proof (Z.mod_pos_bound n (Z.pos d)) as B.
  nia.
Qed.

Lemma astype_int8_opp (x : Q) : astype_int8 (- x) = (- astype_int8 x)%Z.
Proof.
  destruct x as [n d]. unfold astype_int8. simpl.
  apply Z.quot_opp_l. lia.
Qed.

Lemma astype_int8_nonpos (x : Q) :
  x <= 0 -> inject_Z (astype_int8 x) - 1 < x /\ x <= inject_Z (astype_int8 x).
Proof.
  intros H.
  destruct (astype_int8_nonneg (- x)) as [H1 H2].
  { lra. }
  rewrite astype_int8_opp in H1, H2.
  rewrite inject_Z_opp in H1, H2. split; lra.
Qed.

Lemma astype_int8_inject (z : Z) : astype_int8 (inject_Z z) = z.
Proof. unfold astype_int8, inject_Z. simpl. apply Z.quot_1_r. Qed.


Lemma Forall2_map_r {A B} (P : A -> B -> Prop) (g : A -> B) (l : list A) :
  Forall (fun x => P x (g x)) l -> Forall2 P l (map g l).
Proof.
  induction 1; cbn [map]; constructor; assumption.
Qed.

End NumPyFacts.

(** ** The quantizer of the mel front end *)

Section Quantizer.
Import Py Np Int8App.

Lemma inject_Z_lt_inv (a b : Z) : inject_Z a < inject_Z b -> (a < b)%Z.
Proof. now rewrite <- Zlt_Qlt. Qed.






End Quantizer.

(** ** Peak normalization *)

Section PeakNormalization.
Import Py Np Int8App.

Lemma Qabs_div_pos (x m : Q) : 0 < m -> Qabs (x / m) == Qabs x / m.
Proof.
  intros Hm. unfold Qdiv.
  rewrite Qabs_Qmult, Qabs_Qinv, (Qabs_pos m) by lra. reflexivity.
Qed.

Lemma silent_iff_peak_zero (audio : list Q) (m : Q) :
  In m (map Qabs audio) -> Forall (fun x => x <= m) (map Qabs audio) ->
  (Spec.silent audio <-> m <= 0).
Proof.
  intros Hin Hall. split.
  - intros Hs. apply in_map_iff in Hin. destruct Hin as (x & <- & Hx).
    unfold Spec.silent in Hs. rewrite Forall_forall in Hs.
    rewrite (Hs x Hx). vm_compute. discriminate.
  - intros Hm. unfold Spec.silent. rewrite Forall_forall. intros x Hx.
    rewrite Forall_forall in Hall.
    assert (Qabs x <= m) by (apply Hall, in_map, Hx).
    assert (Hc : Qabs x <= 0) by lra.
    apply Qabs_Qle_condition in Hc. lra.
Qed.

(** C9 (as amended).  For every non-empty waveform the normalization
    returns, and the peak absolute value of what it returns is 1, or 0
    when the waveform was silent, in which case it is returned as it is.
    (On the empty waveform [np.max] raises.) *)
Theorem peak_after_normalization (audio_np : list Q) :
  audio_np <> [] ->
  exists (normalized : list Q) (peak : Q),
    normalize_waveform audio_np = inr normalized /\
    Np.max (map Qabs normalized) = inr peak /\
    (Spec.silent audio_np -> normalized = audio_np /\ peak == 0) /\
    (~ Spec.silent audio_np -> peak == 1).
Proof.
  intros Hne.
  assert (Hne' : map Qabs audio_np <> []).
  { destruct audio_np; [congruence | discriminate]. }
  destruct (max_spec _ Hne') as (m & Em & Hin & Hall).
  pose proof (silent_iff_peak_zero audio_np m Hin Hall) as Hsil.
  unfold normalize_waveform. rewrite Em. simpl.
  destruct (Qlt_le_dec 0 m) as [Hpos | Hzero].
  - (* the waveform is divided by its peak *)
    set (y := map (fun x => x / m) audio_np).
    assert (Hy : map Qabs y <> []).
    { subst y. destruct audio_np; [congruence | discriminate]. }
    destruct (max_spec _ Hy) as (p & Ep & Hpin & Hpall).
    exists y, p. split; [reflexivity |]. split; [exact Ep |]. split.
    + intros Hs. apply Hsil in Hs. lra.
    + intros _.
      (* every element is at most 1 *)
      assert (Hle : p <= 1).
      { subst y. rewrite map_map in Hpin. apply in_map_iff in Hpin.
        destruct Hpin as (x & <- & Hx).
        rewrite Qabs_div_pos by exact Hpos.
        rewrite Forall_forall in Hall.
        assert (Qabs x <= m) by (apply Hall, in_map, Hx).
        apply Qle_shift_div_r; [exact Hpos | lra]. }
      (* the element that carried the peak is now 1 *)
      assert (Hge : 1 <= p).
      { apply in_map_iff in Hin. destruct Hin as (x0 & E0 & Hx0).
        rewrite Forall_forall in Hpall.
        assert (H1 : Qabs (x0 / m) <= p).
        { apply Hpall. subst y. rewrite map_map.
          apply (in_map (fun x => Qabs (x / m))). exact Hx0. }
        rewrite Qabs_div_pos in H1 by exact Hpos. rewrite E0 in H1.
        assert (m / m == 1) by (field; lra). lra. }
      lra.
  - (* the peak is zero: nothing is done *)
    exists audio_np, m. split; [reflexivity |]. split; [exact Em |]. split.
    + intros _. split; [reflexivity |].
      rewrite Forall_forall in Hall.
      apply in_map_iff in Hin. destruct Hin as (x & <- & Hx).
      pose proof (Qabs_nonneg x). lra.
    + intros Hns. exfalso. apply Hns, Hsil, Hzero.
Qed.

Lemma peak_after_normalization_witness :
  exists (normalized : list Q) (peak : Q),
    normalize_waveform [1 # 2; - (3 # 4); 0] = inr normalized /\
    Np.max (map Qabs normalized) = inr peak /\
    (Spec.silent [1 # 2; - (3 # 4); 0] ->
       normalized = [1 # 2; - (3 # 4); 0] /\ peak == 0) /\
    (~ Spec.silent [1 # 2; - (3 # 4); 0] -> peak == 1).
Proof.
  apply (peak_after_normalization [1 # 2; - (3 # 4); 0]).
  discriminate.
Defined.

(** C9, as stated for every waveform, fails on the empty one: [np.max]
    has nothing to reduce and raises, so there is no peak to recompute. *)
Lemma peak_of_empty_waveform_raises :
  normalize_waveform [] = inl ValueError_zero_size /\
  ~ exists (normalized : list Q) (peak : Q),
      normalize_waveform [] = inr normalized /\
      Np.max (map Qabs normalized) = inr peak.
Proof.
  split; [reflexivity |].
  intros (y & p & H & _). discriminate H.
Qed.

End PeakNormalization.

(** ** Padding and truncation in the MFCC front end *)

Section PadTruncate.
Import Np Week1App.

Lemma pad_or_truncate_long (y : list Q) :
  (TARGET_LENGTH <= List.length y)%nat ->
  pad_or_truncate y = firstn TARGET_LENGTH y.
Proof.
  intros H. unfold pad_or_truncate.
  destruct (Nat.ltb_spec TARGET_LENGTH (List.length y)) as [Hlt | Hge].
  - reflexivity.
  - assert (E : List.length y = TARGET_LENGTH) by lia.
    rewrite <- E at 2. rewrite firstn_all.
    replace (TARGET_LENGTH - List.length y)%nat with 0%nat by lia.
    simpl. apply app_nil_r.
Qed.

Lemma pad_or_truncate_short (y : list Q) :
  (List.length y < TARGET_LENGTH)%nat ->
  pad_or_truncate y = (y ++ repeat 0 (TARGET_LENGTH - List.length y))%list.
Proof.
  intros H. unfold pad_or_truncate.
  destruct (Nat.ltb_spec TARGET_LENGTH (List.length y)) as [Hlt | Hge].
  - lia.
  - reflexivity.
Qed.

Lemma pad_or_truncate_length (y : list Q) :
  List.length (pad_or_truncate y) = TARGET_LENGTH.
Proof.
  destruct (Nat.le_gt_cases TARGET_LENGTH (List.length y)) as [H | H].
  - rewrite pad_or_truncate_long by exact H.
    apply firstn_length_le. exact H.
  - rewrite pad_or_truncate_short by exact H.
    rewrite length_app, repeat_length. lia.
Qed.

Lemma fix_time_steps_rows (mfcc : matrix) :
  Forall2 (fun r r' =>
             ((EXPECTED_FRAMES <= cols mfcc)%nat ->
                r' = firstn EXPECTED_FRAMES r) /\
             ((cols mfcc < EXPECTED_FRAMES)%nat ->
                r' = (r ++ repeat 0 (EXPECTED_FRAMES - cols mfcc))%list))
          (rows mfcc) (rows (fix_time_steps mfcc)).
Proof.
  unfold fix_time_steps.
  destruct (Nat.ltb_spec (cols mfcc) EXPECTED_FRAMES) as [Hlt | Hge];
    cbn [rows].
  - induction (rows mfcc) as [| r rs IH]; cbn [map]; constructor.
    + split; [lia | reflexivity].
    + exact IH.
  - induction (rows mfcc) as [| r rs IH]; cbn [map]; constructor.
    + split; [reflexivity | lia].
    + exact IH.
Qed.

Lemma fix_time_steps_cols (mfcc : matrix) :
  cols (fix_time_steps mfcc) = EXPECTED_FRAMES.
Proof.
  unfold fix_time_steps.
  destruct (Nat.ltb_spec (cols mfcc) EXPECTED_FRAMES) as [Hlt | Hge];
    cbn [cols]; lia.
Qed.

Lemma fix_time_steps_well_formed (mfcc : matrix) :
  well_formed mfcc -> well_formed (fix_time_steps mfcc).
Proof.
  unfold well_formed. intros Hwf.
  rewrite fix_time_steps_cols.
  pose proof (fix_time_steps_rows mfcc) as HF.
  induction HF as [| r r' rs rs' [Hlong Hshort] _ IH].
  - constructor.
  - inversion Hwf as [| ? ? Hr Hrs]; subst. constructor.
    + destruct (Nat.le_gt_cases EXPECTED_FRAMES (cols mfcc)) as [H | H].
      * rewrite (Hlong H). apply firstn_length_le. lia.
      * rewrite (Hshort H), length_app, repeat_length. lia.
    + apply IH. exact Hrs.
Qed.

(** C4.  The waveform leaves the pad-or-truncate step with exactly
    [TARGET_LENGTH] samples: its first [TARGET_LENGTH] samples when it had
    at least that many, otherwise all of its samples, in place, followed by
    zeros.  In the same way the MFCC matrix leaves with exactly 130 frames
    in every row: the first 130 of each row, or each row followed by
    zeros. *)
Theorem pad_or_truncate_exact (y : list Q) (mfcc : matrix) :
  List.length (pad_or_truncate y) = TARGET_LENGTH /\
  ((TARGET_LENGTH <= List.length y)%nat ->
     pad_or_truncate y = firstn TARGET_LENGTH y) /\
  ((List.length y < TARGET_LENGTH)%nat ->
     pad_or_truncate y
       = (y ++ repeat 0 (TARGET_LENGTH - List.length y))%list /\
     forall i, (i < List.length y)%nat ->
               nth_error (pad_or_truncate y) i = nth_error y i) /\
  cols (fix_time_steps mfcc) = 130%nat /\
  List.length (rows (fix_time_steps mfcc)) = List.length (rows mfcc) /\
  (well_formed mfcc ->
     Forall (fun r => List.length r = 130%nat) (rows (fix_time_steps mfcc)) /\
     Forall2 (fun r r' =>
                ((130 <= List.length r)%nat -> r' = firstn 130 r) /\
                ((List.length r < 130)%nat ->
                   r' = (r ++ repeat 0 (130 - List.length r))%list /\
                   forall j, (j < List.length r)%nat ->
                             nth_error r' j = nth_error r j))
             (rows mfcc) (rows (fix_time_steps mfcc))).
Proof.
  split; [apply pad_or_truncate_length |].
  split; [apply pad_or_truncate_long |].
  split.
  { intros H. split; [now apply pad_or_truncate_short |].
    intros i Hi. rewrite pad_or_truncate_short by exact H.
    apply nth_error_app1. exact Hi. }
  split; [apply fix_time_steps_cols |].
  split.
  { pose proof (fix_time_steps_rows mfcc) as HF.
    symmetry. eapply Forall2_length. exact HF. }
  intros Hwf. split.
  - pose proof (fix_time_steps_well_formed mfcc Hwf) as H.
    unfold well_formed in H. rewrite fix_time_steps_cols in H. exact H.
  - pose proof (fix_time_steps_rows mfcc) as HF.
    unfold well_formed in Hwf. change EXPECTED_FRAMES with 130%nat in HF.
    induction HF as [| r r' rs rs' [Hlong Hshort] _ IH]; constructor.
    + inversion Hwf as [| ? ? Hr _]; subst. rewrite Hr. split.
      * exact Hlong.
      * intros H. split; [exact (Hshort H) |].
        intros j Hj. rewrite (Hshort H). apply nth_error_app1. lia.
    + apply IH. inversion Hwf; assumption.
Qed.

End PadTruncate.

Lemma pad_or_truncate_exact_witness :
  List.length (Week1App.pad_or_truncate [1; 2; 3]) = Week1App.TARGET_LENGTH /\
  Week1App.pad_or_truncate [1; 2; 3]
  = ([1; 2; 3] ++ repeat 0 (Week1App.TARGET_LENGTH - 3))%list /\
  Forall (fun r => List.length r = 130%nat)
         (Week1App.rows
            (Week1App.fix_time_steps
               (Week1App.mk_matrix 2 [[1; 2]; [3; 4]]))).
Proof.
  destruct (pad_or_truncate_exact
              [1; 2; 3] (Week1App.mk_matrix 2 [[1; 2]; [3; 4]]))
    as (Hlen & _ & Hshort & _ & _ & Hrows).
  split; [exact Hlen |]. split.
  - apply Hshort. apply Nat.ltb_lt. vm_compute. reflexivity.
  - apply Hrows. repeat constructor.
Defined.

(** ** The batch export *)

(** *** Sorting by insertion *)

Section SortBy.
Import ExcelExport.

Context {A : Type} (key : A -> string).

Lemma insert_by_perm (x : A) (l : list A) :
  Permutation (insert_by key x l) (x :: l).
Proof.
  induction l as [| y l IH]; simpl.
  - apply Permutation_refl.
  - destruct (String.leb (key x) (key y)).
    + apply Permutation_refl.
    + eapply perm_trans; [apply perm_skip, IH | apply perm_swap].
Qed.

Lemma sort_by_perm (l : list A) : Permutation (sort_by key l) l.
Proof.
  induction l as [| x l IH]; simpl.
  - constructor.
  - eapply perm_trans; [apply insert_by_perm | apply perm_skip, IH].
Qed.

Lemma insert_by_sorted (x : A) (l : list A) :
  Sorted (Spec.key_le key) l -> Sorted (Spec.key_le key) (insert_by key x l).
Proof.
  induction 1 as [| y l Hs IH Hhd]; simpl.
  - repeat constructor.
  - destruct (String.leb (key x) (key y)) eqn:E.
    + constructor; [constructor; assumption | constructor; exact E].
    + constructor; [exact IH |].
      assert (Hyx : Spec.key_le key y x).
      { destruct (String.leb_total (key x) (key y)) as [H | H];
          [congruence | exact H]. }
      destruct Hhd as [| z l' Hyz]; simpl.
      * constructor. exact Hyx.
      * destruct (String.leb (key x) (key z)); constructor; assumption.
Qed.

Lemma sort_by_sorted (l : list A) : Sorted (Spec.key_le key) (sort_by key l).
Proof.
  induction l as [| x l IH]; simpl.
  - constructor.
  - apply insert_by_sorted, IH.
Qed.

(** Sorting leaves a sorted list as it is. *)
Lemma sort_by_of_sorted (l : list A) : Sorted (Spec.key_le key) l -> sort_by key l = l.
Proof.
  induction 1 as [| x l Hs IH Hhd]; simpl.
  - reflexivity.
  - rewrite IH. destruct Hhd as [| y l' Hxy]; simpl.
    + reflexivity.
    + unfold Spec.key_le in Hxy. rewrite Hxy. reflexivity.
Qed.

Lemma sort_by_idempotent (l : list A) :
  sort_by key (sort_by key l) = sort_by key l.
Proof. apply sort_by_of_sorted, sort_by_sorted. Qed.

End SortBy.

Lemma string_leb_trans (a b c : string) :
  String.leb a b = true -> String.leb b c = true -> String.leb a c = true.
Proof.
  unfold String.leb.
  destruct (String.compare a b) eqn:Eab; [| | discriminate];
    destruct (String.compare b c) eqn:Ebc; try discriminate; intros _ _.
  - apply String_as_OT.cmp_eq in Eab. subst b. rewrite Ebc. reflexivity.
  - apply String_as_OT.cmp_eq in Eab. subst b. rewrite Ebc. reflexivity.
  - apply String_as_OT.cmp_eq in Ebc. subst c. rewrite Eab. reflexivity.
  - apply String_as_OT.cmp_lt in Eab, Ebc.
    pose proof (String_as_OT.lt_trans _ _ _ Eab Ebc) as H.
    apply String_as_OT.cmp_lt in H. unfold String_as_OT.cmp in H.
    rewrite H. reflexivity.
Qed.

(** The sorted order of a list does not depend on the order it is given
    in, as long as elements with the same key are the same element. *)
Lemma sorted_perm_unique {A : Type} (key : A -> string) (l1 l2 : list A) :
  (forall a b, In a l1 -> In b l1 -> key a = key b -> a = b) ->
  Sorted (Spec.key_le key) l1 -> Sorted (Spec.key_le key) l2 ->
  Permutation l1 l2 -> l1 = l2.
Proof.
  intros Hinj H1 H2.
  assert (Htrans : Relations_1.Transitive (Spec.key_le key)).
  { intros a b c. unfold Spec.key_le. apply string_leb_trans. }
  apply (Sorted_StronglySorted Htrans) in H1.
  apply (Sorted_StronglySorted Htrans) in H2.
  revert l2 H2. induction H1 as [| x t1 Hs1 IH Hx]; intros l2 H2 Hp.
  - apply Permutation_nil in Hp. symmetry. exact Hp.
  - destruct H2 as [| y t2 Hs2 Hy].
    + apply Permutation_sym, Permutation_nil in Hp. discriminate Hp.
    + assert (Exy : x = y).
      { assert (Hxin : In x (y :: t2))
          by (eapply Permutation_in; [exact Hp | now left]).
        assert (Hyin : In y (x :: t1))
          by (eapply Permutation_in;
              [apply Permutation_sym; exact Hp | now left]).
        destruct Hxin as [E | Hxin]; [now symmetry |].
        destruct Hyin as [E | Hyin]; [exact E |].
        rewrite Forall_forall in Hx, Hy.
        apply Hinj; [now left | now right |].
        apply String.leb_antisym; [apply Hx, Hyin | apply Hy, Hxin]. }
      subst y. f_equal. apply IH.
      * intros a b Ha Hb. apply Hinj; now right.
      * exact Hs2.
      * eapply Permutation_cons_inv. exact Hp.
Qed.

Lemma sort_by_perm_eq {A : Type} (key : A -> string) (l1 l2 : list A) :
  (forall a b, In a l1 -> In b l1 -> key a = key b -> a = b) ->
  Permutation l1 l2 ->
  ExcelExport.sort_by key l1 = ExcelExport.sort_by key l2.
Proof.
  intros Hinj Hp. apply (sorted_perm_unique key).
  - intros a b Ha Hb. apply Hinj;
      (eapply Permutation_in; [apply sort_by_perm | eassumption]).
  - apply sort_by_sorted.
  - apply sort_by_sorted.
  - eapply perm_trans; [apply sort_by_perm |].
    eapply perm_trans; [exact Hp | apply Permutation_sym, sort_by_perm].
Qed.

(** Sorting commutes with a map that keeps the keys. *)
Lemma sort_by_map {A B : Type} (key : A -> string) (key' : B -> string)
    (g : A -> B) (l : list A) :
  (forall a, key' (g a) = key a) ->
  ExcelExport.sort_by key' (map g l) = map g (ExcelExport.sort_by key l).
Proof.
  intros Hk. induction l as [| x l IH]; simpl.
  - reflexivity.
  - rewrite IH. generalize (ExcelExport.sort_by key l). intros s.
    induction s as [| y s IHs]; simpl.
    + reflexivity.
    + rewrite !Hk. destruct (String.leb (key x) (key y)).
      * reflexivity.
      * simpl. rewrite IHs. reflexivity.
Qed.

(** *** Splitting names *)

Section Split.
Import ExcelExport.
Local Open Scope string_scope.

Lemma string_app_assoc (a b d : string) : (a ++ b) ++ d = a ++ (b ++ d).
Proof.
  induction a as [| x a IH]; simpl; [reflexivity | now rewrite IH].
Qed.

Lemma split_nonempty (c : ascii) (s : string) : split c s <> [].
Proof.
  destruct s as [| a rest]; simpl; [discriminate |].
  destruct (Ascii.eqb a c); [discriminate |].
  destruct (split c rest); discriminate.
Qed.

Lemma split_no_sep (c : ascii) (s : string) :
  Spec.contains c s = false -> split c s = [s].
Proof.
  induction s as [| a rest IH]; simpl; intros H.
  - reflexivity.
  - apply orb_false_iff in H. destruct H as [Ha Hrest].
    rewrite Ha, (IH Hrest). reflexivity.
Qed.

Lemma split_app (c : ascii) (a b : string) :
  split c (a ++ String c b) = (split c a ++ split c b)%list.
Proof.
  induction a as [| x a IH]; simpl.
  - rewrite Ascii.eqb_refl. reflexivity.
  - rewrite IH. destruct (Ascii.eqb x c); [reflexivity |].
    pose proof (split_nonempty c a) as Hne.
    destruct (split c a) as [| f fs]; [congruence | reflexivity].
Qed.

Lemma last_app_nonempty {A} (l1 l2 : list A) (d : A) :
  l2 <> [] -> List.last (l1 ++ l2) d = List.last l2 d.
Proof.
  intros Hne. induction l1 as [| x l1 IH]; simpl.
  - reflexivity.
  - rewrite <- IH. destruct (l1 ++ l2)%list eqn:E; [| reflexivity].
    apply app_eq_nil in E. destruct E. congruence.
Qed.

Lemma split_fields_no_sep (c : ascii) (s : string) :
  Forall (fun f => Spec.contains c f = false) (split c s).
Proof.
  induction s as [| a rest IH]; simpl.
  - repeat constructor.
  - destruct (Ascii.eqb a c) eqn:E.
    + constructor; [reflexivity | exact IH].
    + destruct (split c rest) as [| f fs].
      * repeat constructor. simpl. rewrite E. reflexivity.
      * inversion IH; subst. constructor; [| assumption].
        simpl. rewrite E. assumption.
Qed.

Lemma concat_split (c : ascii) (s : string) :
  String.concat (String c EmptyString) (split c s) = s.
Proof.
  induction s as [| a rest IH]; simpl.
  - reflexivity.
  - destruct (Ascii.eqb a c) eqn:E.
    + apply Ascii.eqb_eq in E. subst a.
      pose proof (split_nonempty c rest) as Hne.
      destruct (split c rest) as [| f fs]; [congruence |].
      simpl in *. rewrite IH. reflexivity.
    + pose proof (split_nonempty c rest) as Hne.
      destruct (split c rest) as [| f fs]; [congruence |].
      destruct fs as [| g gs]; simpl in *; rewrite <- IH; reflexivity.
Qed.

Lemma concat_last (c : ascii) (l : list string) :
  l <> [] ->
  String.concat (String c EmptyString) l = List.last l EmptyString \/
  exists prefix,
    String.concat (String c EmptyString) l
    = prefix ++ String c (List.last l EmptyString).
Proof.
  induction l as [| x l IH]; [congruence | intros _].
  destruct l as [| y l].
  - left. reflexivity.
  - right. destruct IH as [E | (p & E)]; [discriminate | |].
    + exists x. cbn [String.concat List.last] in *. rewrite E.
      reflexivity.
    + exists (x ++ String c p). cbn [String.concat List.last] in *.
      rewrite E. rewrite string_app_assoc. reflexivity.
Qed.

(** The label of a folder is the part of its name after the last
    underscore. *)
Lemma emotion_label_spec (name : string) :
  Spec.after_last_underscore name (Spec.emotion_label name).
Proof.
  unfold Spec.after_last_underscore, Spec.emotion_label. split.
  - pose proof (split_fields_no_sep "_"%char name) as HF.
    pose proof (split_nonempty "_"%char name) as Hne.
    induction HF as [| f fs Hf HF IH]; [congruence |].
    destruct fs as [| g gs]; [exact Hf |].
    apply IH. discriminate.
  - pose proof (concat_last "_"%char (split "_"%char name)
                  (split_nonempty _ _)) as H.
    rewrite concat_split in H. exact H.
Qed.

(** The joined path of an entry ends in the name of the entry. *)
Lemma basename_join (root name : string) :
  Spec.contains sep name = false ->
  os_path_basename (os_path_join root name) = name.
Proof.
  intros H. unfold os_path_basename, os_path_join.
  rewrite split_app, last_app_nonempty by apply split_nonempty.
  rewrite (split_no_sep _ _ H). reflexivity.
Qed.

End Split.

(** *** The walk *)

Section Walk.
Import ExcelExport.
Local Open Scope string_scope.

Lemma fold_left_map {A B C} (f : C -> B -> C) (g : A -> B) (l : list A)
    (c : C) :
  fold_left f (map g l) c = fold_left (fun c a => f c (g a)) l c.
Proof.
  revert c. induction l as [| a l IH]; intros c; simpl;
    [reflexivity | apply IH].
Qed.

Lemma fold_left_ext_Forall {A C} (f g : C -> A -> C) (l : list A) (c : C) :
  Forall (fun a => forall c, f c a = g c a) l ->
  fold_left f l c = fold_left g l c.
Proof.
  intros H. revert c. induction H as [| a l Ha _ IH]; intros c; simpl.
  - reflexivity.
  - rewrite Ha. apply IH.
Qed.

(** The walk as [os.walk] does it: the files of the directory in sorted
    order, then the subdirectories in sorted order, each to its end. *)
Lemma walk_unfold (root : string) (files : list string)
    (subdirs : list (string * dir)) (st : state) :
  walk root (Dir files subdirs) st
  = fold_left (fun st (p : string * dir) =>
                 walk (os_path_join root (fst p)) (snd p) st)
              (sort_by fst subdirs)
              (fold_left (on_file root) (sort files) st).
Proof.
  cbn [walk].
  rewrite (sort_by_map fst fst) by (intros [n sub]; reflexivity).
  rewrite fold_left_map.
  apply fold_left_ext_Forall.
  apply Forall_forall. intros [n sub] _ c. reflexivity.
Qed.

Lemma add_rows_nil (st : state) : Spec.add_rows st [] = st.
Proof.
  destruct st as [r t i]. unfold Spec.add_rows. simpl.
  rewrite app_nil_r. f_equal; unfold TIME_GAP; lia.
Qed.

Lemma rows_of_app (t : datetime) (i : Z) (l1 l2 : list string) :
  Spec.rows_of t i (l1 ++ l2)
  = (Spec.rows_of t i l1 ++
     Spec.rows_of (t + TIME_GAP * Z.of_nat (List.length l1))%Z
                  (i + Z.of_nat (List.length l1))%Z l2)%list.
Proof.
  revert t i. induction l1 as [| x l1 IH]; intros t i.
  - cbn [List.length app Spec.rows_of Z.of_nat].
    rewrite Z.mul_0_r, !Z.add_0_r. reflexivity.
  - cbn [List.length app Spec.rows_of]. rewrite IH.
    rewrite Nat2Z.inj_succ. do 3 f_equal; unfold TIME_GAP; lia.
Qed.

Lemma add_rows_app (st : state) (l1 l2 : list string) :
  Spec.add_rows (Spec.add_rows st l1) l2 = Spec.add_rows st (l1 ++ l2).
Proof.
  unfold Spec.add_rows. cbn [rows current_time audio_id].
  rewrite rows_of_app, <- app_assoc, length_app, Nat2Z.inj_add.
  f_equal; lia.
Qed.

Lemma on_file_add_rows (root : string) (st : state) (file : string) :
  on_file root st file
  = Spec.add_rows st
      (if Spec.is_wav file
       then [Spec.emotion_label (os_path_basename root)] else []).
Proof.
  unfold on_file. fold (Spec.is_wav file).
  destruct (Spec.is_wav file).
  - unfold Spec.add_rows, Spec.emotion_label.
    cbn [Spec.rows_of List.length Z.of_nat Pos.of_succ_nat].
    f_equal; unfold TIME_GAP; lia.
  - symmetry. apply add_rows_nil.
Qed.

(** The files of one directory: one row for each [.wav] file, all with
    the label of the directory. *)
Lemma files_add_rows (root : string) (files : list string) (st : state) :
  fold_left (on_file root) files st
  = Spec.add_rows st
      (repeat (Spec.emotion_label (os_path_basename root))
              (List.length (filter Spec.is_wav files))).
Proof.
  revert st. induction files as [| f files IH]; intros st.
  - cbn. symmetry. apply add_rows_nil.
  - cbn [fold_left filter]. rewrite IH, on_file_add_rows, add_rows_app.
    destruct (Spec.is_wav f); reflexivity.
Qed.

Lemma list_sum_perm (l l' : list nat) :
  Permutation l l' -> list_sum l = list_sum l'.
Proof.
  induction 1; simpl; lia.
Qed.

Lemma filter_length_perm {A} (f : A -> bool) (l l' : list A) :
  Permutation l l' ->
  List.length (filter f l) = List.length (filter f l').
Proof.
  induction 1 as [| x l l' _ IH | x y l | l l' l'' _ IH1 _ IH2]; simpl.
  - reflexivity.
  - destruct (f x); simpl; congruence.
  - destruct (f x), (f y); reflexivity.
  - congruence.
Qed.

Lemma walk_subdirs_add_rows (root : string) (l : list (string * dir)) :
  Forall (fun p : string * dir => Spec.walk_adds (snd p)) l ->
  forallb (fun p : string * dir =>
             let (n, sub) := p in
             (negb (Spec.contains sep n) && Spec.names_ok sub)%bool) l
    = true ->
  exists labels,
    List.length labels
      = list_sum (map (fun p : string * dir =>
                         let (_, sub) := p in Spec.count_wav sub) l) /\
    Permutation labels
      (flat_map (fun p : string * dir =>
                   let (n, sub) := p in Spec.folder_labels n sub) l) /\
    forall st,
      fold_left (fun st (p : string * dir) =>
                   walk (os_path_join root (fst p)) (snd p) st) l st
      = Spec.add_rows st labels.
Proof.
  induction 1 as [| [n sub] l Hp _ IH]; intros Hok.
  - exists []. split; [reflexivity |]. split; [constructor |].
    intros st. symmetry. apply add_rows_nil.
  - cbn [forallb] in Hok. apply andb_true_iff in Hok.
    destruct Hok as [Hhd Htl]. apply andb_true_iff in Hhd.
    destruct Hhd as [Hn Hsub]. apply negb_true_iff in Hn.
    destruct (IH Htl) as (L2 & Hlen2 & Hperm2 & Hwalk2).
    destruct (Hp (os_path_join root n) Hsub) as (L1 & Hlen1 & Hperm1 & Hwalk1).
    cbn [snd] in *.
    rewrite (basename_join root n Hn) in Hperm1.
    exists (L1 ++ L2)%list. split; [| split].
    + rewrite length_app. cbn [map list_sum fold_right].
      fold (list_sum (map (fun p : string * dir =>
                             let (_, sub0) := p in Spec.count_wav sub0) l)).
      lia.
    + cbn [flat_map]. apply Permutation_app; assumption.
    + intros st. cbn [fold_left fst snd].
      rewrite Hwalk1, Hwalk2. apply add_rows_app.
Qed.

Lemma walk_add_rows (d : dir) : Spec.walk_adds d.
Proof.
  induction d as [files subdirs IH] using dir_induction.
  intros root Hok. cbn [Spec.names_ok] in Hok.
  pose proof (sort_by_perm fst subdirs) as Hperm.
  assert (IH' : Forall (fun p : string * dir => Spec.walk_adds (snd p))
                       (sort_by fst subdirs)).
  { eapply Permutation_Forall; [apply Permutation_sym, Hperm | exact IH]. }
  assert (Hok' : forallb (fun p : string * dir =>
                            let (n, sub) := p in
                            (negb (Spec.contains sep n)
                             && Spec.names_ok sub)%bool)
                         (sort_by fst subdirs) = true).
  { apply forallb_forall. intros p Hp.
    rewrite forallb_forall in Hok. apply Hok.
    eapply Permutation_in; [exact Hperm | exact Hp]. }
  destruct (walk_subdirs_add_rows root _ IH' Hok')
    as (L2 & Hlen2 & Hperm2 & Hwalk2).
  exists (repeat (Spec.emotion_label (os_path_basename root))
                 (List.length (filter Spec.is_wav (sort files))) ++ L2)%list.
  split; [| split].
  - rewrite length_app, repeat_length, Hlen2. cbn [Spec.count_wav].
    f_equal.
    + apply filter_length_perm. apply (sort_by_perm (fun s => s)).
    + apply list_sum_perm, Permutation_map, Hperm.
  - cbn [Spec.folder_labels]. apply Permutation_app.
    + rewrite (filter_length_perm _ _ _ (sort_by_perm (fun s => s) files)).
      apply Permutation_refl.
    + eapply perm_trans; [exact Hperm2 |].
      apply Permutation_flat_map, Hperm.
  - intros st. rewrite walk_unfold, files_add_rows, Hwalk2.
    apply add_rows_app.
Qed.

End Walk.

(** *** Rows and timestamps *)

Section Rows.
Import ExcelExport.
Local Open Scope string_scope.

Lemma rows_of_length (t : datetime) (i : Z) (labels : list string) :
  List.length (Spec.rows_of t i labels) = List.length labels.
Proof.
  revert t i. induction labels as [| x l IH]; intros t i; simpl;
    [reflexivity | now rewrite IH].
Qed.

Lemma rows_of_labels (t : datetime) (i : Z) (labels : list string) :
  map inference_of_emotion (Spec.rows_of t i labels) = labels.
Proof.
  revert t i. induction labels as [| x l IH]; intros t i; simpl;
    [reflexivity | now rewrite IH].
Qed.

Lemma rows_of_nth (t : datetime) (i : Z) (labels : list string)
    (k : nat) (r : row) :
  nth_error (Spec.rows_of t i labels) k = Some r ->
  id r = (i + Z.of_nat k)%Z /\
  time r = strftime_HMS (t + TIME_GAP * Z.of_nat k)%Z.
Proof.
  revert t i k. induction labels as [| x l IH]; intros t i k H.
  - destruct k; discriminate H.
  - destruct k as [| k]; cbn [Spec.rows_of nth_error] in H.
    + injection H as <-. cbn [id time Z.of_nat].
      rewrite Z.mul_0_r, !Z.add_0_r. split; reflexivity.
    + destruct (IH _ _ _ H) as [H1 H2]. rewrite H1, H2.
      rewrite Nat2Z.inj_succ. split; [lia |].
      f_equal. unfold TIME_GAP. lia.
Qed.

Lemma digit_value_digit (d : Z) :
  (0 <= d < 10)%Z -> Spec.digit_value (digit d) = Some d.
Proof.
  intros H.
  assert (C : (d = 0 \/ d = 1 \/ d = 2 \/ d = 3 \/ d = 4 \/
               d = 5 \/ d = 6 \/ d = 7 \/ d = 8 \/ d = 9)%Z) by lia.
  repeat (destruct C as [-> | C]; [reflexivity |]).
  subst d. reflexivity.
Qed.

Lemma two_digit_value_two_digits (n : Z) :
  (0 <= n < 100)%Z ->
  exists a b, two_digits n = String a (String b EmptyString) /\
              Spec.two_digit_value a b = Some n.
Proof.
  intros H. exists (digit (n / 10)), (digit (n mod 10)).
  split; [reflexivity |].
  unfold Spec.two_digit_value.
  rewrite !digit_value_digit.
  - f_equal. pose proof (Z.div_mod n 10). lia.
  - apply Z.mod_pos_bound. lia.
  - split; [apply Z.div_pos; lia | apply Z.div_lt_upper_bound; lia].
Qed.

(** A cell shows the time of day of the clock: the date is not written. *)
Lemma seconds_of_day_strftime (t : datetime) :
  (0 <= t)%Z ->
  Spec.seconds_of_day (strftime_HMS t) = Some (t mod 86400)%Z.
Proof.
  intros Ht. unfold strftime_HMS.
  destruct (two_digit_value_two_digits ((t / 3600) mod 24))
    as (h1 & h2 & Eh & Vh); [pose proof (Z.mod_pos_bound (t / 3600) 24); lia |].
  destruct (two_digit_value_two_digits ((t / 60) mod 60))
    as (m1 & m2 & Em & Vm); [pose proof (Z.mod_pos_bound (t / 60) 60); lia |].
  destruct (two_digit_value_two_digits (t mod 60))
    as (s1 & s2 & Es & Vs); [pose proof (Z.mod_pos_bound t 60); lia |].
  rewrite Eh, Em, Es. cbn [append Spec.seconds_of_day].
  change (Ascii.eqb ":"%char ":"%char) with true. cbn [andb].
  rewrite Vh, Vm, Vs. f_equal.
  Z.div_mod_to_equations. lia.
Qed.

End Rows.

(** *** The export *)

Section ExportRows.
Import ExcelExport.
Local Open Scope string_scope.

(** The rows depend on the tree through its sorted listing only. *)
Lemma walk_sorted_listing (d : dir) :
  forall root st, walk root (Spec.sorted_listing d) st = walk root d st.
Proof.
  induction d as [files subdirs IH] using dir_induction.
  intros root st. cbn [Spec.sorted_listing].
  rewrite !walk_unfold.
  unfold sort. rewrite !sort_by_idempotent.
  rewrite (sort_by_map fst fst) by (intros [n sub]; reflexivity).
  rewrite fold_left_map.
  apply fold_left_ext_Forall.
  assert (IH' : Forall (fun p : string * dir =>
                          forall root st,
                            walk root (Spec.sorted_listing (snd p)) st
                            = walk root (snd p) st)
                       (sort_by fst subdirs)).
  { eapply Permutation_Forall;
      [apply Permutation_sym, sort_by_perm | exact IH]. }
  eapply Forall_impl; [| exact IH'].
  intros [n sub] H c. cbn [fst snd] in *. apply H.
Qed.

(** A directory whose entries are listed in another order has the same
    sorted listing. *)
Lemma sorted_listing_reordered (files files' : list string)
    (subdirs subdirs' : list (string * dir)) :
  Permutation files files' ->
  Permutation subdirs subdirs' ->
  NoDup (map fst subdirs) ->
  Spec.sorted_listing (Dir files' subdirs')
  = Spec.sorted_listing (Dir files subdirs).
Proof.
  intros Hf Hs Hnd. cbn [Spec.sorted_listing]. f_equal.
  - symmetry. apply (sort_by_perm_eq (fun s => s)); [| exact Hf].
    intros a b _ _ E. exact E.
  - symmetry. apply sort_by_perm_eq; [| apply Permutation_map, Hs].
    intros a b Ha Hb E.
    apply in_map_iff in Ha, Hb.
    destruct Ha as ([n1 d1] & <- & H1). destruct Hb as ([n2 d2] & <- & H2).
    cbn [fst] in E. subst n2.
    assert (Ed : d1 = d2).
    { clear - Hnd H1 H2. induction subdirs as [| [n d] l IH];
        [contradiction |].
      cbn [map fst] in Hnd. inversion Hnd as [| ? ? Hnotin Hnd']; subst.
      destruct H1 as [E1 | H1], H2 as [E2 | H2].
      - congruence.
      - injection E1 as -> ->. exfalso. apply Hnotin.
        apply (in_map fst) in H2. exact H2.
      - injection E2 as -> ->. exfalso. apply Hnotin.
        apply (in_map fst) in H1. exact H1.
      - apply IH; assumption. }
    subst d2. reflexivity.
Qed.

Lemma export_add_rows (DATASET_PATH : string) (tree : dir) :
  Spec.names_ok tree = true ->
  exists labels,
    List.length labels = Spec.count_wav tree /\
    Permutation labels
      (Spec.folder_labels (os_path_basename DATASET_PATH) tree) /\
    export DATASET_PATH tree = Spec.rows_of start_time 1 labels.
Proof.
  intros Hok.
  destruct (walk_add_rows tree DATASET_PATH Hok) as (L & Hlen & Hperm & Hw).
  exists L. split; [exact Hlen |]. split; [exact Hperm |].
  unfold export. rewrite Hw. reflexivity.
Qed.

(** C5 (as amended).  For a tree whose entry names contain no path
    separator, the export writes one row for each file whose lower-cased
    name ends in [.wav]; the labels are, folder by folder, the part of the
    folder's name after its last underscore, once per such file; row [k]
    (from 0) has identifier [k + 1] and shows the time of day of
    09:00:00 plus [3 k] seconds, so that among the first 18000 rows each
    cell is exactly 3 seconds after the one before (later cells start
    again from 00:00:00, the date not being written); and the rows depend
    on the tree through its sorted listing only: in particular they do not
    change when the entries of the directory are listed in another
    order. *)
Theorem export_one_row_per_wav (DATASET_PATH : string) (tree : dir) :
  Spec.names_ok tree = true ->
  List.length (export DATASET_PATH tree) = Spec.count_wav tree /\
  Permutation (map inference_of_emotion (export DATASET_PATH tree))
              (Spec.folder_labels (os_path_basename DATASET_PATH) tree) /\
  (forall name,
     Spec.after_last_underscore name (Spec.emotion_label name)) /\
  (forall k r,
     nth_error (export DATASET_PATH tree) k = Some r ->
     id r = (Z.of_nat k + 1)%Z /\
     time r = strftime_HMS (start_time + TIME_GAP * Z.of_nat k)%Z /\
     Spec.seconds_of_day (time r)
       = Some ((32400 + 3 * Z.of_nat k) mod 86400)%Z) /\
  (forall k r r',
     (Z.of_nat (S k) < 18000)%Z ->
     nth_error (export DATASET_PATH tree) k = Some r ->
     nth_error (export DATASET_PATH tree) (S k) = Some r' ->
     exists t,
       Spec.seconds_of_day (time r) = Some t /\
       Spec.seconds_of_day (time r') = Some (t + 3)%Z) /\
  (forall tree',
     Spec.sorted_listing tree' = Spec.sorted_listing tree ->
     export DATASET_PATH tree' = export DATASET_PATH tree) /\
  (forall files subdirs files' subdirs',
     tree = Dir files subdirs ->
     Permutation files files' ->
     Permutation subdirs subdirs' ->
     NoDup (map fst subdirs) ->
     export DATASET_PATH (Dir files' subdirs') = export DATASET_PATH tree).
Proof.
  intros Hok.
  destruct (export_add_rows DATASET_PATH tree Hok)
    as (L & Hlen & Hperm & Hrows).
  assert (Hcell : forall k r,
             nth_error (export DATASET_PATH tree) k = Some r ->
             id r = (Z.of_nat k + 1)%Z /\
             time r = strftime_HMS (start_time + TIME_GAP * Z.of_nat k)%Z /\
             Spec.seconds_of_day (time r)
               = Some ((32400 + 3 * Z.of_nat k) mod 86400)%Z).
  { intros k r Hk. rewrite Hrows in Hk.
    destruct (rows_of_nth _ _ _ _ _ Hk) as [Hid Htime].
    split; [lia |]. split; [exact Htime |].
    rewrite Htime, seconds_of_day_strftime.
    - reflexivity.
    - unfold start_time, TIME_GAP. lia. }
  split; [rewrite Hrows, rows_of_length; exact Hlen |].
  split; [rewrite Hrows, rows_of_labels; exact Hperm |].
  split; [exact emotion_label_spec |].
  split; [exact Hcell |].
  assert (Hsorted : forall tree',
             Spec.sorted_listing tree' = Spec.sorted_listing tree ->
             export DATASET_PATH tree' = export DATASET_PATH tree).
  { intros tree' Hsame. unfold export.
    rewrite <- (walk_sorted_listing tree'), <- (walk_sorted_listing tree).
    rewrite Hsame. reflexivity. }
  split; [| split; [exact Hsorted |]].
  - intros k r r' Hk Hr Hr'.
    destruct (Hcell _ _ Hr) as (_ & _ & E).
    destruct (Hcell _ _ Hr') as (_ & _ & E').
    exists (32400 + 3 * Z.of_nat k)%Z. split.
    + rewrite E. f_equal. apply Z.mod_small. lia.
    + rewrite E'. f_equal. rewrite Z.mod_small; lia.
  - intros files subdirs files' subdirs' -> Hf Hs Hnd.
    apply Hsorted. apply sorted_listing_reordered; assumption.
Qed.

Lemma export_one_row_per_wav_witness :
  List.length
    (export "archive"
       (Dir ["notes.txt"]
            [ ("YAF_sad", Dir ["b.wav"; "a.WAV"] []);
              ("OAF_happy", Dir ["c.wav"] []) ]))
  = Spec.count_wav
      (Dir ["notes.txt"]
           [ ("YAF_sad", Dir ["b.wav"; "a.WAV"] []);
             ("OAF_happy", Dir ["c.wav"] []) ]) /\
  export "archive"
    (Dir ["notes.txt"]
         [ ("YAF_sad", Dir ["b.wav"; "a.WAV"] []);
           ("OAF_happy", Dir ["c.wav"] []) ])
  = [ mk_row 1 "09:00:00" "happy";
      mk_row 2 "09:00:03" "sad";
      mk_row 3 "09:00:06" "sad" ].
Proof.
  split.
  - apply (export_one_row_per_wav "archive"
             (Dir ["notes.txt"]
                  [ ("YAF_sad", Dir ["b.wav"; "a.WAV"] []);
                    ("OAF_happy", Dir ["c.wav"] []) ])).
    reflexivity.
  - reflexivity.
Defined.

Lemma clip_name_is_wav (k : nat) : Spec.is_wav (Spec.clip_name k) = true.
Proof. reflexivity. Qed.

Lemma count_wav_folder_of_clips (n : nat) :
  Spec.count_wav (Spec.folder_of_clips n) = n.
Proof.
  unfold Spec.folder_of_clips. cbn [Spec.count_wav map list_sum fold_right].
  rewrite Nat.add_0_r. generalize 0%nat.
  induction n as [| n IH]; intros a; cbn [seq map filter].
  - reflexivity.
  - rewrite clip_name_is_wav. cbn [List.length]. rewrite IH. reflexivity.
Qed.

(** C5, as stated for every tree, fails on a folder of 18001 recordings:
    rows 18000 and 18001 show 23:59:57 and then 00:00:00, so the written
    timestamps do not keep increasing. *)
Lemma export_timestamps_wrap_at_midnight :
  exists r r',
    nth_error
      (export "archive"
         (Dir [] [("clips_happy", Spec.folder_of_clips (Z.to_nat 18001))]))
      (Z.to_nat 17999) = Some r /\
    nth_error
      (export "archive"
         (Dir [] [("clips_happy", Spec.folder_of_clips (Z.to_nat 18001))]))
      (Z.to_nat 18000) = Some r' /\
    time r = "23:59:57" /\
    time r' = "00:00:00" /\
    Spec.seconds_of_day (time r) = Some 86397%Z /\
    Spec.seconds_of_day (time r') = Some 0%Z.
Proof.
  destruct (export_add_rows "archive"
              (Dir [] [("clips_happy",
                        Spec.folder_of_clips (Z.to_nat 18001))]))
    as (L & Hlen & _ & Hrows); [reflexivity |].
  assert (Hcount : List.length (Spec.rows_of start_time 1 L)
                   = Z.to_nat 18001).
  { rewrite rows_of_length, Hlen.
    cbn [Spec.count_wav filter List.length map list_sum fold_right].
    rewrite count_wav_folder_of_clips. lia. }
  rewrite Hrows.
  destruct (nth_error (Spec.rows_of start_time 1 L) (Z.to_nat 17999))
    as [r |] eqn:Er;
    [| apply nth_error_None in Er; lia].
  destruct (nth_error (Spec.rows_of start_time 1 L) (Z.to_nat 18000))
    as [r' |] eqn:Er';
    [| apply nth_error_None in Er'; lia].
  destruct (rows_of_nth _ _ _ _ _ Er) as [_ Ht].
  destruct (rows_of_nth _ _ _ _ _ Er') as [_ Ht'].
  rewrite Z2Nat.id in Ht, Ht' by lia.
  exists r, r'. rewrite Ht, Ht'.
  repeat split; reflexivity.
Qed.

End ExportRows.

(** ** The notifier of the MFCC front end *)

Section Notifier.
Import Py Np Week1App.
Local Open Scope string_scope.

Variable BASE_DIR : string.
Variable uuid4 : nat -> string.
Variable mqtt_outcome : mqtt_call -> outcome.

(** One notification: the calls of the protocol are made in order until
    one raises; what is raised is shown and turned into [False]. *)
Lemma send_to_wokwi_spec (command : string) (st : app_state) :
  send_to_wokwi BASE_DIR uuid4 mqtt_outcome command st
  = let (made, failure) :=
      Spec.until_failure mqtt_outcome
        (Spec.protocol BASE_DIR (uuid4 (uuid_next st)) command) in
    match failure with
    | None =>
        (inr true,
         mk_state (fs st) (ui st) (mqtt_log st ++ made) (invoked st)
                  (S (uuid_next st)))
    | Some e =>
        (inr false,
         mk_state (fs st) (ui st ++ [st_error_mqtt e]) (mqtt_log st ++ made)
                  (invoked st) (S (uuid_next st)))
    end.
Proof.
  unfold send_to_wokwi, mqtt_do, fresh_uuid, show, Spec.protocol. run_py.
  cbn [Spec.until_failure fs ui mqtt_log invoked uuid_next].
  repeat match goal with
         | |- context [mqtt_outcome ?c] =>
             destruct (mqtt_outcome c) as [| | ?e];
             cbn [Spec.until_failure fs ui mqtt_log invoked uuid_next];
             rewrite <- ?app_assoc; cbn [app]; try reflexivity
         end.
Qed.

Lemma until_failure_spec (calls : list mqtt_call) :
  match Spec.until_failure mqtt_outcome calls with
  | (made, None) =>
      made = calls /\ Forall (Spec.no_raise mqtt_outcome) calls
  | (made, Some e) =>
      exists before c after,
        calls = (before ++ c :: after)%list /\
        made = (before ++ [c])%list /\
        Forall (Spec.no_raise mqtt_outcome) before /\
        mqtt_outcome c = raised e
  end.
Proof.
  induction calls as [| c calls IH]; cbn [Spec.until_failure].
  - split; [reflexivity | constructor].
  - destruct (mqtt_outcome c) as [| | e] eqn:Ec.
    + destruct (Spec.until_failure mqtt_outcome calls) as [made [e |]].
      * destruct IH as (before & c' & after & -> & -> & Hb & Hc).
        exists (c :: before), c', after.
        repeat split; [| exact Hc].
        constructor; [| assumption]. intros e'. congruence.
      * destruct IH as [-> Hall]. split; [reflexivity |].
        constructor; [| assumption]. intros e'. congruence.
    + destruct (Spec.until_failure mqtt_outcome calls) as [made [e |]].
      * destruct IH as (before & c' & after & -> & -> & Hb & Hc).
        exists (c :: before), c', after.
        repeat split; [| exact Hc].
        constructor; [| assumption]. intros e'. congruence.
      * destruct IH as [-> Hall]. split; [reflexivity |].
        constructor; [| assumption]. intros e'. congruence.
    + exists [], c, calls. repeat split; [constructor | exact Ec].
Qed.


End Notifier.

(** ** Classification and notification in the MFCC front end *)

Section Classification.
Import Py Np Week1App.
Local Open Scope string_scope.

Variable BASE_DIR : string.
Variable uuid4 : nat -> string.
Variable mqtt_outcome : mqtt_call -> outcome.
Variable librosa_load : Os.bytes -> result (list Q).
Variable librosa_effects_trim : list Q -> list Q.
Variable librosa_feature_mfcc : list Q -> matrix.

(** The tensor the front end builds from a loaded waveform. *)
Lemma preprocess_audio_loaded (audio_path : string) (st : app_state)
    (b : Os.bytes) (y : list Q) :
  Os.read (fs st) audio_path = Some b ->
  librosa_load b = inr y ->
  preprocess_audio librosa_load librosa_effects_trim librosa_feature_mfcc
                   audio_path st
  = (inr (Some (nd_float32
                  (expand_dims_batch_channel
                     (fix_time_steps
                        (librosa_feature_mfcc
                           (pad_or_truncate (librosa_effects_trim y))))))),
     st).
Proof.
  intros Hread Hload.
  unfold preprocess_audio, read_file. run_py.
  rewrite Hread, Hload. reflexivity.
Qed.

(** A waveform that cannot be loaded: the error is shown, [None] is
    returned. *)
Lemma preprocess_audio_not_loaded (audio_path : string) (st : app_state) :
  (Os.read (fs st) audio_path = None \/
   exists b e, Os.read (fs st) audio_path = Some b /\
               librosa_load b = inl e) ->
  exists e,
    preprocess_audio librosa_load librosa_effects_trim librosa_feature_mfcc
                     audio_path st
    = (inr None,
       mk_state (fs st) (ui st ++ [st_error_loading_audio e]) (mqtt_log st)
                (invoked st) (uuid_next st)).
Proof.
  unfold preprocess_audio, read_file, show. run_py.
  intros [Hnone | (b & e & Hread & Hload)].
  - rewrite Hnone. eexists. reflexivity.
  - rewrite Hread, Hload. eexists. reflexivity.
Qed.

(** The interpreter returns scores only for a tensor [set_tensor] has
    taken, and [invoke()] has then been reached. *)
Lemma run_returns (interpreter : Interpreter) (x : ndarray)
    (probs : list Q) :
  run interpreter x = inr probs ->
  set_tensor interpreter x = inr tt /\ invoke interpreter x = inr probs.
Proof.
  unfold run, set_tensor, bind, ret, raise.
  destruct (shape_eqb (nd_shape x) (input_shape interpreter));
    [intros H; split; [reflexivity | exact H] | discriminate].
Qed.

Lemma interpreter_run_returns (interpreter : Interpreter) (x : ndarray)
    (probs : list Q) (st : app_state) :
  run interpreter x = inr probs ->
  interpreter_run interpreter x st
  = (inr probs,
     mk_state (fs st) (ui st) (mqtt_log st) (invoked st ++ [x])
              (uuid_next st)).
Proof.
  intros H. apply run_returns in H. destruct H as [Hset Hinv].
  unfold interpreter_run, mbind, lift. rewrite Hset, Hinv. reflexivity.
Qed.

(** When the interpreter raises, the session has changed in [invoked] at
    most. *)
Lemma interpreter_run_raises (interpreter : Interpreter) (x : ndarray)
    (e : exception) (st : app_state) :
  run interpreter x = inl e ->
  exists inv,
    interpreter_run interpreter x st
    = (inl e, mk_state (fs st) (ui st) (mqtt_log st) inv (uuid_next st)).
Proof.
  unfold run, interpreter_run, mbind, lift, bind.
  destruct (set_tensor interpreter x) as [e' | []].
  - intros [= <-]. exists (invoked st). destruct st; reflexivity.
  - intros ->. eexists. reflexivity.
Qed.

(** A tensor of another shape than the declared one is refused by
    [set_tensor]: [invoke()] is not reached. *)
Lemma interpreter_run_mismatch (interpreter : Interpreter) (x : ndarray)
    (st : app_state) :
  nd_shape x <> input_shape interpreter ->
  interpreter_run interpreter x st
  = (inl (LibraryError "Cannot set tensor: Dimension mismatch"), st).
Proof.
  intros Hne. unfold interpreter_run, mbind, lift, set_tensor, shape_eqb.
  destruct (list_eq_dec Nat.eq_dec (nd_shape x) (input_shape interpreter));
    [contradiction | reflexivity].
Qed.

Lemma safety_logic_code (emotion : string) :
  exists status color,
    safety_logic emotion = (status, color, Spec.badge_code emotion).
Proof.
  unfold safety_logic, Spec.badge_code.
  destruct (emotion =? "fear"); [eexists _, _; reflexivity |].
  destruct (emotion =? "angry"); eexists _, _; reflexivity.
Qed.

(** The notifier, as far as failures are raised.  Once an emotion (an
    ASCII label) has been classified, the notifier is called with the code
    of the emotion,
    'D' for fear, 'C' for angry and 'S' otherwise; it publishes that code
    once, with QoS 1, and then waits with a timeout of 2 seconds (as far
    as the calls before do not raise); and when a call raises, the error
    is shown, the result, the emotion, the confidence and the bar chart
    are shown exactly as after a successful notification, and only the
    last message says that sending failed. *)
Theorem notifier_code_and_best_effort
    (interpreter : Interpreter) (classes : list string)
    (audio_path : string) (st : app_state)
    (b : Os.bytes) (y probs : list Q) (pred_idx : nat) (p : Q)
    (emotion : string) :
  Os.read (fs st) audio_path = Some b ->
  librosa_load b = inr y ->
  run interpreter
      (nd_float32
         (expand_dims_batch_channel
            (fix_time_steps
               (librosa_feature_mfcc
                  (pad_or_truncate (librosa_effects_trim y))))))
    = inr probs ->
  argmax probs = inr pred_idx ->
  item probs pred_idx = inr p ->
  item classes pred_idx = inr emotion ->
  Spec.ascii_only emotion = true ->
  exists status color made failure st',
    safety_logic emotion = (status, color, Spec.badge_code emotion) /\
    (emotion = "fear" -> Spec.badge_code emotion = "D") /\
    (emotion = "angry" -> Spec.badge_code emotion = "C") /\
    (emotion <> "fear" -> emotion <> "angry" ->
       Spec.badge_code emotion = "S") /\
    Spec.until_failure mqtt_outcome
      (Spec.protocol BASE_DIR (uuid4 (uuid_next st))
                     (Spec.badge_code emotion)) = (made, failure) /\
    (exists rest,
       Spec.protocol BASE_DIR (uuid4 (uuid_next st))
                     (Spec.badge_code emotion) = (made ++ rest)%list) /\
    (failure = None <->
     Forall (Spec.no_raise mqtt_outcome)
            (Spec.protocol BASE_DIR (uuid4 (uuid_next st))
                           (Spec.badge_code emotion))) /\
    classify_and_notify BASE_DIR uuid4 mqtt_outcome librosa_load
      librosa_effects_trim librosa_feature_mfcc interpreter (Some classes)
      audio_path st = (inr tt, st') /\
    mqtt_log st' = (mqtt_log st ++ made)%list /\
    ui st'
    = (ui st
       ++ match failure with
          | Some e => [st_error_mqtt e]
          | None => []
          end
       ++ [ st_markdown_result color status;
            st_markdown_emotion (upper emotion);
            st_markdown_confidence (p * 100)%Q;
            match failure with
            | Some _ => st_error_failed_to_send
            | None => st_success_sent (Spec.badge_code emotion)
            end;
            st_bar_chart probs ])%list.
Proof.
  intros Hread Hload Hrun Hmax Hp Hemotion _.
  destruct (safety_logic_code emotion) as (status & color & Hsafe).
  destruct (Spec.until_failure mqtt_outcome
              (Spec.protocol BASE_DIR (uuid4 (uuid_next st))
                             (Spec.badge_code emotion)))
    as [made failure] eqn:Hcalls.
  assert (Hcode : (emotion = "fear" -> Spec.badge_code emotion = "D") /\
                  (emotion = "angry" -> Spec.badge_code emotion = "C") /\
                  (emotion <> "fear" -> emotion <> "angry" ->
                     Spec.badge_code emotion = "S")).
  { split; [intros ->; reflexivity |]. split; [intros ->; reflexivity |].
    intros H1 H2. unfold Spec.badge_code.
    apply String.eqb_neq in H1, H2. rewrite H1, H2. reflexivity. }
  destruct Hcode as (Hfear & Hangry & Hsafe').
  assert (Hmade : (exists rest,
                     Spec.protocol BASE_DIR (uuid4 (uuid_next st))
                                   (Spec.badge_code emotion)
                     = (made ++ rest)%list) /\
                  (failure = None <->
                   Forall (Spec.no_raise mqtt_outcome)
                          (Spec.protocol BASE_DIR (uuid4 (uuid_next st))
                                         (Spec.badge_code emotion)))).
  { pose proof (until_failure_spec mqtt_outcome
                  (Spec.protocol BASE_DIR (uuid4 (uuid_next st))
                                 (Spec.badge_code emotion))) as H.
    rewrite Hcalls in H. destruct failure as [e |].
    - destruct H as (before & c & after & E & -> & Hb & Hc). split.
      + exists after. rewrite E, <- app_assoc. reflexivity.
      + split; [discriminate |]. intros Hall. exfalso.
        rewrite E in Hall. apply Forall_app in Hall.
        destruct Hall as [_ Hall].
        inversion Hall as [| ? ? Hc' _]; subst. exact (Hc' e Hc).
    - destruct H as [-> Hall]. split.
      + exists []. rewrite app_nil_r. reflexivity.
      + split; [intros _; exact Hall | reflexivity]. }
  destruct Hmade as [Hprefix Hnone].
  exists status, color, made, failure.
  unfold classify_and_notify, mbind.
  rewrite (preprocess_audio_loaded _ _ _ _ Hread Hload).
  rewrite (interpreter_run_returns _ _ _ _ Hrun).
  unfold lift. rewrite Hmax, Hp, Hemotion, Hsafe.
  rewrite send_to_wokwi_spec.
  cbn [uuid_next]. rewrite Hcalls.
  destruct failure as [e |]; unfold show, modify, mret;
    cbn [fs ui mqtt_log invoked uuid_next];
    eexists; (split; [reflexivity |]);
    (split; [exact Hfear |]); (split; [exact Hangry |]);
    (split; [exact Hsafe' |]); (split; [reflexivity |]);
    (split; [exact Hprefix |]); (split; [exact Hnone |]);
    (split; [reflexivity |]); cbn [mqtt_log ui];
    (split; [reflexivity |]);
    rewrite <- ?app_assoc; reflexivity.
Qed.

End Classification.

(** C8, evaluated where the notifier misses it.  The broker takes the
    connection and never acknowledges the publish: the wait comes back
    after its 2 seconds, [send_to_wokwi] returns [True], and the page says
    that the signal was sent, with no error shown. *)
Theorem unacknowledged_publish_is_shown_as_sent :
  Example.broker_silent (Week1App.wait_for_publish 2) = Week1App.timed_out /\
  fst (Week1App.send_to_wokwi Example.BASE_DIR Example.uuid4
         Example.broker_silent "D" Example.with_clip) = inr true /\
  exists st',
    Week1App.classify_and_notify Example.BASE_DIR Example.uuid4
      Example.broker_silent Example.librosa_load Example.librosa_effects_trim
      Example.librosa_feature_mfcc Example.mfcc_model
      (Some Week1App.default_classes) "/tmp/tmp0.wav" Example.with_clip
      = (inr tt, st') /\
    Week1App.mqtt_log st'
    = [ Week1App.Client "streamlit_client_6f1c";
        Week1App.connect "broker.hivemq.com" 1883 60;
        Week1App.loop_start;
        Week1App.publish "tinyml/anshika/badge" "D" 1;
        Week1App.wait_for_publish 2;
        Week1App.loop_stop;
        Week1App.disconnect ] /\
    Week1App.ui st'
    = [ Week1App.st_markdown_result "red" "🚨 DANGER";
        Week1App.st_markdown_emotion "FEAR";
        Week1App.st_markdown_confidence ((7 # 10) * 100);
        Week1App.st_success_sent "D";
        Week1App.st_bar_chart [1 # 10; 0; 7 # 10; 0; 1 # 10; 1 # 10; 0] ].
Proof.
  split; [reflexivity |]. split; [reflexivity |].
  eexists. split; [vm_compute; reflexivity |].
  split; reflexivity.
Qed.


Lemma notifier_code_and_best_effort_witness :
  exists status color made failure st',
    Week1App.safety_logic "fear"
      = (status, color, Spec.badge_code "fear") /\
    ("fear"%string = "fear"%string -> Spec.badge_code "fear" = "D"%string) /\
    ("fear"%string = "angry"%string -> Spec.badge_code "fear" = "C"%string) /\
    ("fear"%string <> "fear"%string -> "fear"%string <> "angry"%string ->
       Spec.badge_code "fear" = "S"%string) /\
    Spec.until_failure Example.broker_down
      (Spec.protocol Example.BASE_DIR
         (Example.uuid4 (Week1App.uuid_next Example.with_clip))
         (Spec.badge_code "fear")) = (made, failure) /\
    (exists rest,
       Spec.protocol Example.BASE_DIR
         (Example.uuid4 (Week1App.uuid_next Example.with_clip))
         (Spec.badge_code "fear") = (made ++ rest)%list) /\
    (failure = None <->
     Forall (Spec.no_raise Example.broker_down)
            (Spec.protocol Example.BASE_DIR
               (Example.uuid4 (Week1App.uuid_next Example.with_clip))
               (Spec.badge_code "fear"))) /\
    Week1App.classify_and_notify Example.BASE_DIR Example.uuid4
      Example.broker_down Example.librosa_load Example.librosa_effects_trim
      Example.librosa_feature_mfcc Example.mfcc_model
      (Some Week1App.default_classes) "/tmp/tmp0.wav" Example.with_clip
      = (inr tt, st') /\
    Week1App.mqtt_log st'
      = (Week1App.mqtt_log Example.with_clip ++ made)%list /\
    Week1App.ui st'
    = (Week1App.ui Example.with_clip
       ++ match failure with
          | Some e => [Week1App.st_error_mqtt e]
          | None => []
          end
       ++ [ Week1App.st_markdown_result color status;
            Week1App.st_markdown_emotion (Week1App.upper "fear");
            Week1App.st_markdown_confidence ((7 # 10) * 100)%Q;
            match failure with
            | Some _ => Week1App.st_error_failed_to_send
            | None => Week1App.st_success_sent (Spec.badge_code "fear")
            end;
            Week1App.st_bar_chart
              [1 # 10; 0; 7 # 10; 0; 1 # 10; 1 # 10; 0] ])%list.
Proof.
  apply (notifier_code_and_best_effort Example.BASE_DIR Example.uuid4
           Example.broker_down Example.librosa_load
           Example.librosa_effects_trim Example.librosa_feature_mfcc
           Example.mfcc_model Week1App.default_classes "/tmp/tmp0.wav"
           Example.with_clip "RIFF"%string [1 # 2; - (1 # 4)]
           [1 # 10; 0; 7 # 10; 0; 1 # 10; 1 # 10; 0] 2%nat (7 # 10)
           "fear"%string);
    reflexivity.
Defined.

(** ** The shape check *)

Section ShapeCheck.
Import Py Np.

Lemma shape_eqb_eq (s1 s2 : list nat) : shape_eqb s1 s2 = true <-> s1 = s2.
Proof.
  unfold shape_eqb. destruct (list_eq_dec Nat.eq_dec s1 s2); split;
    congruence.
Qed.

Lemma validate_and_quantize_cases (input_details : Int8App.tensor_details)
    (mel_db : array Q) :
  (shape mel_db <> Int8App.EXPECTED_SHAPE input_details ->
   Int8App.validate_and_quantize input_details mel_db
   = inl (ValueError_shape_mismatch (shape mel_db)
            (Int8App.EXPECTED_SHAPE input_details))) /\
  (shape mel_db = Int8App.EXPECTED_SHAPE input_details ->
   Int8App.validate_and_quantize input_details mel_db
   = inr (if dtype_eqb (Int8App.td_dtype input_details) int8
          then nd_int8 (map_array
                          (Int8App.quantize
                             (fst (Int8App.td_quantization input_details))
                             (snd (Int8App.td_quantization input_details)))
                          mel_db)
          else nd_float32 mel_db)).
Proof.
  unfold Int8App.validate_and_quantize.
  destruct (shape_eqb (shape mel_db) (Int8App.EXPECTED_SHAPE input_details))
    eqn:E.
  - apply shape_eqb_eq in E. split; [congruence | intros _].
    cbn [negb]. destruct (dtype_eqb (Int8App.td_dtype input_details) int8);
      [| reflexivity].
    destruct (Int8App.td_quantization input_details). reflexivity.
  - split; [intros _; reflexivity |].
    intros H. apply shape_eqb_eq in H. congruence.
Qed.

(** C3 (as amended).  The mel front end returns a tensor only when its
    shape equals the shape the model declares; when the feature tensor has
    another shape it raises the shape-mismatch error, whatever the input
    type and the quantization parameters are, so the check comes before
    the int8 quantization, which is applied to a validated tensor only;
    and when the features themselves cannot be computed, their error is
    the error of the pipeline, the shape not being looked at.
    The MFCC front end compares no shapes itself: whenever the audio
    loads it builds a float tensor of shape (1, rows, 130, 1) and leaves
    the session as it is.  It is [set_tensor] that takes the tensor when
    this is the shape the model declares, [invoke()] then being called on
    it, and that raises on every other shape, before [invoke()]: the
    analysis ends there, with no inference and nothing sent or shown. *)
Theorem shape_checked_before_quantization
    (input_details : Int8App.tensor_details)
    (melspectrogram : list Q -> array Q) (power_to_db : array Q -> array Q)
    (image_resize : array Q -> nat * nat -> array Q) (audio_np : list Q)
    (BASE_DIR : string) (uuid4 : nat -> string)
    (mqtt_outcome : Week1App.mqtt_call -> Week1App.outcome)
    (librosa_load : Os.bytes -> result (list Q))
    (librosa_effects_trim : list Q -> list Q)
    (librosa_feature_mfcc : list Q -> Week1App.matrix)
    (audio_path : string) (st : Week1App.app_state) :
  (forall t,
     Int8App.preprocess_audio input_details melspectrogram power_to_db
                              image_resize audio_np = inr t ->
     nd_shape t = Int8App.EXPECTED_SHAPE input_details) /\
  (forall mel_db,
     Int8App.mel_features melspectrogram power_to_db image_resize audio_np
       = inr mel_db ->
     shape mel_db <> Int8App.EXPECTED_SHAPE input_details ->
     Int8App.preprocess_audio input_details melspectrogram power_to_db
                              image_resize audio_np
     = inl (ValueError_shape_mismatch (shape mel_db)
              (Int8App.EXPECTED_SHAPE input_details))) /\
  (forall mel_db,
     Int8App.mel_features melspectrogram power_to_db image_resize audio_np
       = inr mel_db ->
     shape mel_db = Int8App.EXPECTED_SHAPE input_details ->
     Int8App.preprocess_audio input_details melspectrogram power_to_db
                              image_resize audio_np
     = inr (if dtype_eqb (Int8App.td_dtype input_details) int8
            then nd_int8 (map_array
                            (Int8App.quantize
                               (fst (Int8App.td_quantization input_details))
                               (snd (Int8App.td_quantization input_details)))
                            mel_db)
            else nd_float32 mel_db)) /\
  (forall e,
     Int8App.mel_features melspectrogram power_to_db image_resize audio_np
       = inl e ->
     Int8App.preprocess_audio input_details melspectrogram power_to_db
                              image_resize audio_np = inl e) /\
  (exists r st',
     Week1App.preprocess_audio librosa_load librosa_effects_trim
                               librosa_feature_mfcc audio_path st
       = (inr r, st') /\
     match r with
     | Some t =>
         st' = st /\
         (exists m,
            t = nd_float32 (Week1App.expand_dims_batch_channel
                              (Week1App.fix_time_steps m)) /\
            nd_shape t = [1; List.length (Week1App.rows m); 130; 1]%nat) /\
         forall (interpreter : Week1App.Interpreter)
                (classes : option (list string)),
           (nd_shape t = Week1App.input_shape interpreter ->
            Week1App.run interpreter t = Week1App.invoke interpreter t /\
            Week1App.interpreter_run interpreter t st
            = (Week1App.invoke interpreter t,
               Week1App.mk_state (Week1App.fs st) (Week1App.ui st)
                 (Week1App.mqtt_log st) (Week1App.invoked st ++ [t])
                 (Week1App.uuid_next st))) /\
           (nd_shape t <> Week1App.input_shape interpreter ->
            Week1App.run interpreter t
            = inl (LibraryError "Cannot set tensor: Dimension mismatch") /\
            Week1App.classify_and_notify BASE_DIR uuid4 mqtt_outcome
              librosa_load librosa_effects_trim librosa_feature_mfcc
              interpreter classes audio_path st
            = (inl (LibraryError "Cannot set tensor: Dimension mismatch"),
               st))
     | None =>
         exists e,
           Week1App.ui st'
           = (Week1App.ui st ++ [Week1App.st_error_loading_audio e])%list
     end).
Proof.
  split; [| split; [| split; [| split]]].
  - intros t H. unfold Int8App.preprocess_audio in H.
    destruct (Int8App.mel_features melspectrogram power_to_db image_resize
                                   audio_np) as [e | mel_db];
      [discriminate H |].
    cbn [bind] in H.
    destruct (list_eq_dec Nat.eq_dec (shape mel_db)
                (Int8App.EXPECTED_SHAPE input_details)) as [E | N].
    + rewrite (proj2 (validate_and_quantize_cases _ _) E) in H.
      injection H as <-.
      destruct (dtype_eqb (Int8App.td_dtype input_details) int8); exact E.
    + rewrite (proj1 (validate_and_quantize_cases _ _) N) in H.
      discriminate H.
  - intros mel_db Hf N. unfold Int8App.preprocess_audio. rewrite Hf.
    apply (proj1 (validate_and_quantize_cases _ _) N).
  - intros mel_db Hf E. unfold Int8App.preprocess_audio. rewrite Hf.
    apply (proj2 (validate_and_quantize_cases _ _) E).
  - intros e Hf. unfold Int8App.preprocess_audio. rewrite Hf. reflexivity.
  - destruct (Os.read (Week1App.fs st) audio_path) as [b |] eqn:Hread.
    + destruct (librosa_load b) as [e | y] eqn:Hload.
      * destruct (preprocess_audio_not_loaded librosa_load
                    librosa_effects_trim librosa_feature_mfcc audio_path st)
          as (e' & H).
        { right. exists b, e. split; assumption. }
        eexists None, _. split; [exact H |]. exists e'. reflexivity.
      * pose proof (preprocess_audio_loaded librosa_load
                      librosa_effects_trim librosa_feature_mfcc audio_path
                      st b y Hread Hload) as Hpre.
        eexists (Some _), st. split; [exact Hpre |].
        split; [reflexivity |]. split.
        { eexists. split; [reflexivity |].
          cbn [nd_shape Week1App.expand_dims_batch_channel shape].
          rewrite fix_time_steps_cols.
          pose proof (fix_time_steps_rows
                        (librosa_feature_mfcc
                           (Week1App.pad_or_truncate
                              (librosa_effects_trim y)))) as HF.
          apply Forall2_length in HF. rewrite <- HF. reflexivity. }
        intros interpreter classes. split.
        { intros E. apply shape_eqb_eq in E.
          unfold Week1App.interpreter_run, Week1App.run,
            Week1App.set_tensor, mbind, lift, bind.
          rewrite E. split; reflexivity. }
        { intros N. split.
          - unfold Week1App.run, Week1App.set_tensor, shape_eqb.
            destruct (list_eq_dec Nat.eq_dec _ _); [contradiction |].
            reflexivity.
          - unfold Week1App.classify_and_notify, mbind at 1.
            rewrite Hpre. unfold mbind at 1.
            rewrite (interpreter_run_mismatch _ _ _ N). reflexivity. }
    + destruct (preprocess_audio_not_loaded librosa_load
                  librosa_effects_trim librosa_feature_mfcc audio_path st)
        as (e' & H).
      { left. exact Hread. }
      eexists None, _. split; [exact H |]. exists e'. reflexivity.
Qed.

Lemma shape_checked_before_quantization_witness :
  Int8App.preprocess_audio
    (Int8App.mk_details [1; 1; 64; 64]%nat int8 (1 # 256, (-128)%Z))
    Example.melspectrogram Example.power_to_db Example.image_resize [1]
  = inl (ValueError_shape_mismatch [1; 1; 1; 2]%nat [1; 1; 64; 64]%nat).
Proof.
  apply (proj1 (proj2
           (shape_checked_before_quantization
              (Int8App.mk_details [1; 1; 64; 64]%nat int8
                                  (1 # 256, (-128)%Z))
              Example.melspectrogram Example.power_to_db
              Example.image_resize [1]
              Example.BASE_DIR Example.uuid4 Example.broker_up
              Example.librosa_load Example.librosa_effects_trim
              Example.librosa_feature_mfcc "/tmp/tmp0.wav"%string
              Example.with_clip))
           (mk_array [1; 1; 1; 2]%nat
              [0 # 305001024; 312320000000 # 312321048576])).
  - vm_compute. reflexivity.
  - discriminate.
Defined.

(** C3, as stated for every waveform, fails in the mel front end: the
    empty waveform gets no tensor and no shape-mismatch error either.  The
    peak of line 42 is a reduction without identity, its [ValueError] ends
    the pipeline before the features exist, whatever shape the model
    declares, and the page shows it as the error of the inference. *)
Lemma empty_waveform_fails_without_shape_error :
  Int8App.preprocess_audio Example.input_details Example.melspectrogram
    Example.power_to_db Example.image_resize []
  = inl ValueError_zero_size /\
  Int8App.preprocess_audio
    (Int8App.mk_details [1; 1; 64; 64]%nat int8 (1 # 256, (-128)%Z))
    Example.melspectrogram Example.power_to_db Example.image_resize_to_size
    []
  = inl ValueError_zero_size /\
  (forall got expected,
     ValueError_zero_size <> ValueError_shape_mismatch got expected) /\
  Int8App.on_upload Example.input_details Example.output_details
    Example.melspectrogram Example.power_to_db Example.image_resize
    Example.tmp_name (fun _ => ret []) Example.interpreter_run
    Example.softmax "RIFF"%string (Int8App.mk_state (Os.mk_fs [] [] 0) [])
  = (inr tt,
     Int8App.mk_state (Os.mk_fs [] [] 1)
       [Int8App.st_error_inference ValueError_zero_size]).
Proof.
  split; [reflexivity |]. split; [reflexivity |].
  split; [discriminate |]. vm_compute. reflexivity.
Qed.

(** The model of the mel front end beside the MFCC front end: the tensor
    of shape (1, 40, 130, 1) is refused by [set_tensor], [invoke()] is not
    reached and nothing is sent. *)
Lemma mfcc_tensor_refused_by_another_model :
  Week1App.classify_and_notify Example.BASE_DIR Example.uuid4
    Example.broker_up Example.librosa_load Example.librosa_effects_trim
    Example.librosa_feature_mfcc Example.mel_model
    (Some Week1App.default_classes) "/tmp/tmp0.wav" Example.with_clip
  = (inl (LibraryError "Cannot set tensor: Dimension mismatch"),
     Example.with_clip).
Proof.
  vm_compute. reflexivity.
Qed.

End ShapeCheck.

(** ** Missing model and label files *)

Section Resources.
Import Py Np Week1App.
Local Open Scope string_scope.

Variable BASE_DIR : string.
Variable uuid4 : nat -> string.
Variable mqtt_outcome : mqtt_call -> outcome.
Variable tmp_name : nat -> string.
Variable np_load : Os.bytes -> result (list string).
Variable tflite_Interpreter : Os.bytes -> result Interpreter.
Variable librosa_load : Os.bytes -> result (list Q).
Variable librosa_effects_trim : list Q -> list Q.
Variable librosa_feature_mfcc : list Q -> matrix.

Lemma read_of_path_exists (fs : Os.filesystem) (path : string) :
  Os.path_exists fs path = true -> exists b, Os.read fs path = Some b.
Proof.
  unfold Os.path_exists, Os.read. destruct fs as [files locked n].
  cbn [Os.files]. induction files as [| [p b] files IH]; cbn.
  - discriminate.
  - destruct (p =? path); [intros _; exists b; reflexivity | exact IH].
Qed.

(** What [load_resources] does when the model file is absent and the
    label file is absent too. *)
Lemma load_resources_no_files (st : app_state) :
  Os.path_exists (fs st) (model_path (CONFIG BASE_DIR)) = false ->
  Os.path_exists (fs st) (classes_path (CONFIG BASE_DIR)) = false ->
  load_resources BASE_DIR np_load tflite_Interpreter st
  = (inr (None, None),
     mk_state (fs st)
              (ui st ++ [st_error_model_not_found
                           (model_path (CONFIG BASE_DIR))])
              (mqtt_log st) (invoked st) (uuid_next st)).
Proof.
  intros Hm Hc. unfold load_resources. rewrite Hm, Hc. reflexivity.
Qed.

(** With the model file absent, [load_resources] never returns a model:
    it returns [(None, None)] after the report, unless loading an
    existing label file raised first. *)
Lemma load_resources_no_model (st : app_state) :
  Os.path_exists (fs st) (model_path (CONFIG BASE_DIR)) = false ->
  (exists e, load_resources BASE_DIR np_load tflite_Interpreter st
             = (inl e, st)) \/
  load_resources BASE_DIR np_load tflite_Interpreter st
  = (inr (None, None),
     mk_state (fs st)
              (ui st ++ [st_error_model_not_found
                           (model_path (CONFIG BASE_DIR))])
              (mqtt_log st) (invoked st) (uuid_next st)).
Proof.
  intros Hm. unfold load_resources. rewrite Hm.
  destruct (Os.path_exists (fs st) (classes_path (CONFIG BASE_DIR))) eqn:Hc.
  - destruct (read_of_path_exists _ _ Hc) as (b & Hb).
    unfold mbind, read_file, lift, ret. rewrite Hb.
    destruct (np_load b) as [e | cs]; cbn [negb].
    + left. exists e. reflexivity.
    + right. reflexivity.
  - right. reflexivity.
Qed.

(** Without a model, an upload is shown, answered with "Model not loaded."
    when the button is pressed, and cleaned up: no inference, no
    notification. *)
Lemma analyze_audio_without_model (classes : option (list string))
    (src : source) (pressed : bool) (st : app_state) :
  exists st' shown,
    analyze_audio BASE_DIR uuid4 mqtt_outcome tmp_name librosa_load
      librosa_effects_trim librosa_feature_mfcc None classes src pressed st
    = (inr tt, st') /\
    invoked st' = invoked st /\
    mqtt_log st' = mqtt_log st /\
    ui st' = (ui st ++ shown)%list /\
    (pressed = true -> In st_error_model_not_loaded shown).
Proof.
  unfold analyze_audio, write_temp, show, os_remove. run_py.
  destruct (Os.write_temp tmp_name (fs st) (content src)) as [path fs1].
  destruct pressed; cbn [fs ui mqtt_log invoked uuid_next];
    destruct (Os.remove fs1 path) as [[e | []] fs2];
    eexists _, _; (split; [reflexivity |]);
    cbn [fs ui mqtt_log invoked uuid_next];
    (split; [reflexivity |]); (split; [reflexivity |]);
    rewrite <- ?app_assoc;
    (split; [reflexivity |]); intros H; try discriminate H;
    cbn; auto.
Qed.

Lemma path_exists_of_read (fs : Os.filesystem) (path : string)
    (b : Os.bytes) :
  Os.read fs path = Some b -> Os.path_exists fs path = true.
Proof.
  unfold Os.path_exists, Os.read. destruct fs as [files locked n].
  cbn [Os.files]. induction files as [| [p c] files IH]; cbn.
  - discriminate.
  - destruct (p =? path); [reflexivity | exact IH].
Qed.

(** The part of the script after [load_resources], when no model was
    loaded. *)
Lemma uploads_without_model (classes : option (list string))
    (uploaded_file recorded_audio : option (source * bool))
    (st : app_state) :
  exists st' shown,
    ((match uploaded_file with
      | Some (src, pressed) =>
          analyze_audio BASE_DIR uuid4 mqtt_outcome tmp_name librosa_load
            librosa_effects_trim librosa_feature_mfcc None classes src
            pressed
      | None => mret tt
      end) ;;;
     match recorded_audio with
     | Some (src, pressed) =>
         analyze_audio BASE_DIR uuid4 mqtt_outcome tmp_name librosa_load
           librosa_effects_trim librosa_feature_mfcc None classes src pressed
     | None => mret tt
     end) st = (inr tt, st') /\
    invoked st' = invoked st /\
    mqtt_log st' = mqtt_log st /\
    ui st' = (ui st ++ shown)%list /\
    (forall src,
       uploaded_file = Some (src, true) \/ recorded_audio = Some (src, true) ->
       In st_error_model_not_loaded shown).
Proof.
  unfold mbind.
  assert (H1 : exists st1 shown1,
             (match uploaded_file with
              | Some (src, pressed) =>
                  analyze_audio BASE_DIR uuid4 mqtt_outcome tmp_name
                    librosa_load librosa_effects_trim librosa_feature_mfcc
                    None classes src pressed
              | None => mret tt
              end) st = (inr tt, st1) /\
             invoked st1 = invoked st /\ mqtt_log st1 = mqtt_log st /\
             ui st1 = (ui st ++ shown1)%list /\
             (forall src, uploaded_file = Some (src, true) ->
                          In st_error_model_not_loaded shown1)).
  { destruct uploaded_file as [[src pressed] |].
    - destruct (analyze_audio_without_model classes src pressed st)
        as (st1 & sh & E & Hi & Hm & Hu & Hp).
      exists st1, sh. repeat split; try assumption.
      intros src' H. injection H as _ ->. apply Hp. reflexivity.
    - exists st, []. unfold mret. rewrite app_nil_r.
      repeat split. intros src H. discriminate H. }
  destruct H1 as (st1 & sh1 & E1 & Hi1 & Hm1 & Hu1 & Hp1). rewrite E1.
  assert (H2 : exists st2 shown2,
             (match recorded_audio with
              | Some (src, pressed) =>
                  analyze_audio BASE_DIR uuid4 mqtt_outcome tmp_name
                    librosa_load librosa_effects_trim librosa_feature_mfcc
                    None classes src pressed
              | None => mret tt
              end) st1 = (inr tt, st2) /\
             invoked st2 = invoked st1 /\ mqtt_log st2 = mqtt_log st1 /\
             ui st2 = (ui st1 ++ shown2)%list /\
             (forall src, recorded_audio = Some (src, true) ->
                          In st_error_model_not_loaded shown2)).
  { destruct recorded_audio as [[src pressed] |].
    - destruct (analyze_audio_without_model classes src pressed st1)
        as (st2 & sh & E & Hi & Hm & Hu & Hp).
      exists st2, sh. repeat split; try assumption.
      intros src' H. injection H as _ ->. apply Hp. reflexivity.
    - exists st1, []. unfold mret. rewrite app_nil_r.
      repeat split. intros src H. discriminate H. }
  destruct H2 as (st2 & sh2 & E2 & Hi2 & Hm2 & Hu2 & Hp2).
  exists st2, (sh1 ++ sh2)%list. split; [exact E2 |].
  split; [congruence |]. split; [congruence |].
  split; [rewrite Hu2, Hu1, app_assoc; reflexivity |].
  intros src [H | H]; apply in_or_app;
    [left; eapply Hp1 | right; eapply Hp2]; exact H.
Qed.

(** With the model file absent and a label file that decodes, the
    missing model is reported as it is without a label file. *)
Lemma load_resources_no_model_labels (st : app_state) (b : Os.bytes)
    (cs : list string) :
  Os.path_exists (fs st) (model_path (CONFIG BASE_DIR)) = false ->
  Os.read (fs st) (classes_path (CONFIG BASE_DIR)) = Some b ->
  np_load b = inr cs ->
  load_resources BASE_DIR np_load tflite_Interpreter st
  = (inr (None, None),
     mk_state (fs st)
              (ui st ++ [st_error_model_not_found
                           (model_path (CONFIG BASE_DIR))])
              (mqtt_log st) (invoked st) (uuid_next st)).
Proof.
  intros Hm Hb Hcs. unfold load_resources.
  rewrite Hm, (path_exists_of_read _ _ _ Hb).
  unfold mbind, read_file, lift, ret. rewrite Hb, Hcs. reflexivity.
Qed.

(** A label file that does not decode ends [load_resources] before the
    model file is looked for. *)
Lemma load_resources_bad_labels (st : app_state) (b : Os.bytes)
    (e : exception) :
  Os.read (fs st) (classes_path (CONFIG BASE_DIR)) = Some b ->
  np_load b = inl e ->
  load_resources BASE_DIR np_load tflite_Interpreter st = (inl e, st).
Proof.
  intros Hb He. unfold load_resources.
  rewrite (path_exists_of_read _ _ _ Hb).
  unfold mbind, read_file, lift, ret. rewrite Hb, He. reflexivity.
Qed.

(** C6 (as amended).  When the model file is absent, a run of the script
    attempts no inference and sends no notification.  Whether the label
    file is absent or is there and decodes, the run reports the missing
    model file and then answers every pressed button with
    "Model not loaded."; a label file that is there and does not decode
    ends the run with the error of [np.load], before the model file is
    looked for, and nothing is shown.  When only the label file is absent,
    nothing is reported: the built-in table of seven emotions is used and
    the model is loaded as usual. *)
Theorem missing_model_halts_missing_labels_default (st : app_state)
    (uploaded_file recorded_audio : option (source * bool)) :
  (Os.path_exists (fs st) (model_path (CONFIG BASE_DIR)) = false ->
   exists r st',
     script BASE_DIR uuid4 mqtt_outcome tmp_name np_load tflite_Interpreter
       librosa_load librosa_effects_trim librosa_feature_mfcc
       uploaded_file recorded_audio st = (r, st') /\
     invoked st' = invoked st /\
     mqtt_log st' = mqtt_log st /\
     (Os.path_exists (fs st) (classes_path (CONFIG BASE_DIR)) = false \/
      (exists b cs,
         Os.read (fs st) (classes_path (CONFIG BASE_DIR)) = Some b /\
         np_load b = inr cs) ->
      r = inr tt /\
      exists shown,
        ui st'
        = (ui st ++ st_error_model_not_found (model_path (CONFIG BASE_DIR))
                    :: shown)%list /\
        forall src,
          uploaded_file = Some (src, true) \/
          recorded_audio = Some (src, true) ->
          In st_error_model_not_loaded shown) /\
     (forall b e,
        Os.read (fs st) (classes_path (CONFIG BASE_DIR)) = Some b ->
        np_load b = inl e ->
        r = inl e /\ st' = st)) /\
  (Os.path_exists (fs st) (classes_path (CONFIG BASE_DIR)) = false ->
   forall b interpreter,
     Os.read (fs st) (model_path (CONFIG BASE_DIR)) = Some b ->
     tflite_Interpreter b = inr interpreter ->
     load_resources BASE_DIR np_load tflite_Interpreter st
     = (inr (Some interpreter, Some default_classes), st)).
Proof.
  split.
  - intros Hm. unfold script. unfold mbind at 1.
    assert (Hcases :
              (exists b e,
                 Os.read (fs st) (classes_path (CONFIG BASE_DIR)) = Some b /\
                 np_load b = inl e) \/
              load_resources BASE_DIR np_load tflite_Interpreter st
              = (inr (None, None),
                 mk_state (fs st)
                   (ui st ++ [st_error_model_not_found
                                (model_path (CONFIG BASE_DIR))])
                   (mqtt_log st) (invoked st) (uuid_next st))).
    { destruct (Os.path_exists (fs st) (classes_path (CONFIG BASE_DIR)))
        eqn:Hc.
      - destruct (read_of_path_exists _ _ Hc) as (b & Hb).
        destruct (np_load b) as [e | cs] eqn:Hl.
        + left. exists b, e. split; assumption.
        + right. exact (load_resources_no_model_labels st b cs Hm Hb Hl).
      - right. exact (load_resources_no_files st Hm Hc). }
    destruct Hcases as [(b & e & Hb & He) | E].
    + rewrite (load_resources_bad_labels st b e Hb He).
      exists (inl e), st.
      split; [reflexivity |]. split; [reflexivity |].
      split; [reflexivity |]. split.
      * intros [Hc | (b' & cs & Hb' & Hcs)]; exfalso.
        -- rewrite (path_exists_of_read _ _ _ Hb) in Hc. discriminate Hc.
        -- congruence.
      * intros b' e' Hb' He'. split; [congruence | reflexivity].
    + rewrite E.
      destruct (uploads_without_model None uploaded_file recorded_audio
                  (mk_state (fs st)
                     (ui st ++ [st_error_model_not_found
                                  (model_path (CONFIG BASE_DIR))])
                     (mqtt_log st) (invoked st) (uuid_next st)))
        as (st' & shown & E' & Hi & Hq & Hu & Hp).
      cbn [fs ui mqtt_log invoked uuid_next] in *.
      exists (inr tt), st'. split; [exact E' |].
      split; [exact Hi |]. split; [exact Hq |]. split.
      * intros _. split; [reflexivity |].
        exists shown. split; [| exact Hp].
        rewrite Hu, <- app_assoc. reflexivity.
      * intros b e Hb He. exfalso.
        rewrite (load_resources_bad_labels st b e Hb He) in E.
        discriminate E.
  - intros Hc b interpreter Hb Ht.
    unfold load_resources. rewrite Hc, (path_exists_of_read _ _ _ Hb).
    unfold mbind, mret, read_file, lift, ret. cbn [negb].
    rewrite Hb, Ht. reflexivity.
Qed.

End Resources.

Lemma missing_model_halts_missing_labels_default_witness :
  (exists r st',
     Week1App.script Example.BASE_DIR Example.uuid4 Example.broker_up
       Example.tmp_name Example.np_load Example.tflite_Interpreter
       Example.librosa_load Example.librosa_effects_trim
       Example.librosa_feature_mfcc (Some (Example.upload, true)) None
       Example.labels_only = (r, st') /\
     Week1App.invoked st' = Week1App.invoked Example.labels_only /\
     Week1App.mqtt_log st' = Week1App.mqtt_log Example.labels_only /\
     (Os.path_exists (Week1App.fs Example.labels_only)
        (Week1App.classes_path (Week1App.CONFIG Example.BASE_DIR)) = false \/
      (exists b cs,
         Os.read (Week1App.fs Example.labels_only)
           (Week1App.classes_path (Week1App.CONFIG Example.BASE_DIR))
         = Some b /\
         Example.np_load b = inr cs) ->
      r = inr tt /\
      exists shown,
        Week1App.ui st'
        = (Week1App.ui Example.labels_only
           ++ Week1App.st_error_model_not_found
                (Week1App.model_path (Week1App.CONFIG Example.BASE_DIR))
              :: shown)%list /\
        forall src,
          Some (Example.upload, true) = Some (src, true) \/
          @None (Week1App.source * bool) = Some (src, true) ->
          In Week1App.st_error_model_not_loaded shown) /\
     (forall b e,
        Os.read (Week1App.fs Example.labels_only)
          (Week1App.classes_path (Week1App.CONFIG Example.BASE_DIR))
        = Some b ->
        Example.np_load b = inl e ->
        r = inl e /\ st' = Example.labels_only)) /\
  Week1App.load_resources Example.BASE_DIR Example.np_load
    Example.tflite_Interpreter Example.model_only
  = (inr (Some Example.mfcc_model, Some Week1App.default_classes),
     Example.model_only).
Proof.
  split.
  - apply (proj1 (missing_model_halts_missing_labels_default
                    Example.BASE_DIR Example.uuid4 Example.broker_up
                    Example.tmp_name Example.np_load
                    Example.tflite_Interpreter Example.librosa_load
                    Example.librosa_effects_trim Example.librosa_feature_mfcc
                    Example.labels_only (Some (Example.upload, true)) None)
                 eq_refl).
  - apply (proj2 (missing_model_halts_missing_labels_default
                    Example.BASE_DIR Example.uuid4 Example.broker_up
                    Example.tmp_name Example.np_load
                    Example.tflite_Interpreter Example.librosa_load
                    Example.librosa_effects_trim Example.librosa_feature_mfcc
                    Example.model_only None None)
                 eq_refl "TFL3"%string Example.mfcc_model eq_refl eq_refl).
Defined.

(** C6, as stated for the label file, fails: with the model file in place
    and no label file, nothing is reported, the built-in labels are used
    and an upload is classified and notified as usual. *)
Lemma missing_label_file_is_not_reported :
  Os.path_exists (Week1App.fs Example.model_only)
    (Week1App.classes_path (Week1App.CONFIG Example.BASE_DIR)) = false /\
  Week1App.load_resources Example.BASE_DIR Example.np_load
    Example.tflite_Interpreter Example.model_only
  = (inr (Some Example.mfcc_model, Some Week1App.default_classes),
     Example.model_only) /\
  exists st',
    Week1App.script Example.BASE_DIR Example.uuid4 Example.broker_up
      Example.tmp_name Example.np_load Example.tflite_Interpreter
      Example.librosa_load Example.librosa_effects_trim
      Example.librosa_feature_mfcc (Some (Example.upload, true)) None
      Example.model_only = (inr tt, st') /\
    List.length (Week1App.invoked st') = 1%nat /\
    Week1App.ui st'
    = [ Week1App.st_audio "/tmp/tmp0.wav";
        Week1App.st_markdown_result "red" "🚨 DANGER";
        Week1App.st_markdown_emotion "FEAR";
        Week1App.st_markdown_confidence ((7 # 10) * 100);
        Week1App.st_success_sent "D";
        Week1App.st_bar_chart [1 # 10; 0; 7 # 10; 0; 1 # 10; 1 # 10; 0] ].
Proof.
  split; [reflexivity |]. split; [reflexivity |].
  eexists. split; [vm_compute; reflexivity |].
  split; reflexivity.
Qed.

(** ** The temporary file *)

Section TemporaryFile.
Import Py Np.
Local Open Scope string_scope.

(** A written temporary file exists, under the name that was returned. *)
Lemma write_temp_exists (tmp_name : nat -> string) (fs : Os.filesystem)
    (content : Os.bytes) :
  Os.path_exists (snd (Os.write_temp tmp_name fs content))
                 (fst (Os.write_temp tmp_name fs content)) = true /\
  Os.locked (snd (Os.write_temp tmp_name fs content)) = Os.locked fs.
Proof.
  unfold Os.write_temp, Os.path_exists. cbn.
  rewrite String.eqb_refl. split; reflexivity.
Qed.

Lemma delete_not_exists (fs : Os.filesystem) (path : string) :
  Os.path_exists (Os.delete fs path) path = false.
Proof.
  unfold Os.path_exists, Os.delete. destruct fs as [files locked n].
  cbn [Os.files]. induction files as [| [p b] files IH]; cbn.
  - reflexivity.
  - destruct (p =? path) eqn:E; cbn; [exact IH |].
    rewrite E. exact IH.
Qed.

(** [os.remove] on an existing path: the path is gone, or it is held and
    [PermissionError] is raised. *)
Lemma remove_existing (fs : Os.filesystem) (path : string) :
  Os.path_exists fs path = true ->
  (existsb (String.eqb path) (Os.locked fs) = false /\
   Os.remove fs path = (inr tt, Os.delete fs path)) \/
  (existsb (String.eqb path) (Os.locked fs) = true /\
   Os.remove fs path = (inl (OSError "PermissionError"), fs)).
Proof.
  intros H. unfold Os.remove. rewrite H. cbn [negb].
  destruct (existsb (String.eqb path) (Os.locked fs)); [right | left];
    split; reflexivity.
Qed.

Section Int8.
Import Int8App.

Variables input_details output_details : tensor_details.
Variable melspectrogram : list Q -> array Q.
Variable power_to_db : array Q -> array Q.
Variable image_resize : array Q -> nat * nat -> array Q.
Variable tmp_name : nat -> string.
Variable librosa_load : Os.bytes -> result (list Q).
Variable interpreter_run : ndarray -> result ndarray.
Variable softmax : list Q -> list Q.

Lemma write_scores_fs (labels : list (nat * string)) (probs : list Q)
    (s : app_state) :
  fs (snd (write_scores labels probs s)) = fs s.
Proof.
  revert s. induction labels as [| [i label] labels IH]; intros s.
  - reflexivity.
  - cbn [write_scores]. unfold show. run_py.
    destruct (item probs i) as [e | p]; [reflexivity |].
    rewrite IH. reflexivity.
Qed.

(** The body of the [try], with its [except], raises nothing and leaves
    the files alone. *)
Lemma guarded_inference (audio_path : string) (s : app_state) :
  exists s',
    try_except
      (infer_and_show input_details output_details melspectrogram
         power_to_db image_resize librosa_load interpreter_run softmax
         audio_path)
      (fun e => show (st_error_inference e)) s = (inr tt, s') /\
    fs s' = fs s.
Proof.
  unfold infer_and_show, load_audio, show. run_py.
  destruct (Os.read (fs s) audio_path) as [b |];
    [| eexists; split; reflexivity].
  destruct (librosa_load b) as [e | audio]; [eexists; split; reflexivity |].
  destruct (preprocess_audio input_details melspectrogram power_to_db
              image_resize audio) as [e | x];
    [eexists; split; reflexivity |].
  destruct (interpreter_run x) as [e | out]; [eexists; split; reflexivity |].
  destruct (argmax (softmax (dequantize_output output_details out)))
    as [e | pred_id]; [eexists; split; reflexivity |].
  destruct (label_of pred_id) as [e | pred_label];
    [eexists; split; reflexivity |].
  match goal with
  | |- context [write_scores ?l ?p ?s0] =>
      pose proof (write_scores_fs l p s0) as Hfs;
      destruct (write_scores l p s0) as [[e | []] s1]
  end; cbn [snd fs] in Hfs; eexists; split; try reflexivity; exact Hfs.
Qed.

(** What the upload handler does with the temporary file: it is removed
    after the inference, whether that succeeded or not; but when the file
    cannot be removed, the error of [os.remove] leaves the handler. *)
Lemma on_upload_cleanup (uploaded_file : Os.bytes) (s : app_state) :
  let audio_path := tmp_name (Os.tmp_next (fs s)) in
  exists s',
    (existsb (String.eqb audio_path) (Os.locked (fs s)) = false ->
     on_upload input_details output_details melspectrogram power_to_db
       image_resize tmp_name librosa_load interpreter_run softmax
       uploaded_file s = (inr tt, s') /\
     Os.path_exists (fs s') audio_path = false) /\
    (existsb (String.eqb audio_path) (Os.locked (fs s)) = true ->
     on_upload input_details output_details melspectrogram power_to_db
       image_resize tmp_name librosa_load interpreter_run softmax
       uploaded_file s = (inl (OSError "PermissionError"), s') /\
     Os.path_exists (fs s') audio_path = true).
Proof.
  intros audio_path. unfold on_upload.
  pose proof (write_temp_exists tmp_name (fs s) uploaded_file) as [Hex Hl].
  destruct (Os.write_temp tmp_name (fs s) uploaded_file) as [path fs1] eqn:Ew.
  assert (Hpath : path = audio_path).
  { unfold Os.write_temp in Ew. injection Ew as <- _. reflexivity. }
  cbn [fst snd] in Hex, Hl. unfold try_finally.
  destruct (guarded_inference path (mk_state fs1 (ui s))) as (s1 & E & Hfs).
  rewrite E. cbn [fs] in Hfs. unfold os_remove. rewrite Hfs.
  rewrite <- Hpath.
  destruct (remove_existing fs1 path Hex) as [[Hfree R] | [Hheld R]];
    rewrite R, Hl in *; eexists; split; intros H; try congruence.
  - split; [reflexivity |]. cbn [fs]. apply delete_not_exists.
  - split; [reflexivity |]. cbn [fs]. exact Hex.
Qed.

End Int8.

Section Week1.
Import Week1App.

Variable BASE_DIR : string.
Variable uuid4 : nat -> string.
Variable mqtt_outcome : mqtt_call -> outcome.
Variable tmp_name : nat -> string.
Variable librosa_load : Os.bytes -> result (list Q).
Variable librosa_effects_trim : list Q -> list Q.
Variable librosa_feature_mfcc : list Q -> matrix.

Lemma write_temp_read (fs : Os.filesystem) (content : Os.bytes) :
  Os.read (snd (Os.write_temp tmp_name fs content))
          (fst (Os.write_temp tmp_name fs content)) = Some content.
Proof.
  unfold Os.write_temp, Os.read. cbn. rewrite String.eqb_refl. reflexivity.
Qed.

(** When the button is not pressed the file is written, played and
    removed; a failure of the removal is swallowed. *)
Lemma analyze_audio_ignores_removal_failure
    (interpreter : option Interpreter) (classes : option (list string))
    (src : source) (st : app_state) :
  exists st',
    analyze_audio BASE_DIR uuid4 mqtt_outcome tmp_name librosa_load
      librosa_effects_trim librosa_feature_mfcc interpreter classes src
      false st = (inr tt, st') /\
    ui st' = (ui st ++ [st_audio (tmp_name (Os.tmp_next (fs st)))])%list.
Proof.
  unfold analyze_audio, write_temp, show, os_remove. run_py.
  destruct (Os.write_temp tmp_name (fs st) (content src)) as [path fs1] eqn:Ew.
  assert (Hpath : path = tmp_name (Os.tmp_next (fs st))).
  { unfold Os.write_temp in Ew. injection Ew as <- _. reflexivity. }
  cbn [fs ui mqtt_log invoked uuid_next].
  destruct (Os.remove fs1 path) as [[e | []] fs2]; eexists;
    (split; [reflexivity |]); cbn [ui]; rewrite Hpath; reflexivity.
Qed.

(** When the interpreter raises, the exception leaves [analyze_audio]
    before the cleanup: the temporary file stays. *)
Lemma analyze_audio_leaves_file_when_inference_raises
    (interpreter : Interpreter) (classes : option (list string))
    (src : source) (st : app_state) (y : list Q) (e : exception) :
  librosa_load (content src) = inr y ->
  run interpreter
      (nd_float32
         (expand_dims_batch_channel
            (fix_time_steps
               (librosa_feature_mfcc
                  (pad_or_truncate (librosa_effects_trim y))))))
    = inl e ->
  exists st',
    analyze_audio BASE_DIR uuid4 mqtt_outcome tmp_name librosa_load
      librosa_effects_trim librosa_feature_mfcc (Some interpreter) classes
      src true st = (inl e, st') /\
    Os.path_exists (fs st') (tmp_name (Os.tmp_next (fs st))) = true.
Proof.
  intros Hload Hrun.
  unfold analyze_audio, mbind at 1 2, write_temp.
  pose proof (write_temp_exists tmp_name (fs st) (content src)) as [Hex _].
  pose proof (write_temp_read (fs st) (content src)) as Hread.
  destruct (Os.write_temp tmp_name (fs st) (content src)) as [path fs1] eqn:Ew.
  assert (Hpath : path = tmp_name (Os.tmp_next (fs st))).
  { unfold Os.write_temp in Ew. injection Ew as <- _. reflexivity. }
  cbn [fst snd] in Hex, Hread. unfold ret, show, modify, mbind at 1.
  unfold classify_and_notify, mbind at 1.
  erewrite preprocess_audio_loaded; [| exact Hread | exact Hload].
  unfold mbind.
  match goal with
  | |- context [interpreter_run ?i ?x ?s] =>
      destruct (interpreter_run_raises i x e s Hrun) as [inv ->]
  end.
  eexists. split; [reflexivity |].
  cbn [fs]. rewrite <- Hpath. exact Hex.
Qed.

End Week1.

End TemporaryFile.

(** C7, evaluated where the two handlers miss it.  In the mel front end
    the temporary file is removed after a successful and after a failed
    inference, but when [os.remove] fails its error leaves the handler.  In
    the MFCC front end a failed removal is swallowed, but when the
    interpreter raises the handler is left before the cleanup and the
    temporary file stays. *)
Theorem temporary_file_cleanup_by_handler :
  (* mel front end, the file can be removed *)
  Int8App.on_upload Example.input_details Example.output_details
    Example.melspectrogram Example.power_to_db Example.image_resize
    Example.tmp_name Example.librosa_load Example.failing_interpreter_run
    Example.softmax "RIFF"%string (Int8App.mk_state (Os.mk_fs [] [] 0) [])
  = (inr tt,
     Int8App.mk_state (Os.mk_fs [] [] 1)
       [Int8App.st_error_inference (Py.LibraryError "Cannot set tensor")]) /\
  (* mel front end, the file is held *)
  fst (Int8App.on_upload Example.input_details Example.output_details
         Example.melspectrogram Example.power_to_db Example.image_resize
         Example.tmp_name Example.librosa_load Example.interpreter_run
         Example.softmax "RIFF"%string (Int8App.mk_state Example.held []))
  = inl (Py.OSError "PermissionError") /\
  (* MFCC front end, the file is held *)
  fst (Week1App.analyze_audio Example.BASE_DIR Example.uuid4
         Example.broker_up Example.tmp_name Example.librosa_load
         Example.librosa_effects_trim Example.librosa_feature_mfcc
         (Some Example.mfcc_model) (Some Week1App.default_classes)
         Example.upload true (Week1App.mk_state Example.held [] [] [] 0))
  = inr tt /\
  (* MFCC front end, the interpreter raises *)
  (fun r => (fst r, Week1App.fs (snd r)))
    (Week1App.analyze_audio Example.BASE_DIR Example.uuid4
       Example.broker_up Example.tmp_name Example.librosa_load
       Example.librosa_effects_trim Example.librosa_feature_mfcc
       (Some Example.rejecting_model) (Some Week1App.default_classes)
       Example.upload true (Week1App.mk_state (Os.mk_fs [] [] 0) [] [] [] 0))
  = (inl (Py.LibraryError "Cannot set tensor: Dimension mismatch"),
     Os.mk_fs [("/tmp/tmp0.wav", "RIFF")]%string [] 1).
Proof.
  repeat split; vm_compute; reflexivity.
Qed.

(** ** Binary32: the arithmetic of lines 79-80 and 118 *)

Section Binary32.
Import Py Np Int8App.

(** Powers of two, as rationals and as integers. *)
Lemma Qpower_2_nonneg (e : Z) : (0 <= e)%Z -> 2 ^ e == inject_Z (2 ^ e).
Proof.
  intros H. rewrite Zpower_Qpower by exact H. reflexivity.
Qed.

Lemma Qpower_2_neg (e : Z) : (e < 0)%Z -> 2 ^ e == / inject_Z (2 ^ (- e)).
Proof.
  intros H. replace e with (- - e)%Z at 1 by lia.
  rewrite Qpower_opp, Qpower_2_nonneg by lia. reflexivity.
Qed.

Lemma Qpower_2_pos (e : Z) : 0 < 2 ^ e.
Proof. apply Qpower_0_lt. reflexivity. Qed.

Lemma inject_Z_cond_Zopp (s : bool) (z : Z) :
  inject_Z (cond_Zopp s z) == if s then - inject_Z z else inject_Z z.
Proof. destruct s; cbn [cond_Zopp]; [rewrite inject_Z_opp |]; reflexivity. Qed.

(** The integer part is unique. *)
Lemma drops_fraction_unique (c : Q) (q q' : Z) :
  Spec.drops_fraction c q -> Spec.drops_fraction c q' -> q = q'.
Proof.
  intros [Hp Hn] [Hp' Hn'].
  destruct (Qlt_le_dec c 0) as [H | H].
  - destruct Hn as [A B]; [lra |]. destruct Hn' as [A' B']; [lra |].
    assert (L1 : inject_Z q < inject_Z (q' + 1))
      by (rewrite inject_Z_plus; change (inject_Z 1) with 1; lra).
    assert (L2 : inject_Z q' < inject_Z (q + 1))
      by (rewrite inject_Z_plus; change (inject_Z 1) with 1; lra).
    apply inject_Z_lt_inv in L1, L2. lia.
  - destruct (Hp H) as [A B]. destruct (Hp' H) as [A' B'].
    assert (L1 : inject_Z q < inject_Z (q' + 1))
      by (rewrite inject_Z_plus; change (inject_Z 1) with 1; lra).
    assert (L2 : inject_Z q' < inject_Z (q + 1))
      by (rewrite inject_Z_plus; change (inject_Z 1) with 1; lra).
    apply inject_Z_lt_inv in L1, L2. lia.
Qed.

Lemma drops_fraction_Qeq (c c' : Q) (q : Z) :
  c == c' -> Spec.drops_fraction c q -> Spec.drops_fraction c' q.
Proof.
  intros E [Hp Hn]. split; intros H.
  - destruct Hp as [A B]; [lra |]. split; lra.
  - destruct Hn as [A B]; [lra |]. split; lra.
Qed.

Lemma drops_fraction_integer (z : Z) : Spec.drops_fraction (inject_Z z) z.
Proof. split; intros _; split; lra. Qed.

(** The conversion of a binary32 number to an integer drops its
    fractional part, as the conversion of the rational it stands for. *)
Lemma astype_int8_f32_drops_fraction (x : spec_float) :
  F32.is_finite x = true ->
  Spec.drops_fraction (F32.to_Q x) (F32.astype_int8 x).
Proof.
  destruct x as [s | s | | s m e]; try discriminate; intros _.
  - apply (drops_fraction_integer 0).
  - cbn [F32.to_Q F32.astype_int8].
    destruct (Z.leb_spec 0 e) as [He | He].
    + rewrite Z.shiftl_mul_pow2 by exact He.
      apply (drops_fraction_Qeq
               (inject_Z (cond_Zopp s (Z.pos m * 2 ^ e)))).
      * rewrite Qpower_2_nonneg by exact He.
        rewrite <- inject_Z_mult.
        destruct s; cbn [cond_Zopp]; [| reflexivity].
        rewrite Z.mul_opp_l. reflexivity.
      * apply drops_fraction_integer.
    + rewrite Z.shiftr_div_pow2 by lia.
      assert (Hk : (0 < 2 ^ (- e))%Z) by (apply Z.pow_pos_nonneg; lia).
      set (k := (2 ^ (- e))%Z) in *.
      pose proof (Z.div_mod (Z.pos m) k ltac:(lia)) as Hdm.
      pose proof (Z.mod_pos_bound (Z.pos m) k Hk) as Hmod.
      set (d := (Z.pos m / k)%Z) in *.
      set (r := (Z.pos m mod k)%Z) in *.
      assert (Hd : (0 <= d)%Z) by (apply Z.div_pos; lia).
      assert (HkQ : 0 < inject_Z k)
        by (change 0 with (inject_Z 0); rewrite <- Zlt_Qlt; exact Hk).
      assert (Hm : inject_Z (Z.pos m)
                   == inject_Z d * inject_Z k + inject_Z r).
      { rewrite <- inject_Z_mult, <- inject_Z_plus.
        rewrite Hdm at 1. rewrite (Z.mul_comm k d). reflexivity. }
      assert (Hr0 : 0 <= inject_Z r)
        by (change 0 with (inject_Z 0); rewrite <- Zle_Qle; lia).
      assert (Hr1 : inject_Z r < inject_Z k) by (rewrite <- Zlt_Qlt; lia).
      assert (Hlo : inject_Z d <= inject_Z (Z.pos m) / inject_Z k).
      { apply Qle_shift_div_l; [exact HkQ |]. rewrite Hm. lra. }
      assert (Hhi : inject_Z (Z.pos m) / inject_Z k < inject_Z d + 1).
      { apply Qlt_shift_div_r; [exact HkQ |]. rewrite Hm. nra. }
      assert (Hd0 : 0 <= inject_Z d)
        by (change 0 with (inject_Z 0); rewrite <- Zle_Qle; exact Hd).
      apply (drops_fraction_Qeq
               (if s then - (inject_Z (Z.pos m) / inject_Z k)
                else inject_Z (Z.pos m) / inject_Z k)).
      * rewrite Qpower_2_neg by exact He. fold k.
        rewrite inject_Z_cond_Zopp. destruct s; unfold Qdiv; ring.
      * unfold Spec.drops_fraction. destruct s; cbn [cond_Zopp].
        -- rewrite inject_Z_opp. split; intros H; split; lra.
        -- split; intros H; split; lra.
Qed.


(** *** The format *)

Lemma digits2_pos_size (m : positive) : digits2_pos m = Pos.size m.
Proof. induction m; cbn; congruence. Qed.

Lemma digits2_pos_bounds (m : positive) :
  (2 ^ (Z.pos (digits2_pos m) - 1) <= Z.pos m < 2 ^ Z.pos (digits2_pos m))%Z.
Proof.
  rewrite digits2_pos_size.
  pose proof (Z.log2_spec (Z.pos m) ltac:(lia)) as H.
  assert (E : Z.pos (Pos.size m) = Z.succ (Z.log2 (Z.pos m))).
  { destruct m; cbn; lia. }
  rewrite E. replace (Z.succ (Z.log2 (Z.pos m)) - 1)%Z
    with (Z.log2 (Z.pos m)) by lia.
  exact H.
Qed.

(** What [bounded] says of a mantissa and its exponent. *)
Lemma bounded_inv (m : positive) (e : Z) :
  bounded F32.prec F32.emax m e = true ->
  (-149 <= e <= 104)%Z /\
  (Z.pos (digits2_pos m) <= 24)%Z /\
  (-149 < e -> Z.pos (digits2_pos m) = 24)%Z.
Proof.
  unfold bounded, canonical_mantissa, fexp, emin, F32.prec, F32.emax.
  intros H. apply andb_prop in H. destruct H as [H1 H2].
  apply Z.eqb_eq in H1. apply Z.leb_le in H2. lia.
Qed.

Lemma valid_finite_inv (s : bool) (m : positive) (e : Z) :
  F32.valid (S754_finite s m e) = true ->
  (-149 <= e <= 104)%Z /\
  (Z.pos m < 2 ^ 24)%Z /\
  (-149 < e -> 2 ^ 23 <= Z.pos m)%Z.
Proof.
  intros H. apply bounded_inv in H. destruct H as (He & Hd & Hn).
  pose proof (digits2_pos_bounds m) as [Hlo Hhi].
  split; [exact He |]. split.
  - eapply Z.lt_le_trans; [exact Hhi |].
    apply Z.pow_le_mono_r; lia.
  - intros H. rewrite (Hn H) in Hlo. exact Hlo.
Qed.

(** The value of a float of the format, in units of [2 ^ -149]. *)
Lemma to_Q_ulps (x : spec_float) :
  F32.valid x = true ->
  F32.to_Q x == inject_Z (F32.ulps x) * 2 ^ (-149).
Proof.
  destruct x as [s | s | | s m e]; intros H; cbn [F32.to_Q F32.ulps];
    try (cbn; ring).
  apply valid_finite_inv in H. destruct H as (He & _).
  replace e with ((e + 149) + (-149))%Z at 1 by lia.
  rewrite Qpower_plus by discriminate.
  rewrite Qpower_2_nonneg by lia.
  rewrite !inject_Z_cond_Zopp, inject_Z_mult.
  destruct s; ring.
Qed.

Lemma to_Q_le_ulps (x y : spec_float) :
  F32.valid x = true -> F32.valid y = true ->
  (F32.to_Q x <= F32.to_Q y <-> (F32.ulps x <= F32.ulps y)%Z).
Proof.
  intros Hx Hy. rewrite (to_Q_ulps x Hx), (to_Q_ulps y Hy).
  pose proof (Qpower_2_pos (-149)) as Hp.
  rewrite Zle_Qle. split; intros H; nra.
Qed.

(** Floats of the format are ordered as [SFcompare] says. *)
Lemma compare_canonical (m1 m2 : positive) (e1 e2 : Z) :
  F32.valid (S754_finite false m1 e1) = true ->
  F32.valid (S754_finite false m2 e2) = true ->
  match (e1 ?= e2)%Z with
  | Lt => Lt
  | Gt => Gt
  | Eq => Pos.compare_cont Eq m1 m2
  end
  = (Z.pos m1 * 2 ^ (e1 + 149) ?= Z.pos m2 * 2 ^ (e2 + 149))%Z.
Proof.
  intros H1 H2.
  apply valid_finite_inv in H1, H2.
  destruct H1 as (He1 & Hm1 & Hn1), H2 as (He2 & Hm2 & Hn2).
  change (2 ^ 24)%Z with 16777216%Z in *.
  change (2 ^ 23)%Z with 8388608%Z in *.
  symmetry.
  destruct (Z.compare_spec e1 e2) as [E | L | L].
  - subst e2. fold (Pos.compare m1 m2).
    assert (Hp : (0 < 2 ^ (e1 + 149))%Z) by (apply Z.pow_pos_nonneg; lia).
    destruct (Pos.compare_spec m1 m2) as [E | L | L].
    + subst m2. apply Z.compare_refl.
    + apply Z.compare_lt_iff.
      apply Z.mul_lt_mono_pos_r; [exact Hp | lia].
    + apply Z.compare_gt_iff.
      apply Z.mul_lt_mono_pos_r; [exact Hp | lia].
  - apply Z.compare_lt_iff.
    assert (Hp : (0 < 2 ^ (e1 + 149))%Z) by (apply Z.pow_pos_nonneg; lia).
    replace (e2 + 149)%Z with ((e1 + 149) + (e2 - e1))%Z by lia.
    rewrite (Z.pow_add_r 2 (e1 + 149) (e2 - e1)) by lia.
    assert (Hb : (2 ^ 1 <= 2 ^ (e2 - e1))%Z)
      by (apply Z.pow_le_mono_r; lia).
    change (2 ^ 1)%Z with 2%Z in Hb.
    specialize (Hn2 ltac:(lia)).
    set (A := (2 ^ (e1 + 149))%Z) in *. set (B := (2 ^ (e2 - e1))%Z) in *.
    apply Z.lt_le_trans with (16777216 * A)%Z;
      [apply Z.mul_lt_mono_pos_r; lia |].
    transitivity (8388608 * (A * 2))%Z; [lia |].
    apply Z.mul_le_mono_nonneg; try lia.
    apply Z.mul_le_mono_nonneg_l; lia.
  - apply Z.compare_gt_iff.
    assert (Hp : (0 < 2 ^ (e2 + 149))%Z) by (apply Z.pow_pos_nonneg; lia).
    replace (e1 + 149)%Z with ((e2 + 149) + (e1 - e2))%Z by lia.
    rewrite (Z.pow_add_r 2 (e2 + 149) (e1 - e2)) by lia.
    assert (Hb : (2 ^ 1 <= 2 ^ (e1 - e2))%Z)
      by (apply Z.pow_le_mono_r; lia).
    change (2 ^ 1)%Z with 2%Z in Hb.
    specialize (Hn1 ltac:(lia)).
    set (A := (2 ^ (e2 + 149))%Z) in *. set (B := (2 ^ (e1 - e2))%Z) in *.
    apply Z.lt_le_trans with (16777216 * A)%Z;
      [apply Z.mul_lt_mono_pos_r; lia |].
    transitivity (8388608 * (A * 2))%Z; [lia |].
    apply Z.mul_le_mono_nonneg; try lia.
    apply Z.mul_le_mono_nonneg_l; lia.
Qed.

Lemma valid_sign (s s' : bool) (m : positive) (e : Z) :
  F32.valid (S754_finite s m e) = F32.valid (S754_finite s' m e).
Proof. reflexivity. Qed.

Lemma SFcompare_ulps (x y : spec_float) :
  F32.valid x = true -> F32.valid y = true ->
  F32.is_finite x = true -> F32.is_finite y = true ->
  SFcompare x y = Some (F32.ulps x ?= F32.ulps y)%Z.
Proof.
  destruct x as [s1 | s1 | | s1 m1 e1]; try discriminate;
    destruct y as [s2 | s2 | | s2 m2 e2]; try discriminate;
    intros Hx Hy _ _; cbn [SFcompare F32.ulps].
  - reflexivity.
  - assert (0 < Z.pos m2 * 2 ^ (e2 + 149))%Z.
    { apply valid_finite_inv in Hy.
      apply Z.mul_pos_pos; [lia | apply Z.pow_pos_nonneg; lia]. }
    destruct s2; cbn [cond_Zopp]; f_equal; symmetry;
      [apply Z.compare_gt_iff | apply Z.compare_lt_iff]; lia.
  - assert (0 < Z.pos m1 * 2 ^ (e1 + 149))%Z.
    { apply valid_finite_inv in Hx.
      apply Z.mul_pos_pos; [lia | apply Z.pow_pos_nonneg; lia]. }
    destruct s1; cbn [cond_Zopp]; f_equal; symmetry;
      [apply Z.compare_lt_iff | apply Z.compare_gt_iff]; lia.
  - assert (P1 : (0 < Z.pos m1 * 2 ^ (e1 + 149))%Z).
    { apply valid_finite_inv in Hx.
      apply Z.mul_pos_pos; [lia | apply Z.pow_pos_nonneg; lia]. }
    assert (P2 : (0 < Z.pos m2 * 2 ^ (e2 + 149))%Z).
    { apply valid_finite_inv in Hy.
      apply Z.mul_pos_pos; [lia | apply Z.pow_pos_nonneg; lia]. }
    rewrite (valid_sign s1 false) in Hx. rewrite (valid_sign s2 false) in Hy.
    pose proof (compare_canonical m1 m2 e1 e2 Hx Hy) as C.
    pose proof (compare_canonical m2 m1 e2 e1 Hy Hx) as C'.
    destruct s1, s2; cbn [cond_Zopp]; f_equal.
    + rewrite Z.compare_opp. rewrite <- C'.
      destruct (Z.compare_spec e1 e2) as [E | L | L].
      * subst e2. rewrite Z.compare_refl.
        change (CompOpp (m1 ?= m2)%positive = (m2 ?= m1)%positive).
        symmetry. apply Pos.compare_antisym.
      * apply Z.compare_gt_iff in L. rewrite L. reflexivity.
      * apply Z.compare_lt_iff in L. rewrite L. reflexivity.
    + symmetry. apply Z.compare_lt_iff. lia.
    + symmetry. apply Z.compare_gt_iff. lia.
    + exact C.
Qed.

Lemma SFleb_spec (x y : spec_float) :
  F32.valid x = true -> F32.valid y = true ->
  F32.is_finite x = true -> F32.is_finite y = true ->
  (SFleb x y = true <-> F32.to_Q x <= F32.to_Q y).
Proof.
  intros Hx Hy Fx Fy. unfold SFleb.
  rewrite (SFcompare_ulps x y Hx Hy Fx Fy), (to_Q_le_ulps x y Hx Hy).
  destruct (Z.compare_spec (F32.ulps x) (F32.ulps y));
    split; intros; try lia; try discriminate; reflexivity.
Qed.


(** *** The number of bits of a mantissa *)

Lemma Zdigits2_bounds (m : Z) :
  (0 < m)%Z -> (2 ^ (Zdigits2 m - 1) <= m < 2 ^ Zdigits2 m)%Z.
Proof.
  destruct m as [| p | p]; try lia. intros _. cbn [Zdigits2].
  apply digits2_pos_bounds.
Qed.

Lemma Zdigits2_nonneg (m : Z) : (0 <= Zdigits2 m)%Z.
Proof. destruct m; cbn; lia. Qed.

Lemma Zdigits2_positive (m : Z) : (0 < m)%Z -> (0 < Zdigits2 m)%Z.
Proof. destruct m; cbn; lia. Qed.

Lemma Zdigits2_unique (m d : Z) :
  (0 < m)%Z -> (2 ^ (d - 1) <= m < 2 ^ d)%Z -> Zdigits2 m = d.
Proof.
  intros Hm [Hlo Hhi].
  pose proof (Zdigits2_bounds m Hm) as [Dlo Dhi].
  pose proof (Zdigits2_positive m Hm) as Dpos.
  assert (Hd : (0 < d)%Z).
  { destruct (Z.lt_ge_cases 0 d) as [H | H]; [exact H |].
    exfalso. assert (2 ^ d <= 2 ^ 0)%Z by (apply Z.pow_le_mono_r; lia).
    change (2 ^ 0)%Z with 1%Z in *. lia. }
  destruct (Z.lt_trichotomy (Zdigits2 m) d) as [L | [E | L]];
    [exfalso | exact E | exfalso].
  - assert (2 ^ Zdigits2 m <= 2 ^ (d - 1))%Z
      by (apply Z.pow_le_mono_r; lia). lia.
  - assert (2 ^ d <= 2 ^ (Zdigits2 m - 1))%Z
      by (apply Z.pow_le_mono_r; lia). lia.
Qed.

Lemma Zdigits2_div_pow2 (m n : Z) :
  (0 <= m)%Z -> (0 <= n)%Z ->
  Zdigits2 (m / 2 ^ n) = Z.max 0 (Zdigits2 m - n).
Proof.
  intros Hm Hn.
  assert (Hp : (0 < 2 ^ n)%Z) by (apply Z.pow_pos_nonneg; lia).
  destruct (Z.eq_dec m 0) as [-> | Hne].
  { rewrite Z.div_0_l by lia. cbn [Zdigits2]. lia. }
  pose proof (Zdigits2_bounds m ltac:(lia)) as [Dlo Dhi].
  pose proof (Zdigits2_positive m ltac:(lia)) as Dpos.
  destruct (Z.lt_ge_cases m (2 ^ n)) as [Hsmall | Hbig].
  - rewrite Z.div_small by lia. cbn [Zdigits2].
    destruct (Z.lt_ge_cases n (Zdigits2 m)) as [L | L]; [| lia].
    exfalso. assert (2 ^ n <= 2 ^ (Zdigits2 m - 1))%Z
      by (apply Z.pow_le_mono_r; lia). lia.
  - assert (L : (n < Zdigits2 m)%Z).
    { destruct (Z.lt_ge_cases n (Zdigits2 m)) as [L | L]; [exact L |].
      exfalso. assert (2 ^ Zdigits2 m <= 2 ^ n)%Z
        by (apply Z.pow_le_mono_r; lia). lia. }
    rewrite Z.max_r by lia.
    apply Zdigits2_unique.
    + apply Z.div_str_pos. lia.
    + split.
      * apply Z.div_le_lower_bound; [exact Hp |].
        rewrite <- Z.pow_add_r by lia.
        replace (n + (Zdigits2 m - n - 1))%Z with (Zdigits2 m - 1)%Z by lia.
        exact Dlo.
      * apply Z.div_lt_upper_bound; [exact Hp |].
        rewrite <- Z.pow_add_r by lia.
        replace (n + (Zdigits2 m - n))%Z with (Zdigits2 m) by lia.
        exact Dhi.
Qed.

Lemma Zdigits2_succ (m : Z) :
  (0 <= m)%Z ->
  Zdigits2 (m + 1) = Zdigits2 m \/
  (Zdigits2 (m + 1) = Zdigits2 m + 1 /\ m + 1 = 2 ^ Zdigits2 m)%Z.
Proof.
  intros Hm. destruct (Z.eq_dec m 0) as [-> | Hne].
  { right. cbn. split; reflexivity. }
  pose proof (Zdigits2_bounds m ltac:(lia)) as [Dlo Dhi].
  pose proof (Zdigits2_positive m ltac:(lia)) as Dpos.
  destruct (Z.eq_dec (m + 1) (2 ^ Zdigits2 m)) as [E | N].
  - right. split; [| exact E].
    apply Zdigits2_unique; [lia |].
    replace (Zdigits2 m + 1 - 1)%Z with (Zdigits2 m) by lia.
    rewrite Z.pow_add_r by lia. change (2 ^ 1)%Z with 2%Z. lia.
  - left. apply Zdigits2_unique; lia.
Qed.

Lemma Zdigits2_mul_pow2 (m n : Z) :
  (0 < m)%Z -> (0 <= n)%Z -> Zdigits2 (m * 2 ^ n) = (Zdigits2 m + n)%Z.
Proof.
  intros Hm Hn.
  assert (Hp : (0 < 2 ^ n)%Z) by (apply Z.pow_pos_nonneg; lia).
  pose proof (Zdigits2_bounds m Hm) as [Dlo Dhi].
  pose proof (Zdigits2_positive m Hm) as Dpos.
  apply Zdigits2_unique; [nia |].
  replace (Zdigits2 m + n - 1)%Z with ((Zdigits2 m - 1) + n)%Z by lia.
  rewrite !Z.pow_add_r by lia. split.
  - apply Z.mul_le_mono_nonneg_r; lia.
  - apply Z.mul_lt_mono_pos_r; lia.
Qed.

Lemma Zdigits2_le (a b : Z) :
  (0 <= a <= b)%Z -> (Zdigits2 a <= Zdigits2 b)%Z.
Proof.
  intros [Ha Hab]. destruct (Z.eq_dec a 0) as [-> | Hne].
  { cbn [Zdigits2]. apply Zdigits2_nonneg. }
  pose proof (Zdigits2_bounds a ltac:(lia)) as [Alo Ahi].
  pose proof (Zdigits2_bounds b ltac:(lia)) as [Blo Bhi].
  destruct (Z.le_gt_cases (Zdigits2 a) (Zdigits2 b)) as [L | L];
    [exact L | exfalso].
  assert (2 ^ Zdigits2 b <= 2 ^ (Zdigits2 a - 1))%Z
    by (apply Z.pow_le_mono_r;
        [lia | pose proof (Zdigits2_nonneg b); lia]).
  lia.
Qed.

(** *** The rounding of [SpecFloat] *)

Lemma shr_1_m (r : shr_record) :
  (0 <= shr_m r)%Z -> shr_m (shr_1 r) = (shr_m r / 2)%Z.
Proof.
  destruct r as [m b1 b2]. cbn [shr_m]. intros H.
  destruct m as [| p | p]; [reflexivity | | lia].
  destruct p as [p | p |]; cbn [shr_1 shr_m].
  - rewrite Pos2Z.inj_xI. symmetry.
    rewrite Z.add_comm, Z.mul_comm, Z.div_add by lia. reflexivity.
  - rewrite Pos2Z.inj_xO. symmetry.
    rewrite Z.mul_comm, Z.div_mul by lia. reflexivity.
  - reflexivity.
Qed.

Lemma iter_pos_shr_1_m (p : positive) (r : shr_record) :
  (0 <= shr_m r)%Z ->
  shr_m (iter_pos shr_1 p r) = (shr_m r / 2 ^ Z.pos p)%Z.
Proof.
  revert r. induction p as [p IH | p IH |]; intros r Hr; cbn [iter_pos].
  - assert (H1 : (0 <= shr_m (shr_1 r))%Z)
      by (rewrite shr_1_m by exact Hr; apply Z.div_pos; lia).
    assert (H2 : (0 <= shr_m (iter_pos shr_1 p (shr_1 r)))%Z)
      by (rewrite IH by exact H1; apply Z.div_pos;
          [exact H1 | apply Z.pow_pos_nonneg; lia]).
    rewrite IH by exact H2. rewrite IH by exact H1.
    rewrite shr_1_m by exact Hr.
    rewrite !Z.div_div by (try apply Z.pow_pos_nonneg; lia).
    f_equal.
    assert (E : Z.pos p~1 = (1 + Z.pos p + Z.pos p)%Z) by lia.
    rewrite E, !Z.pow_add_r by lia. change (2 ^ 1)%Z with 2%Z. ring.
  - assert (H1 : (0 <= shr_m (iter_pos shr_1 p r))%Z)
      by (rewrite IH by exact Hr; apply Z.div_pos;
          [exact Hr | apply Z.pow_pos_nonneg; lia]).
    rewrite IH by exact H1. rewrite IH by exact Hr.
    rewrite Z.div_div by (try apply Z.pow_pos_nonneg; lia).
    f_equal.
    assert (E : Z.pos p~0 = (Z.pos p + Z.pos p)%Z) by lia.
    rewrite E, Z.pow_add_r by lia. reflexivity.
  - rewrite shr_1_m by exact Hr. reflexivity.
Qed.

Lemma shr_m_of_loc (m : Z) (l : location) : shr_m (shr_record_of_loc m l) = m.
Proof. destruct l as [| []]; reflexivity. Qed.

(** [shr_fexp] divides the mantissa by the power of two that brings the
    exponent up to the one of the format. *)
Lemma shr_fexp_m (m e : Z) (l : location) :
  (0 <= m)%Z ->
  shr_m (fst (shr_fexp F32.prec F32.emax m e l))
  = (m / 2 ^ Z.max 0 (fexp F32.prec F32.emax (Zdigits2 m + e) - e))%Z /\
  snd (shr_fexp F32.prec F32.emax m e l)
  = (e + Z.max 0 (fexp F32.prec F32.emax (Zdigits2 m + e) - e))%Z.
Proof.
  intros Hm. unfold shr_fexp, shr.
  destruct (fexp F32.prec F32.emax (Zdigits2 m + e) - e)%Z as [| p | p];
    cbn [fst snd].
  - rewrite shr_m_of_loc. change (Z.max 0 0) with 0%Z.
    rewrite Z.div_1_r. split; [reflexivity | lia].
  - rewrite iter_pos_shr_1_m by (rewrite shr_m_of_loc; exact Hm).
    rewrite shr_m_of_loc. rewrite Z.max_r by lia. split; reflexivity.
  - rewrite shr_m_of_loc. rewrite Z.max_l by lia.
    rewrite Z.div_1_r. split; [reflexivity | lia].
Qed.

Lemma round_nearest_even_cases (m : Z) (l : location) :
  round_nearest_even m l = m \/ round_nearest_even m l = (m + 1)%Z.
Proof.
  destruct l as [| []]; cbn [round_nearest_even]; auto.
  destruct (Z.even m); auto.
Qed.

Lemma fexp_eq (k : Z) : fexp F32.prec F32.emax k = Z.max (k - 24) (-149).
Proof. reflexivity. Qed.

(** What [binary_round_aux] returns for a mantissa that has enough bits:
    with [e1] the exponent of the format for it, the mantissa is divided
    by [2 ^ (e1 - ex)], the quotient is kept or increased by one, and the
    result is that number times [2 ^ e1], as a float of the format, or an
    infinity. *)
Lemma binary_round_aux_cases (sx : bool) (mx ex : Z) (lx : location) :
  (0 <= mx)%Z ->
  (ex <= fexp F32.prec F32.emax (Zdigits2 mx + ex))%Z ->
  exists m1 : Z,
    m1 = round_nearest_even
           (shr_m (fst (shr_fexp F32.prec F32.emax mx ex lx)))
           (loc_of_shr_record (fst (shr_fexp F32.prec F32.emax mx ex lx))) /\
    (m1 = mx / 2 ^ (fexp F32.prec F32.emax (Zdigits2 mx + ex) - ex) \/
     m1 = mx / 2 ^ (fexp F32.prec F32.emax (Zdigits2 mx + ex) - ex) + 1)%Z /\
    ((m1 = 0%Z /\
      binary_round_aux F32.prec F32.emax sx mx ex lx = S754_zero sx) \/
     (exists (m2 : positive) (e2 : Z),
        binary_round_aux F32.prec F32.emax sx mx ex lx
        = S754_finite sx m2 e2 /\
        bounded F32.prec F32.emax m2 e2 = true /\
        (fexp F32.prec F32.emax (Zdigits2 mx + ex) <= e2)%Z /\
        (Z.pos m2
         * 2 ^ (e2 - fexp F32.prec F32.emax (Zdigits2 mx + ex)) = m1)%Z) \/
     ((104 <= fexp F32.prec F32.emax (Zdigits2 mx + ex))%Z /\
      (2 ^ 24
       <= m1 * 2 ^ (fexp F32.prec F32.emax (Zdigits2 mx + ex) - 104))%Z /\
      binary_round_aux F32.prec F32.emax sx mx ex lx = S754_infinity sx)).
Proof.
  intros Hmx Hex.
  rewrite fexp_eq in *.
  set (d := Zdigits2 mx) in *.
  set (e1 := Z.max (d + ex - 24) (-149)) in *.
  unfold binary_round_aux.
  pose proof (shr_fexp_m mx ex lx Hmx) as [Hm' He'].
  destruct (shr_fexp F32.prec F32.emax mx ex lx) as [mrs' e'].
  cbn [fst snd] in Hm', He'. rewrite fexp_eq in Hm', He'.
  fold d in Hm', He'. fold e1 in Hm', He'.
  rewrite Z.max_r in Hm', He' by lia.
  replace (ex + (e1 - ex))%Z with e1 in He' by lia. subst e'.
  set (m' := (mx / 2 ^ (e1 - ex))%Z) in *.
  assert (Hm'0 : (0 <= m')%Z)
    by (apply Z.div_pos; [exact Hmx | apply Z.pow_pos_nonneg; lia]).
  assert (Hd' : Zdigits2 m' = Z.max 0 (d - (e1 - ex)))
    by (apply Zdigits2_div_pow2; lia).
  pose proof (Zdigits2_nonneg mx) as Hd0. fold d in Hd0.
  set (m1 := round_nearest_even (shr_m mrs') (loc_of_shr_record mrs')).
  assert (Hm1 : m1 = m' \/ m1 = (m' + 1)%Z).
  { subst m1. rewrite Hm'. apply round_nearest_even_cases. }
  exists m1. split; [reflexivity |]. split; [exact Hm1 |].
  assert (Hm10 : (0 <= m1)%Z) by lia.
  assert (Hd1 : Zdigits2 m1 = Zdigits2 m' \/
                (Zdigits2 m1 = Zdigits2 m' + 1 /\ m1 = 2 ^ Zdigits2 m')%Z).
  { destruct Hm1 as [-> | ->]; [left; reflexivity |].
    apply Zdigits2_succ. exact Hm'0. }
  pose proof (shr_fexp_m m1 e1 loc_Exact Hm10) as [Hm'' He''].
  destruct (shr_fexp F32.prec F32.emax m1 e1 loc_Exact) as [mrs'' e''].
  cbn [fst snd] in Hm'', He''. rewrite fexp_eq in Hm'', He''.
  set (d1 := Zdigits2 m1) in *. set (d' := Zdigits2 m') in *.
  set (n2 := Z.max 0 (Z.max (d1 + e1 - 24) (-149) - e1)) in *.
  assert (Hn2 : (n2 = 0 \/ (n2 = 1 /\ d1 = d' + 1 /\ 0 < d'))%Z) by lia.
  assert (Hdiv : ((m1 / 2 ^ n2) * 2 ^ n2 = m1)%Z).
  { destruct Hn2 as [-> | (-> & Hd1' & Hpos)].
    - change (2 ^ 0)%Z with 1%Z. rewrite Z.div_1_r. lia.
    - destruct Hd1 as [Hd1 | [_ ->]]; [lia |].
      change (2 ^ 1)%Z with 2%Z.
      replace d' with (1 + (d' - 1))%Z by lia.
      rewrite Z.pow_add_r by lia. change (2 ^ 1)%Z with 2%Z.
      rewrite (Z.mul_comm 2), Z.div_mul by lia. ring. }
  assert (Hdq : Zdigits2 (m1 / 2 ^ n2) = Z.max 0 (d1 - n2))
    by (apply Zdigits2_div_pow2; lia).
  rewrite Hm''.
  destruct (m1 / 2 ^ n2)%Z as [| m2 | m2] eqn:Eq.
  - left. split; [lia | reflexivity].
  - pose proof (Zdigits2_positive (Z.pos m2) ltac:(lia)) as Hpos2.
    change F32.emax with 128%Z. change F32.prec with 24%Z.
    change (128 - 24)%Z with 104%Z.
    destruct (Z.leb_spec e'' 104) as [Hle | Hgt].
    + right. left. exists m2, e''.
      split; [reflexivity |]. split; [| split].
      * unfold bounded, canonical_mantissa. rewrite fexp_eq.
        change (Z.pos (digits2_pos m2)) with (Zdigits2 (Z.pos m2)).
        apply andb_true_intro. split; [apply Z.eqb_eq | apply Z.leb_le].
        -- lia.
        -- exact Hle.
      * lia.
      * rewrite He''. replace (e1 + n2 - e1)%Z with n2 by lia. exact Hdiv.
    + right. right. split; [lia |]. split; [| reflexivity].
      assert (Hd2 : Zdigits2 (Z.pos m2) = 24%Z) by lia.
      pose proof (Zdigits2_bounds (Z.pos m2) ltac:(lia)) as [Blo _].
      rewrite Hd2 in Blo. change (2 ^ (24 - 1))%Z with 8388608%Z in Blo.
      change (2 ^ 24)%Z with 16777216%Z.
      rewrite <- Hdiv.
      destruct Hn2 as [E0 | (E1 & _ & _)].
      * rewrite E0 in *. change (2 ^ 0)%Z with 1%Z.
        assert (Hp1 : (2 ^ 1 <= 2 ^ (e1 - 104))%Z)
          by (apply Z.pow_le_mono_r; lia).
        change (2 ^ 1)%Z with 2%Z in Hp1. nia.
      * rewrite E1 in *. change (2 ^ 1)%Z with 2%Z.
        assert (Hp1 : (2 ^ 0 <= 2 ^ (e1 - 104))%Z)
          by (apply Z.pow_le_mono_r; lia).
        change (2 ^ 0)%Z with 1%Z in Hp1. nia.
  - exfalso.
    assert (0 <= m1 / 2 ^ n2)%Z
      by (apply Z.div_pos; [lia | apply Z.pow_pos_nonneg; lia]).
    lia.
Qed.


Lemma iter_xO (m d : positive) :
  Z.pos (Pos.iter xO m d) = (Z.pos m * 2 ^ Z.pos d)%Z.
Proof.
  induction d as [| d IH] using Pos.peano_ind.
  - cbn [Pos.iter]. change (2 ^ 1)%Z with 2%Z. lia.
  - rewrite Pos.iter_succ, Pos2Z.inj_xO, IH, Pos2Z.inj_succ.
    rewrite Z.pow_succ_r by lia. ring.
Qed.

(** The result of a rounding is a float of the format, or an infinity; it
    is not a NaN. *)
Lemma binary_round_aux_ok (sx : bool) (mx ex : Z) (lx : location) :
  (0 <= mx)%Z ->
  (ex <= fexp F32.prec F32.emax (Zdigits2 mx + ex))%Z ->
  F32.valid (binary_round_aux F32.prec F32.emax sx mx ex lx) = true /\
  F32.is_nan (binary_round_aux F32.prec F32.emax sx mx ex lx) = false.
Proof.
  intros Hm He.
  destruct (binary_round_aux_cases sx mx ex lx Hm He)
    as (m1 & _ & _ & [[_ ->] | [(m2 & e2 & -> & Hb & _) | (_ & _ & ->)]]);
    split; try reflexivity. exact Hb.
Qed.

Lemma shl_align_spec (mx : positive) (ex ex' : Z) :
  let (mz, ez) := shl_align mx ex ex' in
  ez = Z.min ex ex' /\ Z.pos mz = (Z.pos mx * 2 ^ (ex - ez))%Z.
Proof.
  unfold shl_align. destruct (ex' - ex)%Z as [| p | p] eqn:E.
  - split; [lia |]. replace (ex - ex)%Z with 0%Z by lia. cbn. lia.
  - split; [lia |]. replace (ex - ex)%Z with 0%Z by lia. cbn. lia.
  - split; [lia |]. rewrite iter_xO. f_equal. f_equal. lia.
Qed.

Lemma binary_round_ok (sx : bool) (mx : positive) (ex : Z) :
  F32.valid (binary_round F32.prec F32.emax sx mx ex) = true /\
  F32.is_nan (binary_round F32.prec F32.emax sx mx ex) = false.
Proof.
  unfold binary_round.
  pose proof (shl_align_spec mx ex
                (fexp F32.prec F32.emax (Z.pos (digits2_pos mx) + ex)))
    as H.
  destruct (shl_align mx ex _) as [mz ez]. destruct H as [Hez Hmz].
  apply binary_round_aux_ok; [lia |].
  rewrite Hmz, Zdigits2_mul_pow2 by lia.
  change (Zdigits2 (Z.pos mx)) with (Z.pos (digits2_pos mx)).
  rewrite !fexp_eq in *. lia.
Qed.

Lemma binary_normalize_ok (m e : Z) (sz : bool) :
  F32.valid (binary_normalize F32.prec F32.emax m e sz) = true /\
  F32.is_nan (binary_normalize F32.prec F32.emax m e sz) = false.
Proof.
  destruct m as [| p | p]; cbn [binary_normalize];
    [split; reflexivity | apply binary_round_ok | apply binary_round_ok].
Qed.

(** The quotient of two mantissas has enough bits for the rounding. *)
Lemma SFdiv_core_binary_spec (m1 m2 : positive) (e1 e2 : Z) :
  exists (q : Z) (l : location),
    SFdiv_core_binary F32.prec F32.emax (Z.pos m1) e1 (Z.pos m2) e2
    = (q,
       Z.min (fexp F32.prec F32.emax
                (Zdigits2 (Z.pos m1) + e1 - (Zdigits2 (Z.pos m2) + e2)))
             (e1 - e2), l) /\
    q = (Z.pos m1
         * 2 ^ (e1 - e2
                - Z.min (fexp F32.prec F32.emax
                           (Zdigits2 (Z.pos m1) + e1
                            - (Zdigits2 (Z.pos m2) + e2)))
                        (e1 - e2))
         / Z.pos m2)%Z /\
    (0 <= q)%Z /\
    (Z.min (fexp F32.prec F32.emax
              (Zdigits2 (Z.pos m1) + e1 - (Zdigits2 (Z.pos m2) + e2)))
           (e1 - e2)
     <= fexp F32.prec F32.emax
          (Zdigits2 q
           + Z.min (fexp F32.prec F32.emax
                      (Zdigits2 (Z.pos m1) + e1
                       - (Zdigits2 (Z.pos m2) + e2)))
                   (e1 - e2)))%Z.
Proof.
  unfold SFdiv_core_binary.
  set (d1 := Zdigits2 (Z.pos m1)). set (d2 := Zdigits2 (Z.pos m2)).
  set (e' := Z.min (fexp F32.prec F32.emax (d1 + e1 - (d2 + e2))) (e1 - e2)).
  set (s := (e1 - e2 - e')%Z).
  assert (Hs : (0 <= s)%Z) by (subst s e'; lia).
  set (m' := match s with
             | 0%Z => Z.pos m1
             | Z.pos _ => Z.shiftl (Z.pos m1) s
             | Z.neg _ => 0%Z
             end).
  assert (Hm' : m' = (Z.pos m1 * 2 ^ s)%Z).
  { subst m'. destruct s as [| p | p]; [cbn; lia | | lia].
    apply Z.shiftl_mul_pow2. lia. }
  assert (Hq : fst (Z.div_eucl m' (Z.pos m2)) = (m' / Z.pos m2)%Z)
    by reflexivity.
  destruct (Z.div_eucl m' (Z.pos m2)) as [q r]. cbn [fst] in Hq.
  exists q, (new_location (Z.pos m2) r).
  split; [reflexivity |].
  rewrite Hm' in Hq. split; [exact Hq |].
  assert (Hp : (0 < 2 ^ s)%Z) by (apply Z.pow_pos_nonneg; lia).
  assert (Hq0 : (0 <= q)%Z) by (rewrite Hq; apply Z.div_pos; lia).
  split; [exact Hq0 |].
  pose proof (Zdigits2_bounds (Z.pos m1) ltac:(lia)) as [A1 A2].
  pose proof (Zdigits2_bounds (Z.pos m2) ltac:(lia)) as [B1 B2].
  pose proof (Zdigits2_positive (Z.pos m1) ltac:(lia)) as P1.
  pose proof (Zdigits2_positive (Z.pos m2) ltac:(lia)) as P2.
  fold d1 in A1, A2, P1. fold d2 in B1, B2, P2.
  assert (Hdq : (d1 + s - d2 <= Zdigits2 q)%Z).
  { pose proof (Zdigits2_nonneg q) as Hn.
    destruct (Z.le_gt_cases (d1 + s - d2) 0) as [L | L]; [lia |].
    assert (Hlow : (2 ^ (d1 + s - d2 - 1) <= q)%Z).
    { rewrite Hq. apply Z.div_le_lower_bound; [lia |].
      apply Z.le_trans with (2 ^ d2 * 2 ^ (d1 + s - d2 - 1))%Z.
      - apply Z.mul_le_mono_nonneg_r; [| lia].
        apply Z.pow_nonneg. lia.
      - rewrite <- Z.pow_add_r by lia.
        replace (d2 + (d1 + s - d2 - 1))%Z with ((d1 - 1) + s)%Z by lia.
        rewrite Z.pow_add_r by lia.
        apply Z.mul_le_mono_nonneg_r; lia. }
    assert (Hq1 : (0 < q)%Z).
    { eapply Z.lt_le_trans; [| exact Hlow]. apply Z.pow_pos_nonneg; lia. }
    pose proof (Zdigits2_bounds q Hq1) as [_ Q2].
    destruct (Z.le_gt_cases (d1 + s - d2) (Zdigits2 q)) as [G | G];
      [exact G | exfalso].
    assert (2 ^ Zdigits2 q <= 2 ^ (d1 + s - d2 - 1))%Z
      by (apply Z.pow_le_mono_r; lia).
    lia. }
  pose proof (Z.le_min_l (fexp F32.prec F32.emax (d1 + e1 - (d2 + e2)))
                (e1 - e2)) as He'.
  fold e' in He'.
  assert (Es : s = (e1 - e2 - e')%Z) by reflexivity.
  clearbody s e'. rewrite fexp_eq in He' |- *. lia.
Qed.

Lemma div_ok (x y : spec_float) :
  F32.valid (F32.div x y) = true /\
  (F32.is_finite x = true ->
   (exists s m e, y = S754_finite s m e) ->
   F32.is_nan (F32.div x y) = false).
Proof.
  destruct x as [sx | sx | | sx mx ex];
    destruct y as [sy | sy | | sy my ey];
    try (split; [reflexivity |];
         intros Hx (s & m & e & Hy); try discriminate; reflexivity).
  unfold F32.div. cbn [SFdiv].
  destruct (SFdiv_core_binary_spec mx my ex ey)
    as (q & l & E & _ & Hq0 & Hfexp).
  rewrite E.
  destruct (binary_round_aux_ok (xorb sx sy) q _ l Hq0 Hfexp) as [V N].
  split; [exact V | intros _ _; exact N].
Qed.

Lemma of_int_ok (z : Z) :
  F32.valid (F32.of_int z) = true /\ F32.is_nan (F32.of_int z) = false.
Proof. apply binary_normalize_ok. Qed.

Lemma add_ok (x y : spec_float) :
  F32.valid x = true -> F32.valid y = true ->
  F32.valid (F32.add x y) = true /\
  (F32.is_nan x = false -> F32.is_finite y = true ->
   F32.is_nan (F32.add x y) = false).
Proof.
  intros Hx Hy.
  destruct x as [sx | sx | | sx mx ex];
    destruct y as [sy | sy | | sy my ey];
    try (split; [first [reflexivity | exact Hx | exact Hy] |];
         intros Nx Fy; try discriminate; reflexivity).
  - split; [destruct sx, sy; reflexivity |].
    intros _ _. destruct sx, sy; reflexivity.
  - split; [destruct sx, sy; reflexivity |]. intros _ Fy. discriminate Fy.
  - unfold F32.add. cbn [SFadd].
    destruct (binary_normalize_ok
                (cond_Zopp sx (Z.pos (fst (shl_align mx ex (Z.min ex ey))))
                 + cond_Zopp sy (Z.pos (fst (shl_align my ey (Z.min ex ey)))))
                (Z.min ex ey) false) as [V N].
    split; [exact V | intros _ _; exact N].
Qed.

(** The value of line 79, whatever its operands: a float of the format. *)
Lemma line_79_valid (x scale : spec_float) (zero_point : Z) :
  F32.valid (F32.add (F32.div x scale) (F32.of_int zero_point)) = true.
Proof.
  apply add_ok; [apply div_ok | apply of_int_ok].
Qed.


(** *** Lines 79-80 in binary32 *)

Lemma of_int_lo : F32.of_int (-128) = S754_finite true 8388608 (-16).
Proof. reflexivity. Qed.

Lemma of_int_hi : F32.of_int 127 = S754_finite false 16646144 (-17).
Proof. reflexivity. Qed.

Lemma to_Q_lo : F32.to_Q (S754_finite true 8388608 (-16)) == -128.
Proof. reflexivity. Qed.

Lemma to_Q_hi : F32.to_Q (S754_finite false 16646144 (-17)) == 127.
Proof. reflexivity. Qed.

Lemma drops_fraction_range (c : Q) (q : Z) :
  -128 <= c <= 127 -> Spec.drops_fraction c q -> (-128 <= q <= 127)%Z.
Proof.
  intros [Hlo Hhi] [Hp Hn].
  destruct (Qlt_le_dec c 0) as [H | H].
  - destruct Hn as [A B]; [lra |].
    assert (L1 : inject_Z (-129) < inject_Z q)
      by (change (inject_Z (-129)) with (-129 # 1); lra).
    assert (L2 : inject_Z q < inject_Z 1)
      by (change (inject_Z 1) with 1; lra).
    apply inject_Z_lt_inv in L1, L2. lia.
  - destruct (Hp H) as [A B].
    assert (L1 : inject_Z (-1) < inject_Z q)
      by (change (inject_Z (-1)) with (-1 # 1); lra).
    assert (L2 : inject_Z q < inject_Z 128)
      by (change (inject_Z 128) with 128; lra).
    apply inject_Z_lt_inv in L1, L2. lia.
Qed.

(** [np.clip(., -128, 127)] on a float of the format: an infinity goes to
    the bound on its side, a finite float is limited as the rational it
    stands for, and the result is finite. *)
Lemma clip_f32_spec (y : spec_float) :
  F32.valid y = true ->
  (y = S754_infinity false ->
   F32.clip y (F32.of_int (-128)) (F32.of_int 127) = F32.of_int 127) /\
  (y = S754_infinity true ->
   F32.clip y (F32.of_int (-128)) (F32.of_int 127) = F32.of_int (-128)) /\
  (F32.is_finite y = true ->
   F32.is_finite (F32.clip y (F32.of_int (-128)) (F32.of_int 127)) = true /\
   Spec.clipped (F32.to_Q y)
     (F32.to_Q (F32.clip y (F32.of_int (-128)) (F32.of_int 127))) /\
   -128 <= F32.to_Q (F32.clip y (F32.of_int (-128)) (F32.of_int 127))
     <= 127).
Proof.
  intros Hy. rewrite of_int_lo, of_int_hi.
  split; [intros ->; reflexivity |]. split; [intros ->; reflexivity |].
  intros Fy.
  set (lo := S754_finite true 8388608 (-16)).
  set (hi := S754_finite false 16646144 (-17)).
  assert (Vlo : F32.valid lo = true) by reflexivity.
  assert (Vhi : F32.valid hi = true) by reflexivity.
  assert (Flo : F32.is_finite lo = true) by reflexivity.
  assert (Fhi : F32.is_finite hi = true) by reflexivity.
  pose proof to_Q_lo as Qlo. pose proof to_Q_hi as Qhi.
  fold lo in Qlo. fold hi in Qhi.
  assert (Ny : F32.is_nan y = false) by (destruct y; try discriminate;
                                         reflexivity).
  unfold F32.clip, F32.maximum. rewrite Ny. cbn [F32.is_nan lo].
  pose proof (SFleb_spec y lo Hy Vlo Fy Flo) as Hle.
  destruct (SFleb y lo) eqn:E1.
  - assert (Hy1 : F32.to_Q y <= -128) by (rewrite <- Qlo; now apply Hle).
    unfold F32.minimum. cbn [F32.is_nan lo hi].
    change (SFleb lo hi) with true. cbv iota.
    split; [reflexivity |].
    split; [| rewrite Qlo; split; lra].
    unfold Spec.clipped. rewrite Qlo.
    repeat split; intros; lra.
  - assert (Hy1 : -128 < F32.to_Q y).
    { apply Qnot_le_lt. intros H. rewrite <- Qlo in H.
      apply Hle in H. discriminate H. }
    unfold F32.minimum. rewrite Ny. cbn [F32.is_nan hi].
    pose proof (SFleb_spec y hi Hy Vhi Fy Fhi) as Hle'.
    destruct (SFleb y hi) eqn:E2.
    + assert (Hy2 : F32.to_Q y <= 127) by (rewrite <- Qhi; now apply Hle').
      split; [exact Fy |].
      split; [| split; lra].
      unfold Spec.clipped. repeat split; intros; lra.
    + assert (Hy2 : 127 < F32.to_Q y).
      { apply Qnot_le_lt. intros H. rewrite <- Qhi in H.
        apply Hle' in H. discriminate H. }
      split; [reflexivity |].
      split; [| rewrite Qhi; split; lra].
      unfold Spec.clipped. rewrite Qhi. repeat split; intros; lra.
Qed.

(** The code of one element, from the float of line 79. *)
Lemma quantize_f32_cases (scale : spec_float) (zero_point : Z)
    (x : spec_float) :
  let y := F32.add (F32.div x scale) (F32.of_int zero_point) in
  let q := quantize_f32 scale zero_point x in
  (y = S754_infinity false -> q = 127%Z) /\
  (y = S754_infinity true -> q = (-128)%Z) /\
  (F32.is_finite y = true ->
   (-128 <= q <= 127)%Z /\
   exists c, Spec.clipped (F32.to_Q y) c /\ Spec.drops_fraction c q).
Proof.
  intros y q. subst q. unfold quantize_f32. fold y.
  pose proof (line_79_valid x scale zero_point) as Vy. fold y in Vy.
  destruct (clip_f32_spec y Vy) as (Hpinf & Hninf & Hfin).
  split; [intros E; rewrite (Hpinf E); reflexivity |].
  split; [intros E; rewrite (Hninf E); reflexivity |].
  intros Fy. destruct (Hfin Fy) as (Fc & Hclip & Hrange).
  pose proof (astype_int8_f32_drops_fraction _ Fc) as Hdrop.
  split.
  - exact (drops_fraction_range _ _ Hrange Hdrop).
  - eexists. split; [exact Hclip | exact Hdrop].
Qed.

(** With a finite feature, a finite non-zero scale and a zero point that
    binary32 holds as a finite float, line 79 gives no NaN. *)
Lemma line_79_not_nan (x scale : spec_float) (zero_point : Z) :
  F32.is_finite x = true ->
  (exists s m e, scale = S754_finite s m e) ->
  F32.is_finite (F32.of_int zero_point) = true ->
  F32.is_nan (F32.add (F32.div x scale) (F32.of_int zero_point)) = false.
Proof.
  intros Fx Fs Fz.
  destruct (div_ok x scale) as [Vd Nd].
  destruct (of_int_ok zero_point) as [Vz _].
  apply (proj2 (add_ok _ _ Vd Vz)); [apply Nd; assumption | exact Fz].
Qed.

End Binary32.

Section Binary32Values.
Import Py Np Int8App.

Lemma Qpower_2_add (a b : Z) : 2 ^ (a + b) == 2 ^ a * 2 ^ b.
Proof. apply Qpower_plus. discriminate. Qed.

Lemma Qpower_2_le (a b : Z) : (a <= b)%Z -> 2 ^ a <= 2 ^ b.
Proof. intros H. apply Qpower_le_compat_l; [exact H | discriminate]. Qed.

Lemma inject_Z_nonneg (z : Z) : (0 <= z)%Z -> 0 <= inject_Z z.
Proof. intros H. change 0 with (inject_Z 0). now rewrite <- Zle_Qle. Qed.

(** The error of a rounding: the float returned for a number [X] that
    lies between two consecutive multiples of [2 ^ ex] is within
    [2 ^ -23 * X + 2 ^ -149] of [X]. *)
Lemma binary_round_aux_value (sx : bool) (mx ex : Z) (lx : location)
    (X : Q) :
  (0 <= mx)%Z ->
  (ex <= fexp F32.prec F32.emax (Zdigits2 mx + ex))%Z ->
  inject_Z mx * 2 ^ ex <= X ->
  X < (inject_Z mx + 1) * 2 ^ ex ->
  (X < 2 ^ 127 ->
   F32.is_finite (binary_round_aux F32.prec F32.emax sx mx ex lx) = true) /\
  (F32.is_finite (binary_round_aux F32.prec F32.emax sx mx ex lx) = true ->
   exists a : Q,
     F32.to_Q (binary_round_aux F32.prec F32.emax sx mx ex lx)
     == (if sx then - a else a) /\
     0 <= a /\
     Qabs (a - X) <= (1 # 8388608) * X + 2 ^ (-149)).
Proof.
  intros Hmx Hex HX1 HX2.
  destruct (binary_round_aux_cases sx mx ex lx Hmx Hex)
    as (m1 & _ & Hm1 & Halt).
  rewrite fexp_eq in *.
  set (d := Zdigits2 mx) in *.
  set (e1 := Z.max (d + ex - 24) (-149)) in *.
  set (n := (e1 - ex)%Z) in *.
  assert (Hn : (0 <= n)%Z) by (subst n; lia).
  assert (Hpn : (0 < 2 ^ n)%Z) by (apply Z.pow_pos_nonneg; lia).
  set (m' := (mx / 2 ^ n)%Z) in *.
  pose proof (Z.div_mod mx (2 ^ n) ltac:(lia)) as Hdm.
  pose proof (Z.mod_pos_bound mx (2 ^ n) Hpn) as Hmod.
  fold m' in Hdm.
  assert (Hm'0 : (0 <= m')%Z) by (apply Z.div_pos; lia).
  pose proof (Qpower_2_pos ex) as HP. pose proof (Qpower_2_pos e1) as HE.
  assert (EE : 2 ^ e1 == inject_Z (2 ^ n) * 2 ^ ex).
  { replace e1 with (n + ex)%Z by (subst n; lia).
    rewrite Qpower_2_add, Qpower_2_nonneg by exact Hn. reflexivity. }
  assert (Hlow : inject_Z m' * 2 ^ e1 <= X).
  { eapply Qle_trans; [| exact HX1].
    rewrite EE, Qmult_assoc, <- inject_Z_mult.
    apply Qmult_le_compat_r; [| lra].
    rewrite <- Zle_Qle. lia. }
  assert (Hhigh : X < (inject_Z m' + 1) * 2 ^ e1).
  { eapply Qlt_le_trans; [exact HX2 |].
    rewrite EE, Qmult_assoc.
    apply Qmult_le_compat_r; [| lra].
    change 1 with (inject_Z 1).
    rewrite <- !inject_Z_plus, <- inject_Z_mult, <- Zle_Qle. lia. }
  assert (HX0 : 0 <= X).
  { eapply Qle_trans; [| exact Hlow].
    apply Qmult_le_0_compat; [apply inject_Z_nonneg; exact Hm'0 | lra]. }
  assert (Hulp : 2 ^ e1 <= (1 # 8388608) * X + 2 ^ (-149)).
  { pose proof (Qpower_2_pos (-149)) as Heta.
    destruct (Z.eq_dec e1 (-149)) as [-> | Hne]; [nra |].
    assert (He1 : e1 = (d + ex - 24)%Z) by (subst e1; lia).
    assert (Hmx1 : (0 < mx)%Z).
    { destruct (Z.eq_dec mx 0) as [E0 | N0]; [| lia].
      exfalso. subst d. rewrite E0 in *. cbn [Zdigits2] in *. lia. }
    pose proof (Zdigits2_bounds mx Hmx1) as [Dlo _]. fold d in Dlo.
    pose proof (Zdigits2_positive mx Hmx1) as Dpos. fold d in Dpos.
    assert (Hpw : 2 ^ e1 == (1 # 8388608) * (inject_Z (2 ^ (d - 1)) * 2 ^ ex)).
    { rewrite He1. replace (d + ex - 24)%Z with ((-23) + ((d - 1) + ex))%Z
        by lia.
      rewrite !Qpower_2_add, (Qpower_2_nonneg (d - 1)) by lia.
      reflexivity. }
    assert (Hle : inject_Z (2 ^ (d - 1)) * 2 ^ ex <= X).
    { eapply Qle_trans; [| exact HX1].
      apply Qmult_le_compat_r; [| lra]. rewrite <- Zle_Qle. exact Dlo. }
    rewrite Hpw. lra. }
  assert (Hm1' : inject_Z m1 == inject_Z m' \/ inject_Z m1 == inject_Z m' + 1).
  { destruct Hm1 as [-> | ->]; [left; reflexivity | right].
    rewrite inject_Z_plus. reflexivity. }
  assert (Hm10 : 0 <= inject_Z m1) by (apply inject_Z_nonneg; lia).
  split.
  { intros Hsmall.
    destruct Halt as [[_ ->] | [(m2 & e2 & -> & _) | (He104 & Hbig & _)]];
      [reflexivity | reflexivity | exfalso].
    assert (Hbig' : 2 ^ 128 <= inject_Z m1 * 2 ^ e1).
    { replace e1 with ((e1 - 104) + 104)%Z at 1 by lia.
      rewrite Qpower_2_add, (Qpower_2_nonneg (e1 - 104)) by lia.
      rewrite Qmult_assoc, <- inject_Z_mult.
      setoid_replace (2 ^ 128) with (inject_Z (2 ^ 24) * 2 ^ 104)
        by reflexivity.
      apply Qmult_le_compat_r; [| apply Qlt_le_weak, Qpower_2_pos].
      rewrite <- Zle_Qle. exact Hbig. }
    assert (HK : 2 ^ 128 == 2 * 2 ^ 127) by reflexivity.
    assert (HK2 : 2 <= 2 ^ 127) by (vm_compute; discriminate).
    assert (Heta : 2 ^ (-149) <= 1) by (vm_compute; discriminate).
    rewrite HK in Hbig'.
    set (K := 2 ^ 127) in *. set (E := 2 ^ e1) in *.
    set (eta := 2 ^ (-149)) in *.
    destruct Hm1' as [Em | Em]; rewrite Em in Hbig'; nra. }
  intros Hfin.
  exists (inject_Z m1 * 2 ^ e1).
  split; [| split].
  - destruct Halt as [[E0 ->] | [(m2 & e2 & -> & _ & He2 & Hval) | (_ & _ & E)]].
    + rewrite E0. cbn [F32.to_Q]. destruct sx; ring.
    + cbn [F32.to_Q].
      replace e2 with ((e2 - e1) + e1)%Z at 1 by lia.
      rewrite Qpower_2_add, Qpower_2_nonneg by lia.
      rewrite <- Hval, inject_Z_cond_Zopp, inject_Z_mult.
      destruct sx; ring.
    + rewrite E in Hfin. discriminate Hfin.
  - apply Qmult_le_0_compat; lra.
  - eapply Qle_trans; [| exact Hulp].
    apply Qabs_Qle_condition.
    destruct Hm1' as [E | E]; rewrite E; split; nra.
Qed.


(** *** The value of [binary_normalize] *)

Lemma binary_round_pre (mx : positive) (ex : Z) :
  let (mz, ez) := shl_align mx ex
                    (fexp F32.prec F32.emax (Z.pos (digits2_pos mx) + ex)) in
  ez = Z.min ex (fexp F32.prec F32.emax (Z.pos (digits2_pos mx) + ex)) /\
  Z.pos mz = (Z.pos mx * 2 ^ (ex - ez))%Z /\
  fexp F32.prec F32.emax (Zdigits2 (Z.pos mz) + ez)
  = fexp F32.prec F32.emax (Z.pos (digits2_pos mx) + ex) /\
  inject_Z (Z.pos mz) * 2 ^ ez == inject_Z (Z.pos mx) * 2 ^ ex.
Proof.
  pose proof (shl_align_spec mx ex
                (fexp F32.prec F32.emax (Z.pos (digits2_pos mx) + ex)))
    as H.
  destruct (shl_align mx ex _) as [mz ez]. destruct H as [Hez Hmz].
  split; [exact Hez |]. split; [exact Hmz |]. split.
  - rewrite Hmz, Zdigits2_mul_pow2 by lia.
    change (Zdigits2 (Z.pos mx)) with (Z.pos (digits2_pos mx)).
    f_equal. lia.
  - rewrite Hmz, inject_Z_mult.
    replace ex with ((ex - ez) + ez)%Z at 2 by lia.
    rewrite Qpower_2_add, (Qpower_2_nonneg (ex - ez)) by lia. ring.
Qed.

Lemma binary_round_value (sx : bool) (mx : positive) (ex : Z) :
  (inject_Z (Z.pos mx) * 2 ^ ex < 2 ^ 127 ->
   F32.is_finite (binary_round F32.prec F32.emax sx mx ex) = true) /\
  (F32.is_finite (binary_round F32.prec F32.emax sx mx ex) = true ->
   Qabs (F32.to_Q (binary_round F32.prec F32.emax sx mx ex)
         - inject_Z (cond_Zopp sx (Z.pos mx)) * 2 ^ ex)
   <= (1 # 8388608) * (inject_Z (Z.pos mx) * 2 ^ ex) + 2 ^ (-149)).
Proof.
  unfold binary_round. pose proof (binary_round_pre mx ex) as H.
  destruct (shl_align mx ex _) as [mz ez].
  destruct H as (Hez & Hmz & Hfexp & Hval).
  pose proof (Qpower_2_pos ez) as HP.
  destruct (binary_round_aux_value sx (Z.pos mz) ez loc_Exact
              (inject_Z (Z.pos mx) * 2 ^ ex)) as [Hf Hv].
  - lia.
  - rewrite Hfexp. lia.
  - rewrite Hval. lra.
  - rewrite <- Hval. nra.
  - split; [exact Hf |]. intros Hfin.
    destruct (Hv Hfin) as (a & Ha & Ha0 & Herr).
    rewrite Ha, inject_Z_cond_Zopp.
    destruct sx; [| exact Herr].
    setoid_replace (- a - - inject_Z (Z.pos mx) * 2 ^ ex)
      with (- (a - inject_Z (Z.pos mx) * 2 ^ ex)) by ring.
    rewrite Qabs_opp. exact Herr.
Qed.

Lemma binary_normalize_value (m e : Z) (sz : bool) :
  (Qabs (inject_Z m * 2 ^ e) < 2 ^ 127 ->
   F32.is_finite (binary_normalize F32.prec F32.emax m e sz) = true) /\
  (F32.is_finite (binary_normalize F32.prec F32.emax m e sz) = true ->
   Qabs (F32.to_Q (binary_normalize F32.prec F32.emax m e sz)
         - inject_Z m * 2 ^ e)
   <= (1 # 8388608) * Qabs (inject_Z m * 2 ^ e) + 2 ^ (-149)).
Proof.
  pose proof (Qpower_2_pos e) as HP.
  pose proof (Qpower_2_pos (-149)) as Heta.
  destruct m as [| p | p]; cbn [binary_normalize].
  - split; [reflexivity |]. intros _.
    cbn [F32.to_Q]. setoid_replace (0 - inject_Z 0 * 2 ^ e) with 0 by ring.
    lra.
  - pose proof (binary_round_value false p e) as [Hf H].
    cbn [cond_Zopp] in H.
    assert (E : Qabs (inject_Z (Z.pos p) * 2 ^ e)
                == inject_Z (Z.pos p) * 2 ^ e).
    { apply Qabs_pos.
      apply Qmult_le_0_compat; [apply inject_Z_nonneg; lia | lra]. }
    rewrite E. split; [exact Hf | exact H].
  - pose proof (binary_round_value true p e) as [Hf H].
    cbn [cond_Zopp] in H. change (- Z.pos p)%Z with (Z.neg p) in H.
    assert (En : inject_Z (Z.neg p) == - inject_Z (Z.pos p))
      by (change (Z.neg p) with (- Z.pos p)%Z; rewrite inject_Z_opp;
          reflexivity).
    assert (E : Qabs (inject_Z (Z.neg p) * 2 ^ e)
                == inject_Z (Z.pos p) * 2 ^ e).
    { rewrite Qabs_neg.
      - rewrite En. ring.
      - rewrite En.
        assert (0 <= inject_Z (Z.pos p)) by (apply inject_Z_nonneg; lia).
        nra. }
    rewrite E. split; [exact Hf | exact H].
Qed.

(** *** The error of the four operations *)

Lemma error_of_exact (u v : Q) :
  u == v -> Qabs (u - v) <= (1 # 8388608) * Qabs v + 2 ^ (-149).
Proof.
  intros E. pose proof (Qpower_2_pos (-149)) as Heta.
  pose proof (Qabs_nonneg v) as Hv.
  setoid_replace (u - v) with 0 by (rewrite E; ring).
  change (Qabs 0) with 0. lra.
Qed.

Lemma of_int_value (z : Z) :
  (Qabs (inject_Z z) < 2 ^ 127 -> F32.is_finite (F32.of_int z) = true) /\
  (F32.is_finite (F32.of_int z) = true ->
   Qabs (F32.to_Q (F32.of_int z) - inject_Z z)
   <= (1 # 8388608) * Qabs (inject_Z z) + 2 ^ (-149)).
Proof.
  unfold F32.of_int.
  pose proof (binary_normalize_value z 0 false) as [Hf Hv].
  assert (E : inject_Z z * 2 ^ 0 == inject_Z z) by (cbn; ring).
  rewrite E in Hf, Hv. split; assumption.
Qed.

Lemma aligned_value (s : bool) (m : positive) (e ez : Z) :
  (ez <= e)%Z ->
  inject_Z (cond_Zopp s (Z.pos (fst (shl_align m e ez)))) * 2 ^ ez
  == F32.to_Q (S754_finite s m e).
Proof.
  intros H. pose proof (shl_align_spec m e ez) as Hs.
  destruct (shl_align m e ez) as [mz ez']. destruct Hs as [Hez Hmz].
  cbn [fst F32.to_Q]. rewrite !inject_Z_cond_Zopp, Hmz, inject_Z_mult.
  replace ez' with ez in * by lia.
  assert (P : 2 ^ e == inject_Z (2 ^ (e - ez)) * 2 ^ ez).
  { replace e with ((e - ez) + ez)%Z at 1 by lia.
    rewrite Qpower_2_add, (Qpower_2_nonneg (e - ez)) by lia. reflexivity. }
  destruct s; rewrite P; ring.
Qed.

Lemma add_value (a b : spec_float) :
  F32.is_finite a = true -> F32.is_finite b = true ->
  (Qabs (F32.to_Q a + F32.to_Q b) < 2 ^ 127 ->
   F32.is_finite (F32.add a b) = true) /\
  (F32.is_finite (F32.add a b) = true ->
   Qabs (F32.to_Q (F32.add a b) - (F32.to_Q a + F32.to_Q b))
   <= (1 # 8388608) * Qabs (F32.to_Q a + F32.to_Q b) + 2 ^ (-149)).
Proof.
  destruct a as [sa | sa | | sa ma ea]; try discriminate;
    destruct b as [sb | sb | | sb mb eb]; try discriminate; intros _ _.
  - split; [destruct sa, sb; reflexivity |]. intros _.
    apply error_of_exact. destruct sa, sb; cbn; ring.
  - split; [reflexivity |]. intros _.
    apply error_of_exact. unfold F32.add. cbn [SFadd F32.to_Q]. ring.
  - split; [reflexivity |]. intros _.
    apply error_of_exact. unfold F32.add. cbn [SFadd F32.to_Q]. ring.
  - unfold F32.add. cbn [SFadd].
    set (ez := Z.min ea eb).
    pose proof (binary_normalize_value
                  (cond_Zopp sa (Z.pos (fst (shl_align ma ea ez)))
                   + cond_Zopp sb (Z.pos (fst (shl_align mb eb ez))))
                  ez false) as H.
    assert (E : inject_Z
                  (cond_Zopp sa (Z.pos (fst (shl_align ma ea ez)))
                   + cond_Zopp sb (Z.pos (fst (shl_align mb eb ez))))
                * 2 ^ ez
                == F32.to_Q (S754_finite sa ma ea)
                   + F32.to_Q (S754_finite sb mb eb)).
    { rewrite inject_Z_plus, Qmult_plus_distr_l.
      rewrite !aligned_value by (subst ez; lia). reflexivity. }
    rewrite E in H. exact H.
Qed.

Lemma sub_value (a b : spec_float) :
  F32.is_finite a = true -> F32.is_finite b = true ->
  (Qabs (F32.to_Q a - F32.to_Q b) < 2 ^ 127 ->
   F32.is_finite (F32.sub a b) = true) /\
  (F32.is_finite (F32.sub a b) = true ->
   Qabs (F32.to_Q (F32.sub a b) - (F32.to_Q a - F32.to_Q b))
   <= (1 # 8388608) * Qabs (F32.to_Q a - F32.to_Q b) + 2 ^ (-149)).
Proof.
  destruct a as [sa | sa | | sa ma ea]; try discriminate;
    destruct b as [sb | sb | | sb mb eb]; try discriminate; intros _ _.
  - split; [destruct sa, sb; reflexivity |]. intros _.
    apply error_of_exact. destruct sa, sb; cbn; ring.
  - split; [reflexivity |]. intros _.
    apply error_of_exact. unfold F32.sub. cbn [SFsub F32.to_Q].
    rewrite !inject_Z_cond_Zopp. destruct sb; cbn [negb]; ring.
  - split; [reflexivity |]. intros _.
    apply error_of_exact. unfold F32.sub. cbn [SFsub F32.to_Q]. ring.
  - unfold F32.sub. cbn [SFsub].
    set (ez := Z.min ea eb).
    pose proof (binary_normalize_value
                  (cond_Zopp sa (Z.pos (fst (shl_align ma ea ez)))
                   - cond_Zopp sb (Z.pos (fst (shl_align mb eb ez))))
                  ez false) as H.
    assert (E : inject_Z
                  (cond_Zopp sa (Z.pos (fst (shl_align ma ea ez)))
                   - cond_Zopp sb (Z.pos (fst (shl_align mb eb ez))))
                * 2 ^ ez
                == F32.to_Q (S754_finite sa ma ea)
                   - F32.to_Q (S754_finite sb mb eb)).
    { unfold Z.sub. rewrite inject_Z_plus, inject_Z_opp.
      rewrite <- !aligned_value with (ez := ez) by (subst ez; lia). ring. }
    rewrite E in H. exact H.
Qed.

(** A finite sum has finite terms. *)
Lemma add_finite_inv (a b : spec_float) :
  F32.is_finite (F32.add a b) = true ->
  F32.is_finite a = true /\ F32.is_finite b = true.
Proof.
  destruct a as [sa | sa | | sa ma ea];
    destruct b as [sb | sb | | sb mb eb];
    try (intros H; split; first [reflexivity | discriminate H]);
    try (destruct sa, sb; intros H; discriminate H).
Qed.


Lemma Qabs_signed (sx : bool) (a X : Q) :
  Qabs ((if sx then - a else a) - (if sx then - X else X)) == Qabs (a - X).
Proof.
  destruct sx; [| reflexivity].
  setoid_replace (- a - - X) with (- (a - X)) by ring.
  apply Qabs_opp.
Qed.

Lemma div_value (v : spec_float) (ms : positive) (es : Z) :
  F32.is_finite v = true ->
  (Qabs (F32.to_Q v / F32.to_Q (S754_finite false ms es)) < 2 ^ 127 ->
   F32.is_finite (F32.div v (S754_finite false ms es)) = true) /\
  (F32.is_finite (F32.div v (S754_finite false ms es)) = true ->
   Qabs (F32.to_Q (F32.div v (S754_finite false ms es))
         - F32.to_Q v / F32.to_Q (S754_finite false ms es))
   <= (1 # 8388608)
      * Qabs (F32.to_Q v / F32.to_Q (S754_finite false ms es))
      + 2 ^ (-149)).
Proof.
  destruct v as [sv | sv | | sv mv ev]; try discriminate; intros _.
  - split; [reflexivity |]. intros _. apply error_of_exact.
    unfold F32.div. cbn [SFdiv F32.to_Q]. unfold Qdiv. ring.
  - unfold F32.div. cbn [SFdiv].
    destruct (SFdiv_core_binary_spec mv ms ev es)
      as (q & l & E & Hq & Hq0 & Hfexp).
    rewrite E, Bool.xorb_false_r.
    set (e' := Z.min (fexp F32.prec F32.emax
                        (Zdigits2 (Z.pos mv) + ev
                         - (Zdigits2 (Z.pos ms) + es))) (ev - es)) in *.
    set (s := (ev - es - e')%Z) in *.
    assert (Hs : (0 <= s)%Z) by (subst s e'; lia).
    assert (Hps : (0 < 2 ^ s)%Z) by (apply Z.pow_pos_nonneg; lia).
    pose proof (Z.div_mod (Z.pos mv * 2 ^ s) (Z.pos ms) ltac:(lia)) as Hdm.
    pose proof (Z.mod_pos_bound (Z.pos mv * 2 ^ s) (Z.pos ms) ltac:(lia))
      as Hmod.
    rewrite <- Hq in Hdm.
    set (r := ((Z.pos mv * 2 ^ s) mod Z.pos ms)%Z) in *.
    pose proof (Qpower_2_pos ev) as Pev. pose proof (Qpower_2_pos es) as Pes.
    pose proof (Qpower_2_pos e') as Pe'.
    assert (Hms : 0 < inject_Z (Z.pos ms))
      by (change 0 with (inject_Z 0); rewrite <- Zlt_Qlt; lia).
    assert (Hmv : 0 < inject_Z (Z.pos mv))
      by (change 0 with (inject_Z 0); rewrite <- Zlt_Qlt; lia).
    set (X := inject_Z (Z.pos mv) * 2 ^ ev / (inject_Z (Z.pos ms) * 2 ^ es)).
    assert (HX : X == inject_Z (Z.pos mv * 2 ^ s) / inject_Z (Z.pos ms)
                      * 2 ^ e').
    { subst X. rewrite inject_Z_mult.
      assert (P : 2 ^ ev == inject_Z (2 ^ s) * 2 ^ e' * 2 ^ es).
      { replace ev with (s + e' + es)%Z at 1 by (subst s; lia).
        rewrite !Qpower_2_add, (Qpower_2_nonneg s) by lia. reflexivity. }
      rewrite P. field. split; lra. }
    assert (HXlo : inject_Z q * 2 ^ e' <= X).
    { rewrite HX. apply Qmult_le_compat_r; [| lra].
      apply Qle_shift_div_l; [exact Hms |].
      rewrite <- inject_Z_mult, <- Zle_Qle. lia. }
    assert (HXhi : X < (inject_Z q + 1) * 2 ^ e').
    { rewrite HX. apply Qmult_lt_compat_r; [lra |].
      apply Qlt_shift_div_r; [exact Hms |].
      change 1 with (inject_Z 1).
      rewrite <- inject_Z_plus, <- inject_Z_mult, <- Zlt_Qlt. lia. }
    assert (HX0 : 0 <= X).
    { eapply Qle_trans; [| exact HXlo].
      apply Qmult_le_0_compat; [apply inject_Z_nonneg; exact Hq0 | lra]. }
    assert (HV : F32.to_Q (S754_finite sv mv ev)
                 / F32.to_Q (S754_finite false ms es)
                 == if sv then - X else X).
    { subst X. cbn [F32.to_Q cond_Zopp]. rewrite inject_Z_cond_Zopp.
      destruct sv; field; split; lra. }
    rewrite HV.
    assert (HabsV : Qabs (if sv then - X else X) == X).
    { destruct sv; [rewrite Qabs_opp |]; apply Qabs_pos; exact HX0. }
    rewrite HabsV.
    destruct (binary_round_aux_value sv q e' l X Hq0 Hfexp HXlo HXhi)
      as [Hf Hv].
    split; [exact Hf |]. intros Hfin.
    destruct (Hv Hfin) as (a & Ha & _ & Herr).
    rewrite Ha, Qabs_signed. exact Herr.
Qed.

Lemma mul_value (t : spec_float) (ms : positive) (es : Z) :
  F32.is_finite t = true ->
  (2 ^ 23 <= Z.pos ms)%Z ->
  (Qabs (F32.to_Q t * F32.to_Q (S754_finite false ms es)) < 2 ^ 127 ->
   F32.is_finite (F32.mul t (S754_finite false ms es)) = true) /\
  (F32.is_finite (F32.mul t (S754_finite false ms es)) = true ->
   Qabs (F32.to_Q (F32.mul t (S754_finite false ms es))
         - F32.to_Q t * F32.to_Q (S754_finite false ms es))
   <= (1 # 8388608)
      * Qabs (F32.to_Q t * F32.to_Q (S754_finite false ms es))
      + 2 ^ (-149)).
Proof.
  destruct t as [st | st | | st mt et]; try discriminate; intros _ Hnorm.
  - split; [reflexivity |]. intros _. apply error_of_exact.
    unfold F32.mul. cbn [SFmul F32.to_Q]. ring.
  - unfold F32.mul. cbn [SFmul]. rewrite Bool.xorb_false_r.
    pose proof (Qpower_2_pos (et + es)) as Pe.
    set (X := inject_Z (Z.pos (mt * ms)) * 2 ^ (et + es)).
    assert (HX0 : 0 <= X).
    { apply Qmult_le_0_compat; [apply inject_Z_nonneg; lia | lra]. }
    assert (HV : F32.to_Q (S754_finite st mt et)
                 * F32.to_Q (S754_finite false ms es)
                 == if st then - X else X).
    { subst X. cbn [F32.to_Q cond_Zopp].
      rewrite inject_Z_cond_Zopp, Pos2Z.inj_mul.
      pose proof (Qpower_2_add et es) as P.
      pose proof (inject_Z_mult (Z.pos mt) (Z.pos ms)) as M.
      destruct st; rewrite P, M; ring. }
    rewrite HV.
    assert (HabsV : Qabs (if st then - X else X) == X).
    { destruct st; [rewrite Qabs_opp |]; apply Qabs_pos; exact HX0. }
    rewrite HabsV.
    assert (Hd : (24 <= Zdigits2 (Z.pos (mt * ms)))%Z).
    { change 24%Z with (Zdigits2 (2 ^ 23)).
      apply Zdigits2_le. split; [apply Z.pow_nonneg; lia |].
      rewrite Pos2Z.inj_mul. nia. }
    destruct (binary_round_aux_value st (Z.pos (mt * ms)) (et + es)
                loc_Exact X) as [Hf Hv].
    + lia.
    + rewrite fexp_eq. lia.
    + subst X. lra.
    + subst X. nra.
    + split; [exact Hf |]. intros Hfin.
      destruct (Hv Hfin) as (a & Ha & _ & Herr).
      rewrite Ha, Qabs_signed. exact Herr.
Qed.

End Binary32Values.

Section RoundTrip.
Import Py Np Int8App.

(** The distance of the code from the float of line 79. *)
Lemma quantize_f32_distance (scale : spec_float) (zero_point : Z)
    (x : spec_float) :
  let y := F32.add (F32.div x scale) (F32.of_int zero_point) in
  let q := quantize_f32 scale zero_point x in
  F32.is_finite y = true ->
  (-128 <= q <= 127)%Z /\
  (F32.to_Q y <= -128 -> q = (-128)%Z) /\
  (127 <= F32.to_Q y -> q = 127%Z) /\
  (-128 <= F32.to_Q y <= 127 -> Spec.drops_fraction (F32.to_Q y) q) /\
  (Qabs (inject_Z q - F32.to_Q y) < 1
   <-> -129 < F32.to_Q y /\ F32.to_Q y < 128).
Proof.
  intros y q Fy.
  destruct (quantize_f32_cases scale zero_point x) as (_ & _ & Hfin).
  fold y in Hfin. fold q in Hfin.
  destruct (Hfin Fy) as (Hq & c & (Clo & Chi & Cmid) & Hdrop).
  assert (Hlo : F32.to_Q y <= -128 -> q = (-128)%Z).
  { intros H. apply (drops_fraction_unique c); [exact Hdrop |].
    apply (drops_fraction_Qeq (inject_Z (-128)));
      [rewrite (Clo H); reflexivity | apply drops_fraction_integer]. }
  assert (Hhi : 127 <= F32.to_Q y -> q = 127%Z).
  { intros H. apply (drops_fraction_unique c); [exact Hdrop |].
    apply (drops_fraction_Qeq (inject_Z 127));
      [rewrite (Chi H); reflexivity | apply drops_fraction_integer]. }
  assert (Hmid : -128 <= F32.to_Q y <= 127 ->
                 Spec.drops_fraction (F32.to_Q y) q).
  { intros H. apply (drops_fraction_Qeq c); [apply Cmid, H | exact Hdrop]. }
  split; [exact Hq |]. split; [exact Hlo |]. split; [exact Hhi |].
  split; [exact Hmid |].
  destruct (Qlt_le_dec (F32.to_Q y) (-128)) as [L | L].
  - rewrite (Hlo (Qlt_le_weak _ _ L)).
    change (inject_Z (-128)) with (-128).
    split.
    + intros H. apply Qabs_Qlt_condition in H. lra.
    + intros [H1 H2]. apply Qabs_Qlt_condition. lra.
  - destruct (Qlt_le_dec 127 (F32.to_Q y)) as [G | G].
    + rewrite (Hhi (Qlt_le_weak _ _ G)).
      change (inject_Z 127) with 127.
      split.
      * intros H. apply Qabs_Qlt_condition in H. lra.
      * intros [H1 H2]. apply Qabs_Qlt_condition. lra.
    + destruct (Hmid (conj L G)) as [Hp Hn].
      split; [intros _; lra | intros _].
      apply Qabs_Qlt_condition.
      destruct (Qlt_le_dec (F32.to_Q y) 0) as [N | N].
      * destruct Hn as [A B]; [lra |]. lra.
      * destruct (Hp N) as [A B]. lra.
Qed.


Lemma Qabs_cases (x : Q) :
  (0 <= x /\ Qabs x == x) \/ (x <= 0 /\ Qabs x == - x).
Proof.
  destruct (Qlt_le_dec x 0) as [H | H].
  - right. split; [lra | apply Qabs_neg; lra].
  - left. split; [exact H | apply Qabs_pos; exact H].
Qed.

Lemma eta_small : 2 ^ (-149) <= 1 # 1000000000.
Proof. vm_compute. discriminate. Qed.

(** From the float to the number it was rounded from, and back. *)
Lemma bound_of_rounded (a w c : Q) :
  Qabs (a - w) <= (1 # 8388608) * Qabs w + 2 ^ (-149) ->
  Qabs a <= c -> c <= 1000 ->
  Qabs w <= c + (1 # 1000).
Proof.
  intros H Ha Hc. pose proof eta_small as He.
  pose proof (Qpower_2_pos (-149)) as He0.
  set (eta := 2 ^ (-149)) in *.
  apply Qabs_Qle_condition in H. apply Qabs_Qle_condition in Ha.
  destruct (Qabs_cases w) as [[Hw E] | [Hw E]]; rewrite E in *; lra.
Qed.

Lemma bound_of_exact (a w c : Q) :
  Qabs (a - w) <= (1 # 8388608) * Qabs w + 2 ^ (-149) ->
  Qabs w <= c -> c <= 1000 ->
  Qabs a <= c + (1 # 1000) /\
  Qabs (a - w) <= (1 # 8388608) * c + 2 ^ (-149).
Proof.
  intros H Hw Hc. pose proof eta_small as He.
  pose proof (Qpower_2_pos (-149)) as He0.
  set (eta := 2 ^ (-149)) in *.
  assert (H' : Qabs (a - w) <= (1 # 8388608) * c + eta) by lra.
  split; [| exact H'].
  apply Qabs_Qle_condition in H'. apply Qabs_Qle_condition in Hw.
  apply Qabs_Qle_condition. lra.
Qed.

Lemma scale_inv (scale : spec_float) :
  F32.valid scale = true ->
  2 ^ (-126) <= F32.to_Q scale ->
  exists (ms : positive) (es : Z),
    scale = S754_finite false ms es /\ (2 ^ 23 <= Z.pos ms)%Z.
Proof.
  intros Hv Hs. pose proof (Qpower_2_pos (-126)) as Hp.
  destruct scale as [s | s | | s m e]; cbn [F32.to_Q] in Hs; try lra.
  pose proof (Qpower_2_pos e) as He.
  assert (Hm : 0 < inject_Z (Z.pos m))
    by (change 0 with (inject_Z 0); rewrite <- Zlt_Qlt; lia).
  destruct s; cbn [cond_Zopp] in Hs.
  - exfalso. change (- Z.pos m)%Z with (Z.neg m) in Hs.
    assert (E : inject_Z (Z.neg m) == - inject_Z (Z.pos m))
      by (change (Z.neg m) with (- Z.pos m)%Z; rewrite inject_Z_opp;
          reflexivity).
    rewrite E in Hs. nra.
  - exists m, e. split; [reflexivity |].
    apply valid_finite_inv in Hv. destruct Hv as (Hr & _ & Hn).
    destruct (Z.eq_dec e (-149)) as [-> | Hne]; [| apply Hn; lia].
    assert (E : 2 ^ (-126) == inject_Z (2 ^ 23) * 2 ^ (-149))
      by reflexivity.
    rewrite E in Hs.
    apply Qmult_le_r in Hs; [| exact He].
    rewrite <- Zle_Qle in Hs. exact Hs.
Qed.

Lemma div_finite_inv (v : spec_float) (ms : positive) (es : Z) :
  F32.is_finite (F32.div v (S754_finite false ms es)) = true ->
  F32.is_finite v = true.
Proof. destruct v; intros H; first [reflexivity | discriminate H]. Qed.

(** The round trip of a value that is not clipped: the value comes back
    finite and less than [1 + 2 ^ -12] steps away. *)
Lemma roundtrip_f32_bound (scale v : spec_float) (zero_point : Z) :
  F32.valid scale = true ->
  2 ^ (-126) <= F32.to_Q scale ->
  F32.to_Q scale <= 2 ^ 100 ->
  (-128 <= zero_point <= 127)%Z ->
  F32.is_finite (F32.add (F32.div v scale) (F32.of_int zero_point)) = true ->
  -128 <= F32.to_Q (F32.add (F32.div v scale) (F32.of_int zero_point))
    <= 127 ->
  F32.is_finite
    (dequantize_f32 scale zero_point (quantize_f32 scale zero_point v))
  = true /\
  Qabs (F32.to_Q (dequantize_f32 scale zero_point
                    (quantize_f32 scale zero_point v))
        - F32.to_Q v)
  < (1 + (1 # 4096)) * F32.to_Q scale.
Proof.
  intros Vs Smin Smax Hzp Fy Hy.
  destruct (scale_inv scale Vs Smin) as (ms & es & -> & Hnorm).
  set (scale := S754_finite false ms es) in *.
  pose proof (quantize_f32_distance scale zero_point v Fy)
    as (Hq & _ & _ & Hdrop & _).
  specialize (Hdrop Hy).
  set (q := quantize_f32 scale zero_point v) in *.
  set (d := F32.div v scale) in *. set (b := F32.of_int zero_point) in *.
  set (y := F32.add d b) in *.
  destruct (add_finite_inv d b Fy) as [Fd Fb].
  pose proof (div_finite_inv v ms es Fd) as Fv.
  pose proof (proj2 (div_value v ms es Fv) Fd) as Ed.
  pose proof (proj2 (of_int_value zero_point) Fb) as Eb.
  pose proof (proj2 (add_value d b Fd Fb) Fy) as Ey.
  fold scale in Ed. fold d in Ed. fold b in Eb. fold y in Ey.
  pose proof eta_small as He. pose proof (Qpower_2_pos (-149)) as He0.
  assert (HS0 : 0 < F32.to_Q scale).
  { pose proof (Qpower_2_pos (-126)). lra. }
  set (S := F32.to_Q scale) in *. set (V := F32.to_Q v) in *.
  set (X := V / S) in *.
  assert (HV : V == X * S) by (subst X; field; lra).
  set (D := F32.to_Q d) in *. set (B := F32.to_Q b) in *.
  set (Y := F32.to_Q y) in *.
  (* the magnitudes, from the clipped range backwards *)
  assert (AY : Qabs Y <= 128) by (apply Qabs_Qle_condition; lra).
  assert (AZ : Qabs (inject_Z zero_point) <= 128).
  { apply Qabs_Qle_condition.
    change (- (128)) with (inject_Z (-128)). change 128 with (inject_Z 128).
    rewrite <- !Zle_Qle. lia. }
  destruct (bound_of_exact B (inject_Z zero_point) 128 Eb AZ ltac:(lra))
    as [AB _].
  pose proof (bound_of_rounded Y (D + B) 128 Ey AY ltac:(lra)) as AW.
  destruct (bound_of_exact Y (D + B) (128 + (1 # 1000)) Ey AW ltac:(lra))
    as [_ Ey'].
  assert (AD : Qabs D <= 258).
  { apply Qabs_Qle_condition in AW. apply Qabs_Qle_condition in AB.
    apply Qabs_Qle_condition. lra. }
  pose proof (bound_of_rounded D X 258 Ed AD ltac:(lra)) as AX.
  destruct (bound_of_exact D X (258 + (1 # 1000)) Ed AX ltac:(lra))
    as [_ Ed'].
  (* the code and its float *)
  assert (Hqy : Qabs (inject_Z q - Y) < 1).
  { apply Qabs_Qlt_condition. destruct Hdrop as [Hp Hn].
    destruct (Qlt_le_dec Y 0) as [N | N].
    - destruct Hn as [A1 A2]; lra.
    - destruct (Hp N) as [A1 A2]. lra. }
  assert (AQ : Qabs (inject_Z q) <= 128).
  { apply Qabs_Qle_condition.
    change (- (128)) with (inject_Z (-128)). change 128 with (inject_Z 128).
    rewrite <- !Zle_Qle. lia. }
  assert (Hbig : 1000 < 2 ^ 127) by (vm_compute; reflexivity).
  destruct (of_int_value q) as [Fqf' Eqf'].
  assert (Fqf : F32.is_finite (F32.of_int q) = true) by (apply Fqf'; lra).
  specialize (Eqf' Fqf). clear Fqf'.
  set (qf := F32.of_int q) in *. set (Qf := F32.to_Q qf) in *.
  destruct (bound_of_exact Qf (inject_Z q) 128 Eqf' AQ ltac:(lra))
    as [AQf Eqf].
  assert (AQB : Qabs (Qf - B) <= 258).
  { apply Qabs_Qle_condition in AQf. apply Qabs_Qle_condition in AB.
    apply Qabs_Qle_condition. lra. }
  destruct (sub_value qf b Fqf Fb) as [Ft' Et'].
  fold Qf in Ft', Et'. fold B in Ft', Et'.
  assert (Ft : F32.is_finite (F32.sub qf b) = true) by (apply Ft'; lra).
  specialize (Et' Ft). clear Ft'.
  set (t := F32.sub qf b) in *. set (T := F32.to_Q t) in *.
  destruct (bound_of_exact T (Qf - B) 258 Et' AQB ltac:(lra)) as [AT Et].
  (* the product *)
  unfold dequantize_f32. fold qf. fold b. fold t.
  destruct (mul_value t ms es Ft Hnorm) as [Fr' Er'].
  fold scale in Fr', Er'. fold T in Fr', Er'. fold S in Fr', Er'.
  assert (ATS : Qabs (T * S) <= 259 * S).
  { rewrite Qabs_Qmult, (Qabs_pos S) by lra.
    apply Qmult_le_compat_r; lra. }
  assert (HK : 259 * 2 ^ 100 < 2 ^ 127) by (vm_compute; reflexivity).
  assert (Fr : F32.is_finite (F32.mul t scale) = true).
  { apply Fr'. set (K := 2 ^ 100) in *. set (K' := 2 ^ 127) in *. lra. }
  specialize (Er' Fr). clear Fr'.
  split; [exact Fr |].
  set (R := F32.to_Q (F32.mul t scale)) in *.
  assert (Er : Qabs (R - T * S) <= (1 # 8388608) * (259 * S) + 2 ^ (-149))
    by lra.
  assert (HetaS : 2 ^ (-149) <= (1 # 8388608) * S).
  { assert (E : 2 ^ (-149) == (1 # 8388608) * 2 ^ (-126)) by reflexivity.
    rewrite E. lra. }
  set (eta := 2 ^ (-149)) in *.
  (* the sum of the errors *)
  apply Qabs_Qle_condition in Ey', Ed', Eqf, Et, Er.
  apply Qabs_Qlt_condition in Hqy.
  assert (Hu : - (1 + (1 # 8192)) < T - X /\ T - X < 1 + (1 # 8192)) by lra.
  destruct Hu as [Hu1 Hu2].
  assert (Hp1 : (T - X) * S < (1 + (1 # 8192)) * S)
    by (apply Qmult_lt_compat_r; lra).
  assert (Hp2 : - (1 + (1 # 8192)) * S < (T - X) * S)
    by (apply Qmult_lt_compat_r; lra).
  apply Qabs_Qlt_condition. rewrite HV.
  setoid_replace (R - X * S) with ((R - T * S) + (T - X) * S) by ring.
  lra.
Qed.

End RoundTrip.

(** ** The quantizer of the mel front end, in binary32 *)

Section QuantizerClaims.
Import Py Np Int8App.

Lemma not_nan_cases (y : spec_float) :
  F32.is_nan y = false ->
  F32.is_finite y = true \/
  y = S754_infinity false \/ y = S754_infinity true.
Proof.
  destruct y as [s | [|] | | s m e]; intros H; try discriminate H; auto.
Qed.

Lemma finite_nonzero_inv (scale : spec_float) :
  F32.is_finite scale = true -> ~ F32.to_Q scale == 0 ->
  exists s m e, scale = S754_finite s m e.
Proof.
  destruct scale as [s | s | | s m e]; intros Hf Hz; try discriminate Hf.
  - exfalso. apply Hz. reflexivity.
  - exists s, m, e. reflexivity.
Qed.

(** C1 (as amended).  When the input type of the model is int8, with a
    finite non-zero scale and a zero point in the range of an int8, every
    finite element [x] of a float32 tensor gets the code computed thus:
    [y = x / scale + zero_point] in binary32, two roundings, is no NaN; an
    infinite [y] gets the bound on its side, 127 or -128; a finite [y] is
    limited to [-128, 127] and the cast then drops the fractional part of
    that value.  The code is an int8 in every case, and the tensor keeps
    its shape.  The cast truncates toward zero: it does not round to the
    nearest integer. *)
Theorem quantizer_clips_then_truncates
    (input_dtype : dtype) (scale : spec_float) (zero_point : Z)
    (mel_db : array spec_float) :
  input_dtype = int8 ->
  F32.is_finite scale = true ->
  ~ F32.to_Q scale == 0 ->
  (-128 <= zero_point <= 127)%Z ->
  Forall (fun x => F32.is_finite x = true) (data mel_db) ->
  exists out : array Z,
    quantize_input_f32 input_dtype scale zero_point mel_db = inr out /\
    shape out = shape mel_db /\
    Forall2
      (fun x q =>
         F32.is_nan (F32.add (F32.div x scale) (F32.of_int zero_point))
         = false /\
         (-128 <= q <= 127)%Z /\
         (F32.add (F32.div x scale) (F32.of_int zero_point)
          = S754_infinity false -> q = 127%Z) /\
         (F32.add (F32.div x scale) (F32.of_int zero_point)
          = S754_infinity true -> q = (-128)%Z) /\
         (F32.is_finite
            (F32.add (F32.div x scale) (F32.of_int zero_point)) = true ->
          exists c,
            Spec.clipped
              (F32.to_Q (F32.add (F32.div x scale)
                                 (F32.of_int zero_point))) c /\
            Spec.drops_fraction c q))
      (data mel_db) (data out).
Proof.
  intros Hdt Fs Hs Hzp Hall.
  destruct (finite_nonzero_inv scale Fs Hs) as (s & m & e & Es).
  assert (Fz : F32.is_finite (F32.of_int zero_point) = true).
  { apply (proj1 (of_int_value zero_point)).
    assert (Hbig : 1000 < 2 ^ 127) by (vm_compute; reflexivity).
    assert (A : Qabs (inject_Z zero_point) <= 128).
    { apply Qabs_Qle_condition.
      change (- (128)) with (inject_Z (-128)).
      change 128 with (inject_Z 128).
      rewrite <- !Zle_Qle. lia. }
    lra. }
  exists (map_array (quantize_f32 scale zero_point) mel_db).
  unfold quantize_input_f32. rewrite Hdt. cbn [dtype_eqb].
  split; [reflexivity |]. split; [reflexivity |].
  unfold map_array. cbn [data]. apply Forall2_map_r.
  rewrite Forall_forall in *. intros x Hx.
  pose proof (line_79_not_nan x scale zero_point (Hall x Hx)
                (ex_intro _ s (ex_intro _ m (ex_intro _ e Es))) Fz) as Hn.
  destruct (quantize_f32_cases scale zero_point x) as (Hp & Hm & Hf).
  split; [exact Hn |].
  split; [| split; [exact Hp | split; [exact Hm |]]].
  - destruct (not_nan_cases _ Hn) as [F | [I | I]].
    + apply Hf, F.
    + rewrite (Hp I). lia.
    + rewrite (Hm I). lia.
  - intros F. apply Hf, F.
Qed.

Lemma quantizer_clips_then_truncates_witness :
  exists out : array Z,
    quantize_input_f32 int8 (F32.dyadic 1 (-8)) (-128)
      (mk_array [1; 1; 1; 2]%nat [F32.of_int 0; F32.dyadic 305 (-10)])
    = inr out /\
    shape out
    = shape (mk_array [1; 1; 1; 2]%nat
               [F32.of_int 0; F32.dyadic 305 (-10)]) /\
    Forall2
      (fun x q =>
         F32.is_nan (F32.add (F32.div x (F32.dyadic 1 (-8)))
                             (F32.of_int (-128)))
         = false /\
         (-128 <= q <= 127)%Z /\
         (F32.add (F32.div x (F32.dyadic 1 (-8))) (F32.of_int (-128))
          = S754_infinity false -> q = 127%Z) /\
         (F32.add (F32.div x (F32.dyadic 1 (-8))) (F32.of_int (-128))
          = S754_infinity true -> q = (-128)%Z) /\
         (F32.is_finite
            (F32.add (F32.div x (F32.dyadic 1 (-8))) (F32.of_int (-128)))
          = true ->
          exists c,
            Spec.clipped
              (F32.to_Q (F32.add (F32.div x (F32.dyadic 1 (-8)))
                                 (F32.of_int (-128)))) c /\
            Spec.drops_fraction c q))
      (data (mk_array [1; 1; 1; 2]%nat
               [F32.of_int 0; F32.dyadic 305 (-10)]))
      (data out).
Proof.
  apply (quantizer_clips_then_truncates int8 (F32.dyadic 1 (-8)) (-128)
           (mk_array [1; 1; 1; 2]%nat
              [F32.of_int 0; F32.dyadic 305 (-10)])).
  - reflexivity.
  - reflexivity.
  - intros H. vm_compute in H. discriminate H.
  - lia.
  - repeat constructor.
Defined.

(** C1, as stated, fails: with scale 1/256 and zero point -128 the sample
    305/1024 gives, in binary32 and without any rounding error, the value
    -51.75, which the cast turns into -51, while the nearest integer is
    -52. *)
Lemma quantizer_does_not_round :
  F32.to_Q (F32.dyadic 1 (-8)) == 1 # 256 /\
  F32.to_Q (F32.dyadic 305 (-10)) == 305 # 1024 /\
  F32.to_Q (F32.add (F32.div (F32.dyadic 305 (-10)) (F32.dyadic 1 (-8)))
                    (F32.of_int (-128)))
  == - (207 # 4) /\
  quantize_input_f32 int8 (F32.dyadic 1 (-8)) (-128)
    (mk_array [1]%nat [F32.dyadic 305 (-10)])
  = inr (mk_array [1]%nat [(-51)%Z]) /\
  ~ Spec.nearest_integer (- (207 # 4)) (-51) /\
  Spec.nearest_integer (- (207 # 4)) (-52).
Proof.
  split; [reflexivity |]. split; [reflexivity |]. split; [reflexivity |].
  split; [reflexivity |]. split.
  - intros H. specialize (H (-52)%Z). vm_compute in H. apply H. reflexivity.
  - intros k. unfold Spec.nearest_integer.
    setoid_replace (- (207 # 4) - inject_Z (-52)) with (1 # 4)
      by reflexivity.
    change (Qabs (1 # 4)) with (1 # 4).
    apply Qabs_case; intros Hs.
    + destruct (Z_le_gt_dec k (-52)) as [L | G].
      * assert (inject_Z k <= inject_Z (-52)) by (rewrite <- Zle_Qle; lia).
        change (inject_Z (-52)) with (-52 # 1) in *. lra.
      * exfalso.
        assert (inject_Z (-51) <= inject_Z k) by (rewrite <- Zle_Qle; lia).
        change (inject_Z (-51)) with (-51 # 1) in *. lra.
    + destruct (Z_le_gt_dec k (-52)) as [L | G].
      * exfalso.
        assert (inject_Z k <= inject_Z (-52)) by (rewrite <- Zle_Qle; lia).
        change (inject_Z (-52)) with (-52 # 1) in *. lra.
      * assert (inject_Z (-51) <= inject_Z k) by (rewrite <- Zle_Qle; lia).
        change (inject_Z (-51)) with (-51 # 1) in *. lra.
Qed.

(** C2 (as amended).  With a scale that is a normal binary32 number (at
    most [2 ^ 100]) and a zero point in the range of an int8, let [y] be
    the float of line 79 for the value [v], finite.  The code is less than
    one unit away from [y] exactly when [y] lies strictly between -129 and
    128.  When [y] is not clipped, the dequantized code is finite and less
    than [1 + 2 ^ -12] steps away from [v]: one step for the fraction the
    cast drops, the rest for the six roundings of lines 79 and 118. *)
Theorem roundtrip_within_one_step (scale v : spec_float) (zero_point : Z) :
  F32.valid scale = true ->
  2 ^ (-126) <= F32.to_Q scale ->
  F32.to_Q scale <= 2 ^ 100 ->
  (-128 <= zero_point <= 127)%Z ->
  F32.is_finite (F32.add (F32.div v scale) (F32.of_int zero_point)) = true ->
  (Qabs (inject_Z (quantize_f32 scale zero_point v)
         - F32.to_Q (F32.add (F32.div v scale) (F32.of_int zero_point)))
   < 1
   <-> -129 < F32.to_Q (F32.add (F32.div v scale) (F32.of_int zero_point))
       /\ F32.to_Q (F32.add (F32.div v scale) (F32.of_int zero_point))
          < 128) /\
  (-128 <= F32.to_Q (F32.add (F32.div v scale) (F32.of_int zero_point))
     <= 127 ->
   F32.is_finite
     (dequantize_f32 scale zero_point (quantize_f32 scale zero_point v))
   = true /\
   Qabs (F32.to_Q (dequantize_f32 scale zero_point
                     (quantize_f32 scale zero_point v))
         - F32.to_Q v)
   < (1 + (1 # 4096)) * F32.to_Q scale).
Proof.
  intros Vs Smin Smax Hzp Fy. split.
  - apply (quantize_f32_distance scale zero_point v Fy).
  - intros Hy.
    exact (roundtrip_f32_bound scale v zero_point Vs Smin Smax Hzp Fy Hy).
Qed.

Lemma roundtrip_within_one_step_witness :
  (Qabs (inject_Z (quantize_f32 (F32.dyadic 8421505 (-31)) (-128)
                     (F32.dyadic 305 (-10)))
         - F32.to_Q (F32.add (F32.div (F32.dyadic 305 (-10))
                                      (F32.dyadic 8421505 (-31)))
                             (F32.of_int (-128))))
   < 1
   <-> -129 < F32.to_Q (F32.add (F32.div (F32.dyadic 305 (-10))
                                         (F32.dyadic 8421505 (-31)))
                                (F32.of_int (-128)))
       /\ F32.to_Q (F32.add (F32.div (F32.dyadic 305 (-10))
                                     (F32.dyadic 8421505 (-31)))
                            (F32.of_int (-128)))
          < 128) /\
  (-128 <= F32.to_Q (F32.add (F32.div (F32.dyadic 305 (-10))
                                      (F32.dyadic 8421505 (-31)))
                             (F32.of_int (-128)))
     <= 127 ->
   F32.is_finite
     (dequantize_f32 (F32.dyadic 8421505 (-31)) (-128)
        (quantize_f32 (F32.dyadic 8421505 (-31)) (-128)
           (F32.dyadic 305 (-10))))
   = true /\
   Qabs (F32.to_Q (dequantize_f32 (F32.dyadic 8421505 (-31)) (-128)
                     (quantize_f32 (F32.dyadic 8421505 (-31)) (-128)
                        (F32.dyadic 305 (-10))))
         - F32.to_Q (F32.dyadic 305 (-10)))
   < (1 + (1 # 4096)) * F32.to_Q (F32.dyadic 8421505 (-31))).
Proof.
  apply (roundtrip_within_one_step (F32.dyadic 8421505 (-31))
           (F32.dyadic 305 (-10)) (-128)).
  - reflexivity.
  - vm_compute. discriminate.
  - vm_compute. discriminate.
  - lia.
  - reflexivity.
Defined.

(** C2, as stated for every value, fails twice.  With scale 1/256 and
    zero point -128 the value 2 is clipped to the code 127 and comes back
    as 255/256, more than a whole unit away.  And with the scale
    10867159 * 2 ^ -24 and zero point -128 the value 8659767 * 2 ^ -16 is
    not clipped, line 79 gives 9961470 * 2 ^ -17, just below 76, and the
    code 75 comes back more than one step away. *)
Lemma roundtrip_more_than_one_step :
  quantize_f32 (F32.dyadic 1 (-8)) (-128) (F32.of_int 2) = 127%Z /\
  F32.to_Q (dequantize_f32 (F32.dyadic 1 (-8)) (-128) 127) == 255 # 256 /\
  ~ Qabs (F32.to_Q (dequantize_f32 (F32.dyadic 1 (-8)) (-128) 127)
          - F32.to_Q (F32.of_int 2))
    <= F32.to_Q (F32.dyadic 1 (-8)) /\
  F32.valid (F32.dyadic 10867159 (-24)) = true /\
  F32.valid (F32.dyadic 8659767 (-16)) = true /\
  F32.add (F32.div (F32.dyadic 8659767 (-16)) (F32.dyadic 10867159 (-24)))
          (F32.of_int (-128))
  = S754_finite false 9961470 (-17) /\
  -128 <= F32.to_Q (S754_finite false 9961470 (-17)) <= 127 /\
  quantize_f32 (F32.dyadic 10867159 (-24)) (-128) (F32.dyadic 8659767 (-16))
  = 75%Z /\
  ~ Qabs (F32.to_Q (dequantize_f32 (F32.dyadic 10867159 (-24)) (-128) 75)
          - F32.to_Q (F32.dyadic 8659767 (-16)))
    <= F32.to_Q (F32.dyadic 10867159 (-24)).
Proof.
  split; [reflexivity |]. split; [reflexivity |]. split.
  { vm_compute. intros H. apply H. reflexivity. }
  split; [reflexivity |]. split; [reflexivity |]. split; [reflexivity |].
  split; [split; vm_compute; discriminate |].
  split; [reflexivity |].
  vm_compute. intros H. apply H. reflexivity.
Qed.

End QuantizerClaims.

(** * Further properties of the sources *)

(** ** The quantizer of the mel front end and the order of the features *)

Section QuantizerCodes.
Import Py Np Int8App.

Lemma clip_monotone (x y : Q) :
  x <= y -> clip x (-128) 127 <= clip y (-128) 127.
Proof.
  intros H. unfold clip.
  destruct (maximum_cases x (-128)) as [[Hx Ex] | [Hx Ex]];
    destruct (maximum_cases y (-128)) as [[Hy Ey] | [Hy Ey]];
    rewrite Ex, Ey;
    match goal with
    | |- minimum ?a _ <= minimum ?b _ =>
        destruct (minimum_cases a 127) as [[Ha Ea] | [Ha Ea]];
        destruct (minimum_cases b 127) as [[Hb Eb] | [Hb Eb]]
    end; rewrite ?Ea, ?Eb; lra.
Qed.

Lemma astype_int8_monotone (x y : Q) :
  x <= y -> (astype_int8 x <= astype_int8 y)%Z.
Proof.
  intros H.
  destruct (Qlt_le_dec x 0) as [Hx | Hx];
    destruct (Qlt_le_dec y 0) as [Hy | Hy].
  - pose proof (astype_int8_nonpos x (Qlt_le_weak _ _ Hx)) as [A1 A2].
    pose proof (astype_int8_nonpos y (Qlt_le_weak _ _ Hy)) as [B1 B2].
    assert (L : inject_Z (astype_int8 x) < inject_Z (astype_int8 y + 1)).
    { rewrite inject_Z_plus. change (inject_Z 1) with 1. lra. }
    apply inject_Z_lt_inv in L. lia.
  - pose proof (astype_int8_nonpos x (Qlt_le_weak _ _ Hx)) as [A1 A2].
    pose proof (astype_int8_nonneg y Hy) as [B1 B2].
    assert (L' : inject_Z (astype_int8 x) < inject_Z 1)
      by (change (inject_Z 1) with 1; lra).
    assert (L'' : inject_Z (-1) < inject_Z (astype_int8 y))
      by (change (inject_Z (-1)) with (-1 # 1); lra).
    apply inject_Z_lt_inv in L', L''. lia.
  - lra.
  - pose proof (astype_int8_nonneg x Hx) as [A1 A2].
    pose proof (astype_int8_nonneg y Hy) as [B1 B2].
    assert (L : inject_Z (astype_int8 x) < inject_Z (astype_int8 y + 1)).
    { rewrite inject_Z_plus. change (inject_Z 1) with 1. lra. }
    apply inject_Z_lt_inv in L. lia.
Qed.

(** X1.  For a positive scale the quantizer never reverses an order: a
    larger feature gets the same code or a larger one. *)
Theorem quantize_monotone (scale : Q) (zero_point : Z) (x y : Q) :
  0 < scale -> x <= y ->
  (quantize scale zero_point x <= quantize scale zero_point y)%Z.
Proof.
  intros Hs Hxy. unfold quantize.
  apply astype_int8_monotone, clip_monotone.
  apply Qplus_le_l. unfold Qdiv.
  apply Qmult_le_compat_r; [exact Hxy |].
  apply Qlt_le_weak, Qinv_lt_0_compat, Hs.
Qed.

Lemma quantize_monotone_witness :
  (quantize (1 # 256) (-128) (1 # 4)
   <= quantize (1 # 256) (-128) (305 # 1024))%Z.
Proof.
  apply (quantize_monotone (1 # 256) (-128) (1 # 4) (305 # 1024));
    [reflexivity | discriminate].
Defined.

End QuantizerCodes.

(** ** The min-max normalization of the mel features *)

Section FeatureRange.
Import Py Np Int8App.

Lemma fold_minimum_le (l : list Q) (x0 : Q) :
  fold_left minimum l x0 <= x0 /\
  Forall (fun x => fold_left minimum l x0 <= x) l.
Proof.
  revert x0. induction l as [| a l IH]; intros x0; cbn [fold_left].
  - split; [lra | constructor].
  - destruct (IH (minimum x0 a)) as [H1 H2].
    destruct (minimum_cases x0 a) as [[Hc E] | [Hc E]]; rewrite E in *.
    + split; [exact H1 |]. constructor; [lra | exact H2].
    + split; [lra |]. constructor; [exact H1 | exact H2].
Qed.

Lemma min_lower_bound (l : list Q) (lo : Q) :
  Np.min l = inr lo -> In lo l /\ Forall (fun x => lo <= x) l.
Proof.
  destruct l as [| x rest]; [discriminate |].
  unfold Np.min, ret. intros [= <-].
  split.
  - clear. revert x. induction rest as [| a rest IH]; intros x.
    + left. reflexivity.
    + cbn [fold_left].
      destruct (minimum_cases x a) as [[_ E] | [_ E]]; rewrite E.
      * destruct (IH x) as [H | H]; [left; exact H | right; right; exact H].
      * right. apply IH.
  - destruct (fold_minimum_le rest x) as [H1 H2].
    constructor; [exact H1 | exact H2].
Qed.

Lemma max_upper_bound (l : list Q) (hi : Q) :
  Np.max l = inr hi -> In hi l /\ Forall (fun x => x <= hi) l.
Proof.
  intros H.
  assert (Hne : l <> []) by (intros ->; discriminate H).
  destruct (max_spec l Hne) as (m & E & Hin & Hall).
  rewrite H in E. injection E as <-. split; assumption.
Qed.

(** What line 65 does to one element, given the extrema of the array. *)
Lemma min_max_normalized (lo hi x : Q) :
  lo <= x -> x <= hi ->
  0 <= (x - lo) / (hi - lo + (1 # 1000000)) /\
  (x - lo) / (hi - lo + (1 # 1000000)) <= 1.
Proof.
  intros Hlo Hhi.
  assert (Hd : 0 < hi - lo + (1 # 1000000)) by lra.
  split.
  - apply Qle_shift_div_l; [exact Hd | lra].
  - apply Qle_shift_div_r; [exact Hd | lra].
Qed.

Section MelFeatures.

Variable melspectrogram : list Q -> array Q.
Variable power_to_db : array Q -> array Q.
Variable image_resize : array Q -> nat * nat -> array Q.

(** The steps of [mel_features], one by one. *)
Lemma mel_features_inv (audio_np : list Q) (mel_db : array Q) :
  mel_features melspectrogram power_to_db image_resize audio_np
    = inr mel_db ->
  exists (resized : array Q) (lo hi : Q),
    Np.min (data resized) = inr lo /\
    Np.max (data resized) = inr hi /\
    shape mel_db = (1 :: 1 :: shape resized)%nat /\
    data mel_db
    = map (fun x => (x - lo) / (hi - lo + (1 # 1000000))) (data resized).
Proof.
  unfold mel_features, bind.
  destruct (normalize_waveform audio_np) as [e | audio]; [discriminate |].
  destruct (newaxis_at_2 (power_to_db (melspectrogram audio)))
    as [e | expanded]; [discriminate |].
  destruct (index_axis2_0 (image_resize expanded (64%nat, 64%nat)))
    as [e | resized]; [discriminate |].
  destruct (Np.min (data resized)) as [e | lo] eqn:Elo; [discriminate |].
  destruct (Np.max (data resized)) as [e | hi] eqn:Ehi; [discriminate |].
  unfold newaxis_nchw, map_array. cbn [shape data].
  destruct (shape resized) as [| h [| w rest]] eqn:Es; try discriminate.
  unfold ret. intros [= <-]. cbn [shape data].
  exists resized, lo, hi. rewrite Es. repeat split; assumption.
Qed.

(** X2.  Whatever the audio and the library calls, every feature that
    [mel_features] returns lies between 0 and 1, and the smallest one is
    0: line 65 subtracts the minimum and divides by a positive number
    that is at least the range of the values. *)
Theorem mel_features_in_unit_interval (audio_np : list Q)
    (mel_db : array Q) :
  mel_features melspectrogram power_to_db image_resize audio_np
    = inr mel_db ->
  Forall (fun x => 0 <= x /\ x <= 1) (data mel_db) /\
  Exists (fun x => x == 0) (data mel_db).
Proof.
  intros H.
  destruct (mel_features_inv _ _ H)
    as (resized & lo & hi & Elo & Ehi & _ & ->).
  destruct (min_lower_bound _ _ Elo) as [Hin Hlo].
  destruct (max_upper_bound _ _ Ehi) as [_ Hhi].
  split.
  - apply Forall_map. rewrite Forall_forall in *. intros x Hx.
    apply min_max_normalized; [apply Hlo | apply Hhi]; exact Hx.
  - apply Exists_exists. eexists. split.
    + apply in_map. exact Hin.
    + cbv beta. unfold Qdiv. setoid_replace (lo - lo) with 0 by ring. ring.
Qed.

End MelFeatures.

End FeatureRange.

Lemma mel_features_in_unit_interval_witness :
  Forall (fun x => 0 <= x /\ x <= 1)
         [0 # 305001024; 312320000000 # 312321048576] /\
  Exists (fun x => x == 0)
         [0 # 305001024; 312320000000 # 312321048576].
Proof.
  apply (mel_features_in_unit_interval Example.melspectrogram
           Example.power_to_db Example.image_resize [1]
           (Np.mk_array [1; 1; 1; 2]%nat
              [0 # 305001024; 312320000000 # 312321048576])).
  reflexivity.
Defined.

(** ** Normalization and quantization together *)

Section FeaturesQuantized.
Import Py Np Int8App.



End FeaturesQuantized.

(** ** From the scores of the model to the page of the mel front end *)

Section Scores.
Import Py Np Int8App.

Lemma argmax_from_first_largest (xs : list Q) :
  forall (pre : list Q) (best_i : nat) (best : Q),
    nth_error pre best_i = Some best ->
    (forall j y, nth_error pre j = Some y -> y <= best) ->
    (forall j y, (j < best_i)%nat -> nth_error pre j = Some y -> y < best) ->
    Spec.first_largest (pre ++ xs)
      (argmax_from (List.length pre) best_i best xs).
Proof.
  induction xs as [| x rest IH]; intros pre best_i best Hb Hall Hbefore.
  - cbn [argmax_from]. rewrite app_nil_r. exists best. auto.
  - assert (Hlt : (best_i < List.length pre)%nat).
    { apply nth_error_Some. rewrite Hb. discriminate. }
    assert (Hlen : List.length (pre ++ [x]) = S (List.length pre)).
    { rewrite length_app. cbn [List.length]. lia. }
    assert (Hsplit : forall j y,
               nth_error (pre ++ [x]) j = Some y ->
               nth_error pre j = Some y \/ (j = List.length pre /\ y = x)).
    { intros j y Hj.
      destruct (Nat.lt_ge_cases j (List.length pre)) as [L | L].
      - left. rewrite nth_error_app1 in Hj by exact L. exact Hj.
      - right. rewrite nth_error_app2 in Hj by exact L.
        destruct (j - List.length pre)%nat as [| k] eqn:Ek.
        + cbn in Hj. injection Hj as <-. split; [lia | reflexivity].
        + cbn in Hj. destruct k; discriminate Hj. }
    cbn [argmax_from].
    replace (pre ++ x :: rest)%list with ((pre ++ [x]) ++ rest)%list
      by (rewrite <- app_assoc; reflexivity).
    rewrite <- Hlen.
    destruct (Qle_bool x best) eqn:E.
    + apply Qle_bool_iff in E. apply IH.
      * rewrite nth_error_app1 by exact Hlt. exact Hb.
      * intros j y Hj. destruct (Hsplit j y Hj) as [H | [_ ->]];
          [apply (Hall j y H) | exact E].
      * intros j y Hji Hj. destruct (Hsplit j y Hj) as [H | [-> _]];
          [apply (Hbefore j y Hji H) | lia].
    + apply not_true_iff_false in E. rewrite Qle_bool_iff in E.
      apply Qnot_le_lt in E.
      apply (IH (pre ++ [x])%list (List.length pre) x).
      * rewrite nth_error_app2 by lia. rewrite Nat.sub_diag. reflexivity.
      * intros j y Hj. destruct (Hsplit j y Hj) as [H | [_ ->]];
          [pose proof (Hall j y H); lra | lra].
      * intros j y Hji Hj. destruct (Hsplit j y Hj) as [H | [-> _]];
          [pose proof (Hall j y H); lra | lia].
Qed.

Lemma argmax_first_largest (xs : list Q) (i : nat) :
  argmax xs = inr i -> Spec.first_largest xs i.
Proof.
  destruct xs as [| x rest]; [discriminate |].
  unfold argmax, ret. intros [= <-].
  apply (argmax_from_first_largest rest [x] 0%nat x).
  - reflexivity.
  - intros [| j] y Hj; cbn in Hj; [injection Hj as <-; lra |].
    destruct j; discriminate Hj.
  - intros j y Hj. lia.
Qed.

Lemma argmax_from_map {A} (f g : A -> Q) :
  (forall a b, Qle_bool (f a) (f b) = Qle_bool (g a) (g b)) ->
  forall (xs : list A) (i best_i : nat) (best : A),
    argmax_from i best_i (f best) (map f xs)
    = argmax_from i best_i (g best) (map g xs).
Proof.
  intros H. induction xs as [| x rest IH]; intros i best_i best.
  - reflexivity.
  - cbn [map argmax_from]. rewrite H.
    destruct (Qle_bool (g x) (g best)); apply IH.
Qed.

(** X5.  Line 118 does not change the winner: for a positive scale, the
    largest dequantized score of an [int8] output sits where the largest
    raw code sits, ties going to the lower index in both. *)
Theorem dequantized_scores_keep_the_winner
    (output_details : tensor_details) (scale : Q) (zero_point : Z)
    (a : array Z) :
  td_dtype output_details = int8 ->
  td_quantization output_details = (scale, zero_point) ->
  0 < scale ->
  argmax (dequantize_output output_details (nd_int8 a))
  = argmax (map inject_Z (data a)).
Proof.
  intros Hdt Hq Hs. unfold dequantize_output.
  rewrite Hdt, Hq. cbn [dtype_eqb].
  destruct (data a) as [| q rest]; [reflexivity |].
  cbn [map]. unfold argmax. f_equal.
  apply argmax_from_map. intros x y.
  unfold dequantize, astype_float32.
  destruct (Qle_bool (inject_Z x) (inject_Z y)) eqn:E.
  - apply Qle_bool_iff in E. apply Qle_bool_iff. nra.
  - apply not_true_iff_false in E. rewrite Qle_bool_iff in E.
    apply Qnot_le_lt in E. apply not_true_iff_false.
    rewrite Qle_bool_iff. apply Qlt_not_le. nra.
Qed.

Lemma dequantized_scores_keep_the_winner_witness :
  argmax (dequantize_output
            (mk_details [1; 3]%nat int8 (1 # 256, (-128)%Z))
            (nd_int8 (mk_array [3]%nat [-100; 90; 90]%Z)))
  = argmax (map inject_Z [-100; 90; 90]%Z).
Proof.
  apply (dequantized_scores_keep_the_winner
           (mk_details [1; 3]%nat int8 (1 # 256, (-128)%Z))
           (1 # 256) (-128) (mk_array [3]%nat [-100; 90; 90]%Z));
    reflexivity.
Defined.

End Scores.

Section PageOfScores.
Import Py Np Int8App.
Local Open Scope string_scope.

Variables input_details output_details : tensor_details.
Variable melspectrogram : list Q -> array Q.
Variable power_to_db : array Q -> array Q.
Variable image_resize : array Q -> nat * nat -> array Q.
Variable librosa_load : Os.bytes -> result (list Q).
Variable interpreter_run : ndarray -> result ndarray.
Variable softmax : list Q -> list Q.

Variables (audio_path : string) (s : app_state) (content : Os.bytes).
Variables (audio : list Q) (x output : ndarray).

Hypothesis file_read : Os.read (fs s) audio_path = Some content.
Hypothesis audio_loaded : librosa_load content = inr audio.
Hypothesis preprocessed :
  preprocess_audio input_details melspectrogram power_to_db image_resize
                   audio = inr x.
Hypothesis inferred : interpreter_run x = inr output.

(** The handler once the scores are there. *)
Lemma guarded_from_scores :
  try_inference input_details output_details melspectrogram
    power_to_db image_resize librosa_load interpreter_run softmax
    audio_path s
  = try_except
      (let probs := softmax (dequantize_output output_details output) in
       pred_id <~ lift (argmax probs) ;;
       pred_label <~ lift (label_of pred_id) ;;
       show (st_success_prediction pred_label) ;;;
       show st_subheader_confidence ;;;
       write_scores ID_TO_LABEL probs)
      (fun e => show (st_error_inference e)) s.
Proof.
  unfold try_inference, infer_and_show, load_audio. run_py.
  rewrite file_read, audio_loaded, preprocessed, inferred. reflexivity.
Qed.

(** X6.  With at least three scores, the page shows the label of the
    first largest score together with the first three scores as
    percentages; when a model with more than three outputs puts its
    largest score beyond the third, the lookup of the label fails and the
    page shows that error and nothing else. *)
Theorem page_shows_first_largest_score (p0 p1 p2 : Q) (more : list Q) :
  softmax (dequantize_output output_details output)
    = p0 :: p1 :: p2 :: more ->
  exists pred_id,
    argmax (p0 :: p1 :: p2 :: more) = inr pred_id /\
    Spec.first_largest (p0 :: p1 :: p2 :: more) pred_id /\
    ((pred_id < 3)%nat ->
     exists pred_label,
       nth_error ID_TO_LABEL pred_id = Some (pred_id, pred_label) /\
       try_inference input_details output_details melspectrogram
         power_to_db image_resize librosa_load interpreter_run softmax
         audio_path s
       = (inr tt,
          mk_state (fs s)
            (ui s ++ [ st_success_prediction pred_label;
                       st_subheader_confidence;
                       st_write_score "Safe/Neutral" (p0 * 100);
                       st_write_score "DANGER (Fear)" (p1 * 100);
                       st_write_score "Caution (Angry)" (p2 * 100) ]))) /\
    ((3 <= pred_id)%nat ->
     try_inference input_details output_details melspectrogram
       power_to_db image_resize librosa_load interpreter_run softmax
       audio_path s
     = (inr tt,
        mk_state (fs s)
          (ui s ++ [st_error_inference (KeyError (Z.of_nat pred_id))]))).
Proof.
  intros Hprobs. rewrite guarded_from_scores, Hprobs. cbv zeta.
  destruct (argmax (p0 :: p1 :: p2 :: more)) as [e | pred_id] eqn:Ea;
    [discriminate Ea |].
  exists pred_id. split; [reflexivity |].
  split; [apply argmax_first_largest; exact Ea |].
  unfold show. run_py. split.
  - intros Hlt.
    destruct pred_id as [| [| [| k]]]; [| | | lia];
      eexists; (split; [reflexivity |]);
      cbn; rewrite <- !app_assoc; reflexivity.
  - intros Hge.
    destruct pred_id as [| [| [| k]]]; try lia.
    reflexivity.
Qed.

(** X7.  A model with fewer than three outputs.  Without any score the
    handler reports the error of [np.argmax]; with one or two scores it
    shows the prediction and the scores there are, and then reports the
    [IndexError] of the missing one. *)
Theorem page_of_fewer_than_three_scores :
  (softmax (dequantize_output output_details output) = [] ->
   try_inference input_details output_details melspectrogram
     power_to_db image_resize librosa_load interpreter_run softmax
     audio_path s
   = (inr tt,
      mk_state (fs s) (ui s ++ [st_error_inference ValueError_zero_size])))
  /\
  (forall p0,
     softmax (dequantize_output output_details output) = [p0] ->
     try_inference input_details output_details melspectrogram
       power_to_db image_resize librosa_load interpreter_run softmax
       audio_path s
     = (inr tt,
        mk_state (fs s)
          (ui s ++ [ st_success_prediction "Safe/Neutral";
                     st_subheader_confidence;
                     st_write_score "Safe/Neutral" (p0 * 100);
                     st_error_inference IndexError ]))) /\
  (forall p0 p1,
     softmax (dequantize_output output_details output) = [p0; p1] ->
     try_inference input_details output_details melspectrogram
       power_to_db image_resize librosa_load interpreter_run softmax
       audio_path s
     = (inr tt,
        mk_state (fs s)
          (ui s ++ [ st_success_prediction
                       (if Qle_bool p1 p0 then "Safe/Neutral"
                        else "DANGER (Fear)");
                     st_subheader_confidence;
                     st_write_score "Safe/Neutral" (p0 * 100);
                     st_write_score "DANGER (Fear)" (p1 * 100);
                     st_error_inference IndexError ]))).
Proof.
  rewrite guarded_from_scores. cbv zeta. unfold show. run_py.
  split; [| split].
  - intros ->. reflexivity.
  - intros p0 ->. cbn. rewrite <- !app_assoc. reflexivity.
  - intros p0 p1 ->. cbn. destruct (Qle_bool p1 p0);
      cbn; rewrite <- !app_assoc; reflexivity.
Qed.

End PageOfScores.

Lemma page_shows_first_largest_score_witness :
  exists pred_id,
    Np.argmax [1 # 10; 7 # 10; 2 # 10] = inr pred_id /\
    Spec.first_largest [1 # 10; 7 # 10; 2 # 10] pred_id /\
    ((pred_id < 3)%nat ->
     exists pred_label,
       nth_error Int8App.ID_TO_LABEL pred_id = Some (pred_id, pred_label) /\
       Int8App.try_inference Example.input_details Example.output_details
         Example.melspectrogram Example.power_to_db Example.image_resize
         Example.librosa_load Example.interpreter_run Example.softmax
         "/tmp/tmp0.wav"
         (Int8App.mk_state (Os.mk_fs [("/tmp/tmp0.wav", "RIFF")]%string [] 1)
                           [])
       = (inr tt,
          Int8App.mk_state (Os.mk_fs [("/tmp/tmp0.wav", "RIFF")]%string [] 1)
            ([] ++ [ Int8App.st_success_prediction pred_label;
                     Int8App.st_subheader_confidence;
                     Int8App.st_write_score "Safe/Neutral" ((1 # 10) * 100);
                     Int8App.st_write_score "DANGER (Fear)" ((7 # 10) * 100);
                     Int8App.st_write_score "Caution (Angry)"
                       ((2 # 10) * 100) ]))) /\
    ((3 <= pred_id)%nat ->
     Int8App.try_inference Example.input_details Example.output_details
       Example.melspectrogram Example.power_to_db Example.image_resize
       Example.librosa_load Example.interpreter_run Example.softmax
       "/tmp/tmp0.wav"
       (Int8App.mk_state (Os.mk_fs [("/tmp/tmp0.wav", "RIFF")]%string [] 1)
                         [])
     = (inr tt,
        Int8App.mk_state (Os.mk_fs [("/tmp/tmp0.wav", "RIFF")]%string [] 1)
          ([] ++ [Int8App.st_error_inference
                    (Py.KeyError (Z.of_nat pred_id))]))).
Proof.
  apply (page_shows_first_largest_score Example.input_details
           Example.output_details Example.melspectrogram Example.power_to_db
           Example.image_resize Example.librosa_load Example.interpreter_run
           Example.softmax "/tmp/tmp0.wav"
           (Int8App.mk_state
              (Os.mk_fs [("/tmp/tmp0.wav", "RIFF")]%string [] 1) [])
           "RIFF"%string [1 # 2; - (1 # 4)]
           (Np.nd_int8 (Np.mk_array [1; 1; 1; 2]%nat [-128; 127]%Z))
           (Np.nd_float32 (Np.mk_array [3]%nat [1 # 10; 7 # 10; 2 # 10]))
           eq_refl eq_refl eq_refl eq_refl
           (1 # 10) (7 # 10) (2 # 10) [] eq_refl).
Defined.

Lemma page_of_fewer_than_three_scores_witness :
  Int8App.try_inference Example.input_details Example.output_details
    Example.melspectrogram Example.power_to_db Example.image_resize
    Example.librosa_load
    (fun _ => inr (Np.nd_float32 (Np.mk_array [2]%nat [3 # 10; 7 # 10])))
    Example.softmax "/tmp/tmp0.wav"
    (Int8App.mk_state (Os.mk_fs [("/tmp/tmp0.wav", "RIFF")]%string [] 1) [])
  = (inr tt,
     Int8App.mk_state (Os.mk_fs [("/tmp/tmp0.wav", "RIFF")]%string [] 1)
       ([] ++ [ Int8App.st_success_prediction
                  (if Qle_bool (7 # 10) (3 # 10) then "Safe/Neutral"
                   else "DANGER (Fear)");
                Int8App.st_subheader_confidence;
                Int8App.st_write_score "Safe/Neutral" ((3 # 10) * 100);
                Int8App.st_write_score "DANGER (Fear)" ((7 # 10) * 100);
                Int8App.st_error_inference Py.IndexError ])).
Proof.
  apply (proj2 (proj2
           (page_of_fewer_than_three_scores Example.input_details
              Example.output_details Example.melspectrogram
              Example.power_to_db Example.image_resize Example.librosa_load
              (fun _ => inr (Np.nd_float32
                               (Np.mk_array [2]%nat [3 # 10; 7 # 10])))
              Example.softmax "/tmp/tmp0.wav"
              (Int8App.mk_state
                 (Os.mk_fs [("/tmp/tmp0.wav", "RIFF")]%string [] 1) [])
              "RIFF"%string [1 # 2; - (1 # 4)]
              (Np.nd_int8 (Np.mk_array [1; 1; 1; 2]%nat [-128; 127]%Z))
              (Np.nd_float32 (Np.mk_array [2]%nat [3 # 10; 7 # 10]))
              eq_refl eq_refl eq_refl eq_refl))).
  reflexivity.
Defined.

(** ** The temporary file of the mel front end, and the other files *)

Section UploadFrame.
Import Py Np.

Lemma filter_absent (path : string) (l : list (string * Os.bytes)) :
  existsb (fun p => String.eqb (fst p) path) l = false ->
  filter (fun p => negb (String.eqb (fst p) path)) l = l.
Proof.
  induction l as [| p l IH]; cbn [existsb filter]; [reflexivity |].
  intros H. apply orb_false_iff in H as [H1 H2].
  rewrite H1. cbn [negb]. rewrite (IH H2). reflexivity.
Qed.

(** Writing the temporary file and removing it again restores the files,
    when the name is new and nobody holds it. *)
Lemma write_temp_then_remove (tmp_name : nat -> string)
    (fs : Os.filesystem) (content : Os.bytes) :
  Os.path_exists fs (tmp_name (Os.tmp_next fs)) = false ->
  existsb (String.eqb (tmp_name (Os.tmp_next fs))) (Os.locked fs) = false ->
  Os.remove (snd (Os.write_temp tmp_name fs content))
            (tmp_name (Os.tmp_next fs))
  = (inr tt, Os.mk_fs (Os.files fs) (Os.locked fs) (S (Os.tmp_next fs))).
Proof.
  intros Hfresh Hfree.
  unfold Os.write_temp, Os.remove, Os.path_exists, Os.delete.
  cbn [snd Os.files Os.locked Os.tmp_next existsb filter fst].
  rewrite String.eqb_refl. cbn [orb negb]. rewrite Hfree.
  unfold Os.path_exists in Hfresh.
  rewrite !(filter_absent _ _ Hfresh). reflexivity.
Qed.

Section Int8.
Import Int8App.

Variables input_details output_details : tensor_details.
Variable melspectrogram : list Q -> array Q.
Variable power_to_db : array Q -> array Q.
Variable image_resize : array Q -> nat * nat -> array Q.
Variable tmp_name : nat -> string.
Variable librosa_load : Os.bytes -> result (list Q).
Variable interpreter_run : ndarray -> result ndarray.
Variable softmax : list Q -> list Q.

(** X8.  An upload leaves the files as it found them.  When the name of
    the temporary file is new and no other process holds it, the handler
    returns without an exception, whatever the inference did, and the file
    system afterwards has the files it had before; only the counter of
    temporary names has moved. *)
Theorem on_upload_restores_the_files (uploaded_file : Os.bytes)
    (s : app_state) :
  Os.path_exists (fs s) (tmp_name (Os.tmp_next (fs s))) = false ->
  existsb (String.eqb (tmp_name (Os.tmp_next (fs s)))) (Os.locked (fs s))
    = false ->
  exists s',
    on_upload input_details output_details melspectrogram power_to_db
      image_resize tmp_name librosa_load interpreter_run softmax
      uploaded_file s = (inr tt, s') /\
    fs s' = Os.mk_fs (Os.files (fs s)) (Os.locked (fs s))
                     (S (Os.tmp_next (fs s))).
Proof.
  intros Hfresh Hfree. unfold on_upload.
  pose proof (write_temp_then_remove tmp_name (fs s) uploaded_file
                Hfresh Hfree) as Hrm.
  destruct (Os.write_temp tmp_name (fs s) uploaded_file) as [path fs1] eqn:Ew.
  assert (Hpath : path = tmp_name (Os.tmp_next (fs s))).
  { unfold Os.write_temp in Ew. injection Ew as <- _. reflexivity. }
  cbn [snd] in Hrm. unfold try_finally.
  destruct (guarded_inference input_details output_details melspectrogram
              power_to_db image_resize librosa_load interpreter_run softmax
              path (mk_state fs1 (ui s))) as (s1 & E & Hfs).
  rewrite E. cbn [fs] in Hfs. unfold os_remove. rewrite Hfs, Hpath, Hrm.
  eexists. split; reflexivity.
Qed.

End Int8.

End UploadFrame.

Lemma on_upload_restores_the_files_witness :
  exists s',
    Int8App.on_upload Example.input_details Example.output_details
      Example.melspectrogram Example.power_to_db Example.image_resize
      Example.tmp_name Example.librosa_load Example.interpreter_run
      Example.softmax "RIFF"%string
      (Int8App.mk_state
         (Os.mk_fs [("/app/notes.txt", "kept")]%string [] 0) [])
    = (inr tt, s') /\
    Int8App.fs s' = Os.mk_fs [("/app/notes.txt", "kept")]%string [] 1.
Proof.
  apply (on_upload_restores_the_files Example.input_details
           Example.output_details Example.melspectrogram Example.power_to_db
           Example.image_resize Example.tmp_name Example.librosa_load
           Example.interpreter_run Example.softmax "RIFF"%string
           (Int8App.mk_state
              (Os.mk_fs [("/app/notes.txt", "kept")]%string [] 0) []));
    reflexivity.
Defined.

(** ** The shape the mel front end computes *)

Section ComputedShape.
Import Py Np Int8App.

Variable input_details : tensor_details.
Variable melspectrogram : list Q -> array Q.
Variable power_to_db : array Q -> array Q.
Variable image_resize : array Q -> nat * nat -> array Q.

(** The spectrogram is a matrix, and the resized image of a one-channel
    image has the size that was asked for and one channel. *)
Hypothesis spectrogram_2d :
  forall y, exists h w, shape (power_to_db (melspectrogram y)) = [h; w].
Hypothesis resized_shape :
  forall a h w, shape a = [h; w; 1%nat] ->
                shape (image_resize a (64%nat, 64%nat))
                = [64%nat; 64%nat; 1%nat].

Lemma mel_features_shape (audio_np : list Q) (mel_db : array Q) :
  mel_features melspectrogram power_to_db image_resize audio_np
    = inr mel_db ->
  shape mel_db = [1%nat; 1%nat; 64%nat; 64%nat].
Proof.
  unfold mel_features, bind.
  destruct (normalize_waveform audio_np) as [e | audio]; [discriminate |].
  destruct (spectrogram_2d audio) as (h & w & Hs).
  unfold newaxis_at_2. rewrite Hs. unfold ret.
  match goal with
  | |- context [image_resize ?a _] =>
      pose proof (resized_shape a h w eq_refl) as Hr
  end.
  unfold index_axis2_0. rewrite Hr. unfold ret.
  match goal with
  | |- context [Np.min ?l] => destruct (Np.min l) as [e | lo]
  end; [discriminate |].
  match goal with
  | |- context [Np.max ?l] => destruct (Np.max l) as [e | hi]
  end; [discriminate |].
  unfold newaxis_nchw, map_array. cbn [shape data]. unfold ret.
  intros H.
  apply (f_equal (fun r : result (array Q) =>
                    match r with inr a => shape a | inl _ => [] end)) in H.
  cbn [shape] in H. symmetry. exact H.
Qed.

(** X9.  The tensor the mel front end computes always has the shape
    (1, 1, 64, 64).  A tensor is therefore returned only to a model that
    declares this input shape; with any other model every upload that gets
    as far as the check ends in the shape error, whatever the audio. *)
Theorem computed_shape_is_1_1_64_64 (audio_np : list Q) :
  (forall mel_db,
     mel_features melspectrogram power_to_db image_resize audio_np
       = inr mel_db ->
     shape mel_db = [1%nat; 1%nat; 64%nat; 64%nat]) /\
  (forall t,
     preprocess_audio input_details melspectrogram power_to_db image_resize
                      audio_np = inr t ->
     nd_shape t = [1%nat; 1%nat; 64%nat; 64%nat] /\
     EXPECTED_SHAPE input_details = [1%nat; 1%nat; 64%nat; 64%nat]) /\
  (EXPECTED_SHAPE input_details <> [1%nat; 1%nat; 64%nat; 64%nat] ->
   forall mel_db,
     mel_features melspectrogram power_to_db image_resize audio_np
       = inr mel_db ->
     preprocess_audio input_details melspectrogram power_to_db image_resize
                      audio_np
     = inl (ValueError_shape_mismatch [1%nat; 1%nat; 64%nat; 64%nat]
              (EXPECTED_SHAPE input_details))).
Proof.
  split; [exact (mel_features_shape audio_np) |]. split.
  - intros t. unfold preprocess_audio, bind.
    destruct (mel_features melspectrogram power_to_db image_resize audio_np)
      as [e | mel_db] eqn:Em; [discriminate |].
    pose proof (mel_features_shape _ _ Em) as Hs.
    destruct (validate_and_quantize_cases input_details mel_db) as [Hbad Hok].
    destruct (list_eq_dec Nat.eq_dec (shape mel_db)
                (EXPECTED_SHAPE input_details)) as [Heq | Hne].
    + rewrite (Hok Heq). unfold map_array.
      destruct (dtype_eqb (td_dtype input_details) int8);
        intros [= <-]; cbn [nd_shape shape]; rewrite <- Heq; auto.
    + rewrite (Hbad Hne). discriminate.
  - intros Hne mel_db Em. unfold preprocess_audio, bind. rewrite Em.
    pose proof (mel_features_shape _ _ Em) as Hs.
    destruct (validate_and_quantize_cases input_details mel_db) as [Hbad _].
    rewrite Hbad; rewrite Hs; [reflexivity | congruence].
Qed.

End ComputedShape.


Lemma computed_shape_is_1_1_64_64_witness :
  Int8App.preprocess_audio
    (Int8App.mk_details [1; 40; 130; 1]%nat Np.float32 (0, 0%Z))
    Example.melspectrogram Example.power_to_db
    Example.image_resize_to_size [1]
  = inl (Py.ValueError_shape_mismatch [1; 1; 64; 64]%nat
           [1; 40; 130; 1]%nat).
Proof.
  apply (proj2 (proj2
           (computed_shape_is_1_1_64_64
              (Int8App.mk_details [1; 40; 130; 1]%nat Np.float32 (0, 0%Z))
              Example.melspectrogram Example.power_to_db
              Example.image_resize_to_size
              (fun y => ex_intro _ 1%nat (ex_intro _ 2%nat eq_refl))
              (fun a h w _ => eq_refl) [1]))
           ltac:(discriminate)
           (Np.mk_array [1; 1; 64; 64]%nat (repeat (0 # 16) 4096))
           eq_refl).
Defined.

(** ** The two padding steps of the MFCC front end *)

Section PaddingSteps.
Import Py Np Week1App.

Lemma concat_length_uniform (n : nat) (rows : list (list Q)) :
  Forall (fun r => List.length r = n) rows ->
  List.length (List.concat rows) = (List.length rows * n)%nat.
Proof.
  induction 1 as [| r rows Hr _ IH]; [reflexivity |].
  cbn [List.concat List.length]. rewrite length_app, Hr, IH. lia.
Qed.

Lemma map_firstn_all (n : nat) (rows : list (list Q)) :
  Forall (fun r => List.length r = n) rows ->
  map (firstn n) rows = rows.
Proof.
  induction 1 as [| r rows Hr _ IH]; [reflexivity |].
  cbn [map]. rewrite IH. f_equal.
  apply firstn_all2. rewrite Hr. apply Nat.le_refl.
Qed.

(** X10.  Both padding steps are idempotent: a waveform that has been
    brought to the target length, and a well-formed feature matrix that
    has been brought to 130 frames, are left as they are by a second
    pass. *)
Theorem padding_steps_are_idempotent (y : list Q) (mfcc : matrix) :
  pad_or_truncate (pad_or_truncate y) = pad_or_truncate y /\
  (well_formed mfcc ->
   fix_time_steps (fix_time_steps mfcc) = fix_time_steps mfcc).
Proof.
  split.
  - unfold pad_or_truncate at 1.
    rewrite pad_or_truncate_length, Nat.ltb_irrefl, Nat.sub_diag.
    cbn [repeat]. apply app_nil_r.
  - intros Hwf.
    pose proof (fix_time_steps_cols mfcc) as Hc.
    pose proof (fix_time_steps_well_formed mfcc Hwf) as Hw.
    destruct (fix_time_steps mfcc) as [c rs].
    unfold well_formed in Hw. cbn [cols rows] in Hc, Hw. subst c.
    unfold fix_time_steps. cbn [cols rows].
    rewrite Nat.ltb_irrefl, Nat.min_id, (map_firstn_all _ _ Hw).
    reflexivity.
Qed.

(** X11.  The tensor of the MFCC front end is consistent: for a
    well-formed feature matrix its shape is (1, rows, 130, 1) and it has
    as many elements as that shape asks for. *)
Theorem mfcc_tensor_is_consistent (mfcc : matrix) :
  well_formed mfcc ->
  shape (expand_dims_batch_channel (fix_time_steps mfcc))
    = [1; List.length (rows mfcc); 130; 1]%nat /\
  List.length (data (expand_dims_batch_channel (fix_time_steps mfcc)))
    = fold_right Nat.mul 1%nat
        (shape (expand_dims_batch_channel (fix_time_steps mfcc))) /\
  List.length (data (expand_dims_batch_channel (fix_time_steps mfcc)))
    = (List.length (rows mfcc) * 130)%nat.
Proof.
  intros Hwf.
  pose proof (fix_time_steps_cols mfcc) as Hc.
  pose proof (fix_time_steps_well_formed mfcc Hwf) as Hw.
  assert (Hn : List.length (rows (fix_time_steps mfcc))
               = List.length (rows mfcc)).
  { unfold fix_time_steps.
    destruct (cols mfcc <? EXPECTED_FRAMES)%nat; cbn [rows];
      apply length_map. }
  unfold well_formed in Hw. rewrite Hc in Hw.
  unfold expand_dims_batch_channel. cbn [shape data].
  rewrite Hc, Hn, (concat_length_uniform _ _ Hw), Hn.
  change EXPECTED_FRAMES with 130%nat.
  split; [reflexivity |]. split; [| reflexivity].
  cbn [fold_right]. lia.
Qed.

Lemma mfcc_tensor_is_consistent_witness :
  shape (expand_dims_batch_channel
           (fix_time_steps (mk_matrix 2 [[1; 2]; [3; 4]])))
    = [1; 2; 130; 1]%nat /\
  List.length
    (data (expand_dims_batch_channel
             (fix_time_steps (mk_matrix 2 [[1; 2]; [3; 4]]))))
    = fold_right Nat.mul 1%nat
        (shape (expand_dims_batch_channel
                  (fix_time_steps (mk_matrix 2 [[1; 2]; [3; 4]])))) /\
  List.length
    (data (expand_dims_batch_channel
             (fix_time_steps (mk_matrix 2 [[1; 2]; [3; 4]]))))
    = (2 * 130)%nat.
Proof.
  apply (mfcc_tensor_is_consistent (mk_matrix 2 [[1; 2]; [3; 4]])).
  repeat constructor.
Defined.

End PaddingSteps.

(** ** The notifier: what a notification leaves behind *)

Section NotifierEffects.
Import Py Np Week1App.
Local Open Scope string_scope.

Variable BASE_DIR : string.
Variable uuid4 : nat -> string.
Variable mqtt_outcome : mqtt_call -> outcome.

(** X12.  One notification never raises, leaves the files and the
    history of the interpreter alone, and takes exactly one identifier.
    The client calls it makes are a beginning of the protocol, at least
    the creation of the client.  If a message is published at all, it is
    the command, with QoS 1 and on the configured topic, and the client
    was created, connected and its loop started without an exception. *)
Theorem send_to_wokwi_effects (command : string) (st : app_state) :
  exists (sent : bool) (made : list mqtt_call) (st' : app_state),
    send_to_wokwi BASE_DIR uuid4 mqtt_outcome command st = (inr sent, st') /\
    fs st' = fs st /\
    invoked st' = invoked st /\
    uuid_next st' = S (uuid_next st) /\
    mqtt_log st' = (mqtt_log st ++ made)%list /\
    made <> [] /\
    (exists rest,
       Spec.protocol BASE_DIR (uuid4 (uuid_next st)) command
       = (made ++ rest)%list) /\
    (forall topic payload qos,
       In (publish topic payload qos) made ->
       topic = "tinyml/anshika/badge" /\ payload = command /\ qos = 1%Z /\
       Spec.no_raise mqtt_outcome
         (Client ("streamlit_client_" ++ uuid4 (uuid_next st))) /\
       Spec.no_raise mqtt_outcome (connect "broker.hivemq.com" 1883 60) /\
       Spec.no_raise mqtt_outcome loop_start).
Proof.
  rewrite send_to_wokwi_spec.
  pose proof (until_failure_spec mqtt_outcome
                (Spec.protocol BASE_DIR (uuid4 (uuid_next st)) command))
    as Hspec.
  destruct (Spec.until_failure mqtt_outcome
              (Spec.protocol BASE_DIR (uuid4 (uuid_next st)) command))
    as [made [e |]].
  - destruct Hspec as (before & c & after & Ecalls & -> & Hbefore & Hc).
    eexists false, _, _. split; [reflexivity |].
    cbn [fs invoked uuid_next mqtt_log].
    repeat (split; [reflexivity |]).
    split; [destruct before; discriminate |].
    split; [exists after; rewrite Ecalls, <- app_assoc; reflexivity |].
    intros topic payload qos Hin.
    unfold Spec.protocol in Ecalls.
    cbn [mqtt_broker mqtt_topic CONFIG] in Ecalls.
    destruct before as [| b1 [| b2 [| b3 before']]];
      cbn [app] in Ecalls, Hin; injection Ecalls as <- ?; subst;
      cbn [In] in Hin;
      try (repeat (destruct Hin as [Hin | Hin]; try discriminate Hin);
           contradiction).
    inversion Hbefore as [| ? ? Hr1 Hb1]; subst.
    inversion Hb1 as [| ? ? Hr2 Hb2]; subst.
    inversion Hb2 as [| ? ? Hr3 Hb3]; subst.
    assert (Hpub : In (publish topic payload qos)
                      (Spec.protocol BASE_DIR (uuid4 (uuid_next st))
                                     command)).
    { unfold Spec.protocol. cbn [mqtt_broker mqtt_topic CONFIG].
      do 3 right.
      match goal with
      | E : _ = (before' ++ c :: after)%list |- _ => rewrite E
      end.
      destruct Hin as [Hin | [Hin | [Hin | Hin]]]; try discriminate Hin.
      apply in_app_iff in Hin. apply in_app_iff.
      destruct Hin as [Hin | Hin]; [left; exact Hin |].
      right. destruct Hin as [<- | []]. left. reflexivity. }
    unfold Spec.protocol in Hpub. cbn [In] in Hpub.
    repeat (destruct Hpub as [Hpub | Hpub]; try discriminate Hpub);
      try contradiction.
    injection Hpub as <- <- <-. auto 7.
  - destruct Hspec as [-> Hall].
    eexists true, _, _. split; [reflexivity |].
    cbn [fs invoked uuid_next mqtt_log].
    repeat (split; [reflexivity |]).
    split; [discriminate |].
    split; [exists []; rewrite app_nil_r; reflexivity |].
    intros topic payload qos Hin.
    unfold Spec.protocol in Hin, Hall.
    cbn [mqtt_broker mqtt_topic CONFIG] in Hin, Hall.
    inversion Hall as [| ? ? Hr1 Hb1]; subst.
    inversion Hb1 as [| ? ? Hr2 Hb2]; subst.
    inversion Hb2 as [| ? ? Hr3 Hb3]; subst.
    cbn [In] in Hin.
    repeat (destruct Hin as [Hin | Hin]; try discriminate Hin);
      try contradiction.
    injection Hin as <- <- <-. auto 7.
Qed.

(** X13.  The cleanup of a notification is skipped by a failure.  When
    the publication or the wait for it raises, the loop that
    [loop_start] started is never stopped and the client is never
    disconnected: the calls end with the one that raised. *)
Theorem failed_publish_skips_the_cleanup (command : string)
    (st : app_state) (e : exception) :
  Spec.no_raise mqtt_outcome
    (Client ("streamlit_client_" ++ uuid4 (uuid_next st))) ->
  Spec.no_raise mqtt_outcome (connect "broker.hivemq.com" 1883 60) ->
  Spec.no_raise mqtt_outcome loop_start ->
  mqtt_outcome (publish "tinyml/anshika/badge" command 1) = raised e \/
  (Spec.no_raise mqtt_outcome (publish "tinyml/anshika/badge" command 1) /\
   mqtt_outcome (wait_for_publish 2) = raised e) ->
  exists (made : list mqtt_call) (st' : app_state),
    send_to_wokwi BASE_DIR uuid4 mqtt_outcome command st = (inr false, st') /\
    mqtt_log st' = (mqtt_log st ++ made)%list /\
    In loop_start made /\
    ~ In loop_stop made /\
    ~ In disconnect made /\
    ui st' = (ui st ++ [st_error_mqtt e])%list.
Proof.
  intros Hclient Hconnect Hloop Hfail.
  unfold send_to_wokwi, mqtt_do, fresh_uuid, show. run_py.
  cbn [fs ui mqtt_log invoked uuid_next mqtt_broker mqtt_topic CONFIG].
  destruct (mqtt_outcome
              (Client ("streamlit_client_" ++ uuid4 (uuid_next st))))
    as [| | e1] eqn:E1; [| | destruct (Hclient e1 E1)];
    (destruct (mqtt_outcome (connect "broker.hivemq.com" 1883 60))
       as [| | e2] eqn:E2; [| | destruct (Hconnect e2 E2)]);
    (destruct (mqtt_outcome loop_start)
       as [| | e3] eqn:E3; [| | destruct (Hloop e3 E3)]);
    cbn [fs ui mqtt_log invoked uuid_next];
    (destruct Hfail as [Hp | [Hp Hw]];
     [ rewrite Hp
     | destruct (mqtt_outcome (publish "tinyml/anshika/badge" command 1))
         as [| | e4] eqn:E4; [| | destruct (Hp e4 E4)];
       cbn [fs ui mqtt_log invoked uuid_next]; rewrite Hw ]);
    cbn [fs ui mqtt_log invoked uuid_next];
    rewrite <- ?app_assoc; cbn [app];
    eexists _, _; (split; [reflexivity |]);
    cbn [mqtt_log ui];
    (split; [reflexivity |]);
    (split; [cbn [In]; auto |]);
    (split; [cbn [In]; intros H;
             repeat (destruct H as [H | H]; try discriminate H);
             exact H |]);
    (split; [cbn [In]; intros H;
             repeat (destruct H as [H | H]; try discriminate H);
             exact H |]);
    reflexivity.
Qed.

End NotifierEffects.

Lemma failed_publish_skips_the_cleanup_witness :
  exists (made : list Week1App.mqtt_call) (st' : Week1App.app_state),
    Week1App.send_to_wokwi Example.BASE_DIR Example.uuid4
      (fun c => match c with
                | Week1App.publish _ _ _ =>
                    Week1App.raised (Py.LibraryError "Invalid topic.")
                | _ => Week1App.returned
                end) "D" Example.with_clip = (inr false, st') /\
    Week1App.mqtt_log st'
    = (Week1App.mqtt_log Example.with_clip ++ made)%list /\
    In Week1App.loop_start made /\
    ~ In Week1App.loop_stop made /\
    ~ In Week1App.disconnect made /\
    Week1App.ui st'
    = (Week1App.ui Example.with_clip
       ++ [Week1App.st_error_mqtt (Py.LibraryError "Invalid topic.")])%list.
Proof.
  apply (failed_publish_skips_the_cleanup Example.BASE_DIR Example.uuid4
           (fun c => match c with
                     | Week1App.publish _ _ _ =>
                         Week1App.raised (Py.LibraryError "Invalid topic.")
                     | _ => Week1App.returned
                     end) "D" Example.with_clip
           (Py.LibraryError "Invalid topic."));
    try (intros e H; discriminate H).
  left. reflexivity.
Defined.

(** ** Loading the resources when the label file is there *)

Section LabelFile.
Import Py Np Week1App.
Local Open Scope string_scope.

Variable BASE_DIR : string.
Variable uuid4 : nat -> string.
Variable mqtt_outcome : mqtt_call -> outcome.
Variable tmp_name : nat -> string.
Variable np_load : Os.bytes -> result (list string).
Variable tflite_Interpreter : Os.bytes -> result Interpreter.
Variable librosa_load : Os.bytes -> result (list Q).
Variable librosa_effects_trim : list Q -> list Q.
Variable librosa_feature_mfcc : list Q -> matrix.

(** X14.  The label file is decoded before the model is looked at.  A
    label file that cannot be decoded ends the run of the script with the
    error of [np.load], the page showing nothing, not even that the model
    is missing; a decoded one gives the classes that are returned with the
    interpreter, and an error of the interpreter on the model file leaves
    [load_resources] as it is. *)
Theorem label_file_is_decoded_first (st : app_state) (b : Os.bytes) :
  Os.read (fs st) (classes_path (CONFIG BASE_DIR)) = Some b ->
  (forall e,
     np_load b = inl e ->
     load_resources BASE_DIR np_load tflite_Interpreter st = (inl e, st) /\
     forall uploaded_file recorded_audio,
       script BASE_DIR uuid4 mqtt_outcome tmp_name np_load
         tflite_Interpreter librosa_load librosa_effects_trim
         librosa_feature_mfcc uploaded_file recorded_audio st
       = (inl e, st)) /\
  (forall classes,
     np_load b = inr classes ->
     (Os.path_exists (fs st) (model_path (CONFIG BASE_DIR)) = false ->
      load_resources BASE_DIR np_load tflite_Interpreter st
      = (inr (None, None),
         mk_state (fs st)
           (ui st ++ [st_error_model_not_found
                        (model_path (CONFIG BASE_DIR))])
           (mqtt_log st) (invoked st) (uuid_next st))) /\
     (forall model_bytes,
        Os.read (fs st) (model_path (CONFIG BASE_DIR)) = Some model_bytes ->
        (forall e,
           tflite_Interpreter model_bytes = inl e ->
           load_resources BASE_DIR np_load tflite_Interpreter st
           = (inl e, st)) /\
        (forall interpreter,
           tflite_Interpreter model_bytes = inr interpreter ->
           load_resources BASE_DIR np_load tflite_Interpreter st
           = (inr (Some interpreter, Some classes), st)))).
Proof.
  intros Hb.
  pose proof (path_exists_of_read _ _ _ Hb) as Hc.
  split.
  - intros e He.
    assert (Hl : load_resources BASE_DIR np_load tflite_Interpreter st
                 = (inl e, st)).
    { unfold load_resources. rewrite Hc.
      unfold mbind, read_file, lift, ret. rewrite Hb. cbv beta iota.
      rewrite He. reflexivity. }
    split; [exact Hl |]. intros uploaded_file recorded_audio.
    unfold script, mbind. rewrite Hl. reflexivity.
  - intros classes Hcs. split.
    + intros Hm. unfold load_resources. rewrite Hc, Hm.
      unfold mbind, read_file, lift, show, modify, mret, ret.
      rewrite Hb. cbv beta iota. rewrite Hcs. reflexivity.
    + intros model_bytes Hmb.
      pose proof (path_exists_of_read _ _ _ Hmb) as Hm.
      split.
      * intros e He. unfold load_resources. rewrite Hc, Hm.
        unfold mbind, read_file, lift, mret, ret.
        rewrite Hb. cbv beta iota. rewrite Hcs. cbn [negb].
        rewrite Hmb. cbv beta iota. rewrite He. reflexivity.
      * intros interpreter Hi. unfold load_resources. rewrite Hc, Hm.
        unfold mbind, read_file, lift, mret, ret.
        rewrite Hb. cbv beta iota. rewrite Hcs. cbn [negb].
        rewrite Hmb. cbv beta iota. rewrite Hi. reflexivity.
Qed.

End LabelFile.

Lemma label_file_is_decoded_first_witness :
  Week1App.script Example.BASE_DIR Example.uuid4 Example.broker_up
    Example.tmp_name
    (fun _ => inl (Py.LibraryError "Failed to interpret file as a pickle"))
    Example.tflite_Interpreter Example.librosa_load
    Example.librosa_effects_trim Example.librosa_feature_mfcc
    (Some (Example.upload, true)) None
    (Week1App.mk_state (Os.mk_fs [("/app/classes.npy", "junk")]%string [] 0)
                       [] [] [] 0)
  = (inl (Py.LibraryError "Failed to interpret file as a pickle"),
     Week1App.mk_state (Os.mk_fs [("/app/classes.npy", "junk")]%string [] 0)
                       [] [] [] 0).
Proof.
  apply (proj1 (label_file_is_decoded_first Example.BASE_DIR Example.uuid4
                  Example.broker_up Example.tmp_name
                  (fun _ => inl (Py.LibraryError
                                   "Failed to interpret file as a pickle"))
                  Example.tflite_Interpreter Example.librosa_load
                  Example.librosa_effects_trim Example.librosa_feature_mfcc
                  (Week1App.mk_state
                     (Os.mk_fs [("/app/classes.npy", "junk")]%string [] 0)
                     [] [] [] 0)
                  "junk"%string eq_refl)
               (Py.LibraryError "Failed to interpret file as a pickle")
               eq_refl).
Defined.

(** ** One analysis in the MFCC front end: the paths without a result *)

Section AnalysisPaths.
Import Py Np Week1App.
Local Open Scope string_scope.

Variable BASE_DIR : string.
Variable uuid4 : nat -> string.
Variable mqtt_outcome : mqtt_call -> outcome.
Variable tmp_name : nat -> string.
Variable librosa_load : Os.bytes -> result (list Q).
Variable librosa_effects_trim : list Q -> list Q.
Variable librosa_feature_mfcc : list Q -> matrix.

(** X15.  Without the button nothing is analysed.  Every run of the page
    with a file in the uploader writes the temporary file, shows the
    player and removes the file again: the interpreter is not run and no
    client call is made, whether a model is loaded or not. *)
Theorem without_the_button_nothing_is_analysed
    (interpreter : option Interpreter) (classes : option (list string))
    (src : source) (st : app_state) :
  Os.path_exists (fs st) (tmp_name (Os.tmp_next (fs st))) = false ->
  existsb (String.eqb (tmp_name (Os.tmp_next (fs st)))) (Os.locked (fs st))
    = false ->
  analyze_audio BASE_DIR uuid4 mqtt_outcome tmp_name librosa_load
    librosa_effects_trim librosa_feature_mfcc interpreter classes src
    false st
  = (inr tt,
     mk_state (Spec.files_restored (fs st))
       (ui st ++ [st_audio (tmp_name (Os.tmp_next (fs st)))])
       (mqtt_log st) (invoked st) (uuid_next st)).
Proof.
  intros Hfresh Hfree.
  pose proof (write_temp_then_remove tmp_name (fs st) (content src)
                Hfresh Hfree) as Hrm.
  unfold analyze_audio, write_temp, show, os_remove. run_py.
  destruct (Os.write_temp tmp_name (fs st) (content src)) as [path fs1] eqn:Ew.
  assert (Hpath : path = tmp_name (Os.tmp_next (fs st))).
  { unfold Os.write_temp in Ew. injection Ew as <- _. reflexivity. }
  cbn [fs ui mqtt_log invoked uuid_next snd] in *.
  rewrite Hpath, Hrm. reflexivity.
Qed.

(** X16.  An upload that cannot be decoded.  The error of
    [librosa.load] is shown; the interpreter is not run, no client call is
    made, and the temporary file is removed. *)
Theorem unreadable_audio_is_reported_and_not_sent
    (interpreter : Interpreter) (classes : option (list string))
    (src : source) (st : app_state) (e : exception) :
  librosa_load (content src) = inl e ->
  Os.path_exists (fs st) (tmp_name (Os.tmp_next (fs st))) = false ->
  existsb (String.eqb (tmp_name (Os.tmp_next (fs st)))) (Os.locked (fs st))
    = false ->
  analyze_audio BASE_DIR uuid4 mqtt_outcome tmp_name librosa_load
    librosa_effects_trim librosa_feature_mfcc (Some interpreter) classes
    src true st
  = (inr tt,
     mk_state (Spec.files_restored (fs st))
       (ui st ++ [ st_audio (tmp_name (Os.tmp_next (fs st)));
                   st_error_loading_audio e ])
       (mqtt_log st) (invoked st) (uuid_next st)).
Proof.
  intros Hload Hfresh Hfree.
  pose proof (write_temp_then_remove tmp_name (fs st) (content src)
                Hfresh Hfree) as Hrm.
  pose proof (write_temp_read tmp_name (fs st) (content src)) as Hread.
  unfold analyze_audio, mbind at 1 2, write_temp.
  destruct (Os.write_temp tmp_name (fs st) (content src)) as [path fs1] eqn:Ew.
  assert (Hpath : path = tmp_name (Os.tmp_next (fs st))).
  { unfold Os.write_temp in Ew. injection Ew as <- _. reflexivity. }
  cbn [fst snd] in Hrm, Hread.
  unfold ret, show, modify, mbind at 1.
  unfold classify_and_notify, mbind at 2.
  unfold preprocess_audio, read_file, show. run_py.
  cbn [fs ui mqtt_log invoked uuid_next].
  rewrite Hread, Hload.
  cbn [fs ui mqtt_log invoked uuid_next].
  unfold os_remove. cbn [fs ui mqtt_log invoked uuid_next].
  rewrite Hpath, Hrm, <- app_assoc. reflexivity.
Qed.

(** X17.  Fewer labels than outputs.  When the largest score of the
    model sits at an index the label list does not have, the lookup
    [classes[pred_idx]] raises [IndexError], which nothing catches:
    the exception leaves [analyze_audio], no client call is made, nothing
    but the player is shown, and the temporary file stays. *)
Theorem labels_shorter_than_outputs
    (interpreter : Interpreter) (classes : list string) (src : source)
    (st : app_state) (y probs : list Q) (pred_idx : nat) :
  librosa_load (content src) = inr y ->
  run interpreter
      (nd_float32
         (expand_dims_batch_channel
            (fix_time_steps
               (librosa_feature_mfcc
                  (pad_or_truncate (librosa_effects_trim y))))))
    = inr probs ->
  argmax probs = inr pred_idx ->
  (List.length classes <= pred_idx)%nat ->
  exists st',
    analyze_audio BASE_DIR uuid4 mqtt_outcome tmp_name librosa_load
      librosa_effects_trim librosa_feature_mfcc (Some interpreter)
      (Some classes) src true st = (inl IndexError, st') /\
    mqtt_log st' = mqtt_log st /\
    ui st' = (ui st ++ [st_audio (tmp_name (Os.tmp_next (fs st)))])%list /\
    List.length (invoked st') = S (List.length (invoked st)) /\
    Os.path_exists (fs st') (tmp_name (Os.tmp_next (fs st))) = true.
Proof.
  intros Hload Hrun Harg Hshort.
  destruct (argmax_first_largest _ _ Harg) as (p & Hp & _).
  assert (Hclass : item classes pred_idx = inl IndexError).
  { unfold item. apply nth_error_None in Hshort. rewrite Hshort.
    reflexivity. }
  unfold analyze_audio, mbind at 1 2, write_temp.
  pose proof (write_temp_exists tmp_name (fs st) (content src)) as [Hex _].
  pose proof (write_temp_read tmp_name (fs st) (content src)) as Hread.
  destruct (Os.write_temp tmp_name (fs st) (content src)) as [path fs1] eqn:Ew.
  assert (Hpath : path = tmp_name (Os.tmp_next (fs st))).
  { unfold Os.write_temp in Ew. injection Ew as <- _. reflexivity. }
  cbn [fst snd] in Hex, Hread. unfold ret, show, modify, mbind at 1.
  unfold classify_and_notify, mbind at 1.
  erewrite preprocess_audio_loaded; [| exact Hread | exact Hload].
  unfold mbind, lift. rewrite (interpreter_run_returns _ _ _ _ Hrun), Harg.
  unfold item at 1. rewrite Hp. unfold ret. rewrite Hclass.
  eexists. split; [reflexivity |].
  cbn [fs ui mqtt_log invoked]. rewrite <- Hpath.
  repeat split; try reflexivity; [| exact Hex].
  rewrite length_app. cbn [List.length]. lia.
Qed.

End AnalysisPaths.

Lemma without_the_button_nothing_is_analysed_witness :
  Week1App.analyze_audio Example.BASE_DIR Example.uuid4 Example.broker_up
    Example.tmp_name Example.librosa_load Example.librosa_effects_trim
    Example.librosa_feature_mfcc (Some Example.mfcc_model)
    (Some Week1App.default_classes) Example.upload false Example.model_only
  = (inr tt,
     Week1App.mk_state
       (Spec.files_restored (Week1App.fs Example.model_only))
       (Week1App.ui Example.model_only
        ++ [Week1App.st_audio
              (Example.tmp_name
                 (Os.tmp_next (Week1App.fs Example.model_only)))])
       (Week1App.mqtt_log Example.model_only)
       (Week1App.invoked Example.model_only)
       (Week1App.uuid_next Example.model_only)).
Proof.
  apply (without_the_button_nothing_is_analysed Example.BASE_DIR
           Example.uuid4 Example.broker_up Example.tmp_name
           Example.librosa_load Example.librosa_effects_trim
           Example.librosa_feature_mfcc (Some Example.mfcc_model)
           (Some Week1App.default_classes) Example.upload
           Example.model_only);
    reflexivity.
Defined.

Lemma unreadable_audio_is_reported_and_not_sent_witness :
  Week1App.analyze_audio Example.BASE_DIR Example.uuid4 Example.broker_up
    Example.tmp_name
    (fun _ => inl (Py.LibraryError "NoBackendError"))
    Example.librosa_effects_trim Example.librosa_feature_mfcc
    (Some Example.mfcc_model) (Some Week1App.default_classes)
    Example.upload true Example.model_only
  = (inr tt,
     Week1App.mk_state
       (Spec.files_restored (Week1App.fs Example.model_only))
       (Week1App.ui Example.model_only
        ++ [ Week1App.st_audio
               (Example.tmp_name
                  (Os.tmp_next (Week1App.fs Example.model_only)));
             Week1App.st_error_loading_audio
               (Py.LibraryError "NoBackendError") ])
       (Week1App.mqtt_log Example.model_only)
       (Week1App.invoked Example.model_only)
       (Week1App.uuid_next Example.model_only)).
Proof.
  apply (unreadable_audio_is_reported_and_not_sent Example.BASE_DIR
           Example.uuid4 Example.broker_up Example.tmp_name
           (fun _ => inl (Py.LibraryError "NoBackendError"))
           Example.librosa_effects_trim Example.librosa_feature_mfcc
           Example.mfcc_model (Some Week1App.default_classes)
           Example.upload Example.model_only
           (Py.LibraryError "NoBackendError"));
    reflexivity.
Defined.

Lemma labels_shorter_than_outputs_witness :
  exists st',
    Week1App.analyze_audio Example.BASE_DIR Example.uuid4 Example.broker_up
      Example.tmp_name Example.librosa_load Example.librosa_effects_trim
      Example.librosa_feature_mfcc (Some Example.mfcc_model)
      (Some ["angry"; "fear"]%string) Example.upload true Example.model_only
    = (inl Py.IndexError, st') /\
    Week1App.mqtt_log st' = Week1App.mqtt_log Example.model_only /\
    Week1App.ui st'
    = (Week1App.ui Example.model_only
       ++ [Week1App.st_audio
             (Example.tmp_name
                (Os.tmp_next (Week1App.fs Example.model_only)))])%list /\
    List.length (Week1App.invoked st')
    = S (List.length (Week1App.invoked Example.model_only)) /\
    Os.path_exists (Week1App.fs st')
      (Example.tmp_name (Os.tmp_next (Week1App.fs Example.model_only)))
    = true.
Proof.
  apply (labels_shorter_than_outputs Example.BASE_DIR Example.uuid4
           Example.broker_up Example.tmp_name Example.librosa_load
           Example.librosa_effects_trim Example.librosa_feature_mfcc
           Example.mfcc_model ["angry"; "fear"]%string Example.upload
           Example.model_only [1 # 2; - (1 # 4)]
           [1 # 10; 0; 7 # 10; 0; 1 # 10; 1 # 10; 0] 2%nat);
    reflexivity.
Defined.

(** ** The order of the rows of the export *)

Section WalkOrder.
Import ExcelExport.
Local Open Scope string_scope.

Lemma walk_subdirs_in_order (root : string) (l : list (string * dir)) :
  Forall (fun p : string * dir =>
            forall root st,
              Spec.names_ok (snd p) = true ->
              walk root (snd p) st
              = Spec.add_rows st
                  (Spec.walk_labels (os_path_basename root) (snd p))) l ->
  forallb (fun p : string * dir =>
             let (n, sub) := p in
             (negb (Spec.contains sep n) && Spec.names_ok sub)%bool) l
    = true ->
  forall st,
    fold_left (fun st (p : string * dir) =>
                 walk (os_path_join root (fst p)) (snd p) st) l st
    = Spec.add_rows st
        (List.concat
           (map (fun p : string * dir => Spec.walk_labels (fst p) (snd p))
                l)).
Proof.
  induction 1 as [| [n sub] l Hp _ IH]; intros Hok st.
  - symmetry. apply add_rows_nil.
  - cbn [forallb] in Hok. apply andb_true_iff in Hok.
    destruct Hok as [Hhd Htl]. apply andb_true_iff in Hhd.
    destruct Hhd as [Hn Hsub]. apply negb_true_iff in Hn.
    cbn [fold_left map List.concat fst snd] in *.
    rewrite (Hp (os_path_join root n) st Hsub), (IH Htl).
    rewrite (basename_join root n Hn). apply add_rows_app.
Qed.

Lemma walk_in_order (d : dir) :
  forall root st,
    Spec.names_ok d = true ->
    walk root d st
    = Spec.add_rows st (Spec.walk_labels (os_path_basename root) d).
Proof.
  induction d as [files subdirs IH] using dir_induction.
  intros root st Hok. cbn [Spec.names_ok] in Hok.
  pose proof (sort_by_perm fst subdirs) as Hperm.
  assert (IH' : Forall (fun p : string * dir =>
                          forall root st,
                            Spec.names_ok (snd p) = true ->
                            walk root (snd p) st
                            = Spec.add_rows st
                                (Spec.walk_labels (os_path_basename root)
                                                  (snd p)))
                       (sort_by fst subdirs)).
  { eapply Permutation_Forall; [apply Permutation_sym, Hperm | exact IH]. }
  assert (Hok' : forallb (fun p : string * dir =>
                            let (n, sub) := p in
                            (negb (Spec.contains sep n)
                             && Spec.names_ok sub)%bool)
                         (sort_by fst subdirs) = true).
  { apply forallb_forall. intros p Hp.
    rewrite forallb_forall in Hok. apply Hok.
    eapply Permutation_in; [exact Hperm | exact Hp]. }
  rewrite walk_unfold, files_add_rows.
  rewrite (walk_subdirs_in_order root _ IH' Hok'), add_rows_app.
  cbn [Spec.walk_labels].
  rewrite (filter_length_perm _ _ _ (sort_by_perm (fun s => s) files)).
  rewrite (sort_by_map fst fst) by (intros [n sub]; reflexivity).
  rewrite map_map. do 3 f_equal.
  apply map_ext. intros [n sub]. reflexivity.
Qed.

Lemma Sorted_key_map {A B} (key : A -> string) (key' : B -> string)
    (g : A -> B) (l : list A) :
  (forall a, key' (g a) = key a) ->
  Sorted (Spec.key_le key) l -> Sorted (Spec.key_le key') (map g l).
Proof.
  intros Hk. induction 1 as [| a l _ IH Hhd]; cbn [map]; constructor.
  - exact IH.
  - destruct Hhd as [| b l Hab]; cbn [map]; constructor.
    unfold Spec.key_le in *. rewrite !Hk. exact Hab.
Qed.

(** X18.  The rows of the export are in the order of the walk: the
    recordings of a folder first, then its subfolders by ascending name,
    every row with the label of its own folder.  For a data set laid out
    as one folder per emotion, listed by ascending name, the column of
    labels is one block per folder, as long as the folder has
    recordings. *)
Theorem export_rows_in_walk_order (DATASET_PATH : string) (tree : dir) :
  Spec.names_ok tree = true ->
  export DATASET_PATH tree
  = Spec.rows_of start_time 1
      (Spec.walk_labels (os_path_basename DATASET_PATH) tree) /\
  (forall folders : list (string * list string),
     tree = Dir [] (map (fun f => (fst f, Dir (snd f) [])) folders) ->
     Sorted (Spec.key_le fst) folders ->
     map inference_of_emotion (export DATASET_PATH tree)
     = flat_map (fun f => repeat (Spec.emotion_label (fst f))
                            (List.length (filter Spec.is_wav (snd f))))
                folders).
Proof.
  intros Hok.
  assert (E : export DATASET_PATH tree
              = Spec.rows_of start_time 1
                  (Spec.walk_labels (os_path_basename DATASET_PATH) tree)).
  { unfold export. rewrite (walk_in_order tree DATASET_PATH initial Hok).
    reflexivity. }
  split; [exact E |].
  intros folders -> Hsorted. rewrite E, rows_of_labels.
  cbn [Spec.walk_labels filter List.length repeat app].
  rewrite map_map.
  rewrite (sort_by_of_sorted fst).
  - rewrite map_map, flat_map_concat_map. f_equal.
    apply map_ext. intros [n fs]. cbn [fst snd Spec.walk_labels map].
    cbn [sort_by fold_right map List.concat]. apply app_nil_r.
  - apply (Sorted_key_map fst fst); [| exact Hsorted].
    intros [n fs]. reflexivity.
Qed.

Lemma export_rows_in_walk_order_witness :
  export "archive"
    (Dir ["notes.txt"]
         [ ("YAF_sad", Dir ["b.wav"; "a.WAV"] []);
           ("OAF_happy", Dir ["c.wav"] []) ])
  = Spec.rows_of start_time 1
      (Spec.walk_labels (os_path_basename "archive")
         (Dir ["notes.txt"]
              [ ("YAF_sad", Dir ["b.wav"; "a.WAV"] []);
                ("OAF_happy", Dir ["c.wav"] []) ])).
Proof.
  apply (proj1 (export_rows_in_walk_order "archive"
                  (Dir ["notes.txt"]
                       [ ("YAF_sad", Dir ["b.wav"; "a.WAV"] []);
                         ("OAF_happy", Dir ["c.wav"] []) ])
                  eq_refl)).
Defined.

End WalkOrder.

(** ** The synthetic sheet *)

Section SyntheticSheet.
Import Py ExcelExport SyntheticData.
Local Open Scope string_scope.
Local Open Scope Z_scope.

(** The loop of lines 15-17 started at [t] with [n] passes to go: it
    ends when it is given more than [n] tests of its condition, and only
    then. *)
Lemma while_loop_passes (n : nat) :
  forall (t : datetime) (timestamps : list string) (fuel : nat),
    end_time < t + interval_seconds * Z.of_nat n ->
    t + interval_seconds * (Z.of_nat n - 1) <= end_time ->
    while_loop fuel t timestamps
    = if (fuel <=? n)%nat then None
      else Some (timestamps ++
                 map (fun k => strftime_HMS
                                 (t + interval_seconds * Z.of_nat k))
                     (seq 0 n))%list.
Proof.
  unfold end_time, interval_seconds.
  induction n as [| n IH]; intros t timestamps fuel Hend Hlast.
  - destruct fuel as [| fuel]; [reflexivity |].
    cbn [while_loop Nat.leb seq map]. unfold end_time.
    destruct (Z.leb_spec t (18 * 3600)) as [L | L]; [lia |].
    rewrite app_nil_r. reflexivity.
  - destruct fuel as [| fuel]; [reflexivity |].
    cbn [while_loop]. unfold end_time, interval_seconds.
    destruct (Z.leb_spec t (18 * 3600)) as [L | L]; [| lia].
    rewrite IH by lia.
    change (S fuel <=? S n)%nat with (fuel <=? n)%nat.
    destruct (fuel <=? n)%nat; [reflexivity |].
    rewrite <- app_assoc. cbn [app seq map].
    rewrite <- seq_shift, map_map. do 3 f_equal.
    + f_equal. lia.
    + apply map_ext. intros k. f_equal. lia.
Qed.

Lemma nth_error_seq_value (a n k x : nat) :
  nth_error (seq a n) k = Some x -> x = (a + k)%nat.
Proof.
  revert a k. induction n as [| n IH]; intros a k H.
  - destruct k; discriminate H.
  - destruct k as [| k]; cbn in H.
    + injection H as <-. lia.
    + apply IH in H. lia.
Qed.

Lemma zip_columns_rows :
  forall (ids : list Z) (times labels : list string),
    List.length ids = List.length times ->
    List.length labels = List.length times ->
    exists rows,
      zip_columns ids times labels = inr rows /\
      List.length rows = List.length times /\
      forall k r,
        nth_error rows k = Some r ->
        nth_error ids k = Some (id r) /\
        nth_error times k = Some (time r) /\
        nth_error labels k = Some (inference_of_emotion r).
Proof.
  induction ids as [| i ids IH]; intros [| t times] [| l labels] Hi Hl;
    try discriminate.
  - exists []. split; [reflexivity |]. split; [reflexivity |].
    intros [| k] r H; discriminate H.
  - cbn [List.length] in Hi, Hl.
    destruct (IH times labels) as (rows & E & Hlen & Hnth); [lia | lia |].
    exists (mk_row i t l :: rows). cbn [zip_columns]. rewrite E.
    split; [reflexivity |]. split; [cbn [List.length]; lia |].
    intros [| k] r H; cbn in H.
    + injection H as <-. repeat split.
    + apply Hnth, H.
Qed.

Section Draws.

Variable randbelow : nat -> nat -> nat.
Hypothesis randbelow_below :
  forall k n, (0 < n)%nat -> (randbelow k n < n)%nat.

Lemma choices_in_emotions (timestamps : list string) :
  forall k,
    exists labels,
      choices randbelow k timestamps = inr labels /\
      List.length labels = List.length timestamps /\
      Forall (fun l => In l emotions) labels.
Proof.
  induction timestamps as [| t timestamps IH]; intros k.
  - exists []. repeat split. constructor.
  - destruct (IH (S k)) as (labels & E & Hlen & Hall).
    cbn [choices]. unfold random_choice, emotions at 1 2.
    assert (Hlt : (randbelow k (List.length emotions)
                   < List.length emotions)%nat).
    { apply randbelow_below. cbn. lia. }
    destruct (nth_error emotions (randbelow k (List.length emotions)))
      as [e |] eqn:En; [| apply nth_error_None in En; lia].
    fold emotions. rewrite En. unfold bind, ret. rewrite E.
    exists (e :: labels). split; [reflexivity |].
    split; [cbn [List.length]; lia |].
    constructor; [eapply nth_error_In; exact En | exact Hall].
Qed.

(** X19.  The synthetic sheet.  The loop ends after 3241 passes, one more
    test of its condition and no fewer.  The frame has 3241 rows,
    numbered from 1, ten seconds apart from 09:00:00 to 18:00:00, both
    included; and whatever the generator draws, every label is one of the
    five emotions and the three columns have the same length, so that the
    frame is built without an error. *)
Theorem synthetic_sheet :
  (forall fuel, (fuel <= Z.to_nat 3241)%nat -> script randbelow fuel = None)
  /\
  exists rows : list row,
    (forall fuel,
       (Z.to_nat 3241 < fuel)%nat ->
       script randbelow fuel = Some (inr rows)) /\
    List.length rows = Z.to_nat 3241 /\
    (forall k r,
       nth_error rows k = Some r ->
       id r = Z.of_nat k + 1 /\
       time r = strftime_HMS (start_time + 10 * Z.of_nat k) /\
       Spec.seconds_of_day (time r) = Some (32400 + 10 * Z.of_nat k) /\
       In (inference_of_emotion r) emotions) /\
    (exists first last,
       nth_error rows 0 = Some first /\ time first = "09:00:00" /\
       nth_error rows (Z.to_nat 3240) = Some last /\
       time last = "18:00:00").
Proof.
  assert (Hloop : forall fuel,
             while_loop fuel start_time []
             = if (fuel <=? Z.to_nat 3241)%nat then None
               else Some (map (fun k => strftime_HMS
                                          (start_time + 10 * Z.of_nat k))
                              (seq 0 (Z.to_nat 3241)))).
  { intros fuel.
    rewrite (while_loop_passes (Z.to_nat 3241));
      unfold start_time, end_time, interval_seconds;
      rewrite ?Z2Nat.id by lia; try lia.
    reflexivity. }
  set (timestamps := map (fun k => strftime_HMS
                                     (start_time + 10 * Z.of_nat k))
                         (seq 0 (Z.to_nat 3241))) in *.
  assert (Hlen : List.length timestamps = Z.to_nat 3241).
  { unfold timestamps. rewrite length_map, length_seq. reflexivity. }
  split.
  - intros fuel Hfuel. unfold script. rewrite Hloop.
    apply Nat.leb_le in Hfuel. rewrite Hfuel. reflexivity.
  - destruct (choices_in_emotions timestamps 0%nat)
      as (labels & Echoices & Hlabels & Hin).
    destruct (zip_columns_rows
                (range_from_1 (List.length timestamps + 1))
                timestamps labels) as (rows & Ezip & Hrows & Hnth).
    { unfold range_from_1. rewrite length_map, length_seq. lia. }
    { exact Hlabels. }
    assert (Hrow : forall k r,
               nth_error rows k = Some r ->
               id r = Z.of_nat k + 1 /\
               time r = strftime_HMS (start_time + 10 * Z.of_nat k) /\
               In (inference_of_emotion r) emotions).
    { intros k r Hr. destruct (Hnth k r Hr) as (Hid & Htime & Hlabel).
      split; [| split].
      - unfold range_from_1 in Hid. rewrite nth_error_map in Hid.
        destruct (nth_error (seq 1 (List.length timestamps + 1 - 1)) k)
          as [x |] eqn:Ex; [| discriminate Hid].
        apply nth_error_seq_value in Ex. cbn [option_map] in Hid.
        injection Hid as <-. lia.
      - unfold timestamps in Htime. rewrite nth_error_map in Htime.
        destruct (nth_error (seq 0 (Z.to_nat 3241)) k)
          as [x |] eqn:Ex; [| discriminate Htime].
        apply nth_error_seq_value in Ex. cbn [option_map] in Htime.
        injection Htime as <-. subst x. reflexivity.
      - rewrite Forall_forall in Hin. apply Hin.
        eapply nth_error_In. exact Hlabel. }
    assert (Hsome : forall k, (k < Z.to_nat 3241)%nat ->
                              exists r, nth_error rows k = Some r).
    { intros k Hk.
      destruct (nth_error rows k) as [r |] eqn:Er; [exists r; reflexivity |].
      apply nth_error_None in Er. lia. }
    exists rows. split; [| split; [| split]].
    + intros fuel Hfuel. unfold script. rewrite Hloop.
      apply Nat.leb_gt in Hfuel. rewrite Hfuel.
      unfold bind. rewrite Echoices. rewrite Ezip. reflexivity.
    + rewrite Hrows. exact Hlen.
    + intros k r Hr. destruct (Hrow k r Hr) as (Hid & Htime & Hlabel).
      repeat split; try assumption.
      assert (Hk : (k < Z.to_nat 3241)%nat).
      { rewrite <- Hlen, <- Hrows. apply nth_error_Some. rewrite Hr.
        discriminate. }
      rewrite Htime, seconds_of_day_strftime
        by (unfold start_time; lia).
      f_equal. unfold start_time. rewrite Z.mod_small; lia.
    + destruct (Hsome 0%nat) as (first & Hfirst); [lia |].
      destruct (Hsome (Z.to_nat 3240)) as (last & Hlast); [lia |].
      exists first, last.
      destruct (Hrow _ _ Hfirst) as (_ & Ht1 & _).
      destruct (Hrow _ _ Hlast) as (_ & Ht2 & _).
      rewrite Z2Nat.id in Ht2 by lia.
      repeat split; assumption.
Qed.

End Draws.

End SyntheticSheet.

Lemma synthetic_sheet_witness :
  (forall fuel,
     (fuel <= Z.to_nat 3241)%nat ->
     SyntheticData.script (fun k n => Nat.modulo k n) fuel = None) /\
  exists rows : list ExcelExport.row,
    (forall fuel,
       (Z.to_nat 3241 < fuel)%nat ->
       SyntheticData.script (fun k n => Nat.modulo k n) fuel
       = Some (inr rows)) /\
    List.length rows = Z.to_nat 3241 /\
    (forall k r,
       nth_error rows k = Some r ->
       ExcelExport.id r = (Z.of_nat k + 1)%Z /\
       ExcelExport.time r
       = ExcelExport.strftime_HMS
           (SyntheticData.start_time + 10 * Z.of_nat k)%Z /\
       Spec.seconds_of_day (ExcelExport.time r)
       = Some (32400 + 10 * Z.of_nat k)%Z /\
       In (ExcelExport.inference_of_emotion r) SyntheticData.emotions) /\
    (exists first last,
       nth_error rows 0 = Some first /\
       ExcelExport.time first = "09:00:00"%string /\
       nth_error rows (Z.to_nat 3240) = Some last /\
       ExcelExport.time last = "18:00:00"%string).
Proof.
  apply (synthetic_sheet (fun k n => Nat.modulo k n)).
  intros k n Hn. apply Nat.mod_upper_bound. lia.
Defined.

(** ** One analysis in the MFCC front end, from the upload to the badge *)

Section CompleteAnalysis.
Import Py Np Week1App.
Local Open Scope string_scope.

Variable BASE_DIR : string.
Variable uuid4 : nat -> string.
Variable mqtt_outcome : mqtt_call -> outcome.
Variable tmp_name : nat -> string.
Variable librosa_load : Os.bytes -> result (list Q).
Variable librosa_effects_trim : list Q -> list Q.
Variable librosa_feature_mfcc : list Q -> matrix.

(** X20.  A complete analysis.  When the upload decodes, the model
    returns scores and the label list has a label for the first largest
    score, made of ASCII characters, one press of the button runs the
    interpreter once, on the padded features; makes the client calls of one notification, with the
    badge code of that label, up to the first call that raises; shows the
    player, the error of the notifier if there is one, the result, the
    label in capitals, the largest score as a percentage, whether the
    signal was sent, and the chart; and removes the temporary file. *)
Theorem complete_analysis
    (interpreter : Interpreter) (classes : list string) (src : source)
    (st : app_state) (y probs : list Q) (pred_idx : nat)
    (emotion : string) :
  librosa_load (content src) = inr y ->
  run interpreter
      (nd_float32
         (expand_dims_batch_channel
            (fix_time_steps
               (librosa_feature_mfcc
                  (pad_or_truncate (librosa_effects_trim y))))))
    = inr probs ->
  argmax probs = inr pred_idx ->
  item classes pred_idx = inr emotion ->
  Spec.ascii_only emotion = true ->
  Os.path_exists (fs st) (tmp_name (Os.tmp_next (fs st))) = false ->
  existsb (String.eqb (tmp_name (Os.tmp_next (fs st)))) (Os.locked (fs st))
    = false ->
  exists (p : Q) (status color : string) (made : list mqtt_call)
         (failure : option exception),
    nth_error probs pred_idx = Some p /\
    Spec.first_largest probs pred_idx /\
    safety_logic emotion = (status, color, Spec.badge_code emotion) /\
    Spec.until_failure mqtt_outcome
      (Spec.protocol BASE_DIR (uuid4 (uuid_next st))
                     (Spec.badge_code emotion)) = (made, failure) /\
    analyze_audio BASE_DIR uuid4 mqtt_outcome tmp_name librosa_load
      librosa_effects_trim librosa_feature_mfcc (Some interpreter)
      (Some classes) src true st
    = (inr tt,
       mk_state (Spec.files_restored (fs st))
         (ui st
          ++ [st_audio (tmp_name (Os.tmp_next (fs st)))]
          ++ match failure with
             | Some e => [st_error_mqtt e]
             | None => []
             end
          ++ [ st_markdown_result color status;
               st_markdown_emotion (upper emotion);
               st_markdown_confidence (p * 100)%Q;
               match failure with
               | Some _ => st_error_failed_to_send
               | None => st_success_sent (Spec.badge_code emotion)
               end;
               st_bar_chart probs ])
         (mqtt_log st ++ made)
         (invoked st
          ++ [nd_float32
                (expand_dims_batch_channel
                   (fix_time_steps
                      (librosa_feature_mfcc
                         (pad_or_truncate (librosa_effects_trim y)))))])
         (S (uuid_next st))).
Proof.
  intros Hload Hrun Harg Hemotion _ Hfresh Hfree.
  pose proof (argmax_first_largest _ _ Harg) as Hfirst.
  destruct Hfirst as (p & Hp & Hfirst).
  destruct (safety_logic_code emotion) as (status & color & Hsafe).
  destruct (Spec.until_failure mqtt_outcome
              (Spec.protocol BASE_DIR (uuid4 (uuid_next st))
                             (Spec.badge_code emotion)))
    as [made failure] eqn:Hcalls.
  exists p, status, color, made, failure.
  split; [exact Hp |].
  split; [exists p; split; [exact Hp | exact Hfirst] |].
  split; [exact Hsafe |]. split; [reflexivity |].
  pose proof (write_temp_then_remove tmp_name (fs st) (content src)
                Hfresh Hfree) as Hrm.
  pose proof (write_temp_read tmp_name (fs st) (content src)) as Hread.
  unfold analyze_audio, mbind at 1 2, write_temp.
  destruct (Os.write_temp tmp_name (fs st) (content src)) as [path fs1] eqn:Ew.
  assert (Hpath : path = tmp_name (Os.tmp_next (fs st))).
  { unfold Os.write_temp in Ew. injection Ew as <- _. reflexivity. }
  cbn [fst snd] in Hrm, Hread. unfold ret, show, modify, mbind at 1.
  unfold classify_and_notify, mbind at 1.
  erewrite preprocess_audio_loaded; [| exact Hread | exact Hload].
  unfold mbind, lift. rewrite (interpreter_run_returns _ _ _ _ Hrun), Harg.
  unfold item at 1. rewrite Hp. unfold ret. rewrite Hemotion, Hsafe.
  rewrite send_to_wokwi_spec.
  cbn [fs ui mqtt_log invoked uuid_next]. rewrite Hcalls.
  unfold show, modify, try_except, os_remove, mret.
  destruct failure as [e |];
    cbn [fs ui mqtt_log invoked uuid_next];
    rewrite Hpath, Hrm; rewrite <- ?app_assoc; reflexivity.
Qed.

End CompleteAnalysis.

Lemma complete_analysis_witness :
  exists (p : Q) (status color : string)
         (made : list Week1App.mqtt_call) (failure : option Py.exception),
    nth_error [1 # 10; 0; 7 # 10; 0; 1 # 10; 1 # 10; 0] 2 = Some p /\
    Spec.first_largest [1 # 10; 0; 7 # 10; 0; 1 # 10; 1 # 10; 0] 2 /\
    Week1App.safety_logic "fear" = (status, color, Spec.badge_code "fear") /\
    Spec.until_failure Example.broker_down
      (Spec.protocol Example.BASE_DIR
         (Example.uuid4 (Week1App.uuid_next Example.model_only))
         (Spec.badge_code "fear")) = (made, failure) /\
    Week1App.analyze_audio Example.BASE_DIR Example.uuid4
      Example.broker_down Example.tmp_name Example.librosa_load
      Example.librosa_effects_trim Example.librosa_feature_mfcc
      (Some Example.mfcc_model) (Some Week1App.default_classes)
      Example.upload true Example.model_only
    = (inr tt,
       Week1App.mk_state
         (Spec.files_restored (Week1App.fs Example.model_only))
         (Week1App.ui Example.model_only
          ++ [Week1App.st_audio
                (Example.tmp_name
                   (Os.tmp_next (Week1App.fs Example.model_only)))]
          ++ match failure with
             | Some e => [Week1App.st_error_mqtt e]
             | None => []
             end
          ++ [ Week1App.st_markdown_result color status;
               Week1App.st_markdown_emotion (Week1App.upper "fear");
               Week1App.st_markdown_confidence (p * 100)%Q;
               match failure with
               | Some _ => Week1App.st_error_failed_to_send
               | None => Week1App.st_success_sent (Spec.badge_code "fear")
               end;
               Week1App.st_bar_chart
                 [1 # 10; 0; 7 # 10; 0; 1 # 10; 1 # 10; 0] ])
         (Week1App.mqtt_log Example.model_only ++ made)
         (Week1App.invoked Example.model_only
          ++ [Np.nd_float32
                (Week1App.expand_dims_batch_channel
                   (Week1App.fix_time_steps
                      (Example.librosa_feature_mfcc
                         (Week1App.pad_or_truncate
                            (Example.librosa_effects_trim
                               [1 # 2; - (1 # 4)])))))])
         (S (Week1App.uuid_next Example.model_only))).
Proof.
  apply (complete_analysis Example.BASE_DIR Example.uuid4
           Example.broker_down Example.tmp_name Example.librosa_load
           Example.librosa_effects_trim Example.librosa_feature_mfcc
           Example.mfcc_model Week1App.default_classes Example.upload
           Example.model_only [1 # 2; - (1 # 4)]
           [1 # 10; 0; 7 # 10; 0; 1 # 10; 1 # 10; 0] 2%nat "fear"%string);
    reflexivity.
Defined.

(** ** Which files of the data set get a row *)

Section WavFiles.
Import ExcelExport.
Local Open Scope string_scope.

Lemma string_length_app (a b : string) :
  String.length (a ++ b) = (String.length a + String.length b)%nat.
Proof.
  induction a as [| c a IH]; cbn; [reflexivity | rewrite IH; reflexivity].
Qed.

Lemma lower_app (a b : string) : lower (a ++ b) = lower a ++ lower b.
Proof.
  induction a as [| c a IH]; cbn; [reflexivity | rewrite IH; reflexivity].
Qed.

Lemma lower_length (s : string) : String.length (lower s) = String.length s.
Proof.
  induction s as [| c s IH]; cbn; [reflexivity | rewrite IH; reflexivity].
Qed.

Lemma lower_substring (s : string) :
  forall n m, lower (substring n m s) = substring n m (lower s).
Proof.
  induction s as [| c s IH]; intros [| n] [| m]; cbn; try reflexivity.
  - rewrite IH. reflexivity.
  - apply IH.
  - apply IH.
Qed.

Lemma substring_all (s : string) : substring 0 (String.length s) s = s.
Proof.
  induction s as [| c s IH]; cbn; [reflexivity | rewrite IH; reflexivity].
Qed.

Lemma substring_suffix (a b : string) :
  substring (String.length a) (String.length b) (a ++ b) = b.
Proof.
  induction a as [| c a IH]; cbn; [apply substring_all | exact IH].
Qed.

Lemma substring_split (s : string) :
  forall m, (m <= String.length s)%nat ->
            s = substring 0 m s ++ substring m (String.length s - m) s.
Proof.
  induction s as [| c s IH]; intros [| m] H; cbn in *.
  - reflexivity.
  - lia.
  - rewrite substring_all. reflexivity.
  - rewrite <- IH by lia. reflexivity.
Qed.

Lemma endswith_iff (s suffix : string) :
  endswith s suffix = true <-> exists stem, s = stem ++ suffix.
Proof.
  unfold endswith. split.
  - intros H. apply andb_true_iff in H as [Hk He].
    apply Nat.leb_le in Hk. apply String.eqb_eq in He.
    exists (substring 0 (String.length s - String.length suffix) s).
    rewrite (substring_split s (String.length s - String.length suffix))
      at 1 by lia.
    f_equal. rewrite <- He at 3. f_equal. lia.
  - intros [stem ->]. rewrite string_length_app.
    apply andb_true_iff. split; [apply Nat.leb_le; lia |].
    apply String.eqb_eq.
    replace (String.length stem + String.length suffix
             - String.length suffix)%nat
      with (String.length stem) by lia.
    apply substring_suffix.
Qed.

(** The test of line 22 reads the last four characters, in any case. *)
Lemma is_wav_iff (file : string) :
  Spec.is_wav file = true
  <-> exists stem ext, file = stem ++ ext /\ lower ext = ".wav".
Proof.
  unfold Spec.is_wav. split.
  - intros H. pose proof H as H'. apply endswith_iff in H' as [stem' E].
    unfold endswith in H. apply andb_true_iff in H as [Hk He].
    apply Nat.leb_le in Hk. apply String.eqb_eq in He.
    rewrite lower_length in Hk, He. cbn [String.length] in Hk, He.
    exists (substring 0 (String.length file - 4) file),
           (substring (String.length file - 4) 4 file).
    split.
    + rewrite (substring_split file (String.length file - 4)) at 1 by lia.
      do 2 f_equal. lia.
    + rewrite lower_substring. exact He.
  - intros (stem & ext & -> & He). rewrite lower_app, He.
    apply endswith_iff. eexists. reflexivity.
Qed.

(** X21.  Which files get a row.  A file takes the next identifier and
    the next time slot exactly when its name ends in [.wav], in capitals or
    not; every other file leaves the counters and the rows alone. *)
Theorem only_wav_files_get_a_row (root : string) (st : state)
    (file : string) :
  ((exists stem ext, file = stem ++ ext /\ lower ext = ".wav") ->
   on_file root st file
   = mk_state
       (rows st ++ [mk_row (audio_id st) (strftime_HMS (current_time st))
                           (Spec.emotion_label (os_path_basename root))])
       (current_time st + 3)%Z (audio_id st + 1)%Z) /\
  (~ (exists stem ext, file = stem ++ ext /\ lower ext = ".wav") ->
   on_file root st file = st).
Proof.
  unfold on_file. fold (Spec.is_wav file).
  destruct (Spec.is_wav file) eqn:E.
  - split; [intros _; reflexivity |].
    intros H. exfalso. apply H, is_wav_iff, E.
  - split; [| intros _; reflexivity].
    intros H. apply is_wav_iff in H. congruence.
Qed.

End WavFiles.

(** ** A run of the mel front end without its model *)

Section Int8Script.
Import Py Np Int8App.
Local Open Scope string_scope.

Variable melspectrogram : list Q -> array Q.
Variable power_to_db : array Q -> array Q.
Variable image_resize : array Q -> nat * nat -> array Q.
Variable tmp_name : nat -> string.
Variable librosa_load : Os.bytes -> result (list Q).
Variable softmax : list Q -> list Q.
Variable tflite_Interpreter : Os.bytes -> result interpreter.

Lemma read_absent (fs : Os.filesystem) (path : string) :
  Os.path_exists fs path = false -> Os.read fs path = None.
Proof.
  unfold Os.path_exists, Os.read. intros H.
  destruct (find (fun p => String.eqb (fst p) path) (Os.files fs))
    as [p |] eqn:E; [| reflexivity].
  apply find_some in E as [Hin Hp].
  assert (Hex : existsb (fun p => String.eqb (fst p) path) (Os.files fs)
                = true)
    by (apply existsb_exists; exists p; split; assumption).
  congruence.
Qed.

(** X22.  What can leave a run of the mel front end.  Nothing looks for
    the model: when the file is absent, or the interpreter cannot be built
    from it, the error of the constructor leaves the script before
    anything is shown and before an upload is touched.  With the model in
    place, a run without an upload does nothing; a run with an upload
    returns without an exception, whatever the decoding, the preprocessing
    and the inference do, provided the temporary file can be removed, and
    then the file is gone; if the file is held, the error of [os.remove]
    leaves the script. *)
Theorem int8_script_exceptions (uploaded_file : option Os.bytes)
    (s : app_state) :
  (Os.path_exists (fs s) MODEL_PATH = false ->
   script melspectrogram power_to_db image_resize tmp_name librosa_load
     softmax tflite_Interpreter uploaded_file s
   = (inl (LibraryError "Could not open 'tiny_safety_3class_int8.tflite'."),
      s)) /\
  (forall b,
     Os.read (fs s) MODEL_PATH = Some b ->
     (forall e,
        tflite_Interpreter b = inl e ->
        script melspectrogram power_to_db image_resize tmp_name librosa_load
          softmax tflite_Interpreter uploaded_file s = (inl e, s)) /\
     (forall m,
        tflite_Interpreter b = inr m ->
        (uploaded_file = None ->
         script melspectrogram power_to_db image_resize tmp_name
           librosa_load softmax tflite_Interpreter uploaded_file s
         = (inr tt, s)) /\
        (uploaded_file <> None ->
         exists s',
           (existsb (String.eqb (tmp_name (Os.tmp_next (fs s))))
                    (Os.locked (fs s)) = false ->
            script melspectrogram power_to_db image_resize tmp_name
              librosa_load softmax tflite_Interpreter uploaded_file s
            = (inr tt, s') /\
            Os.path_exists (fs s') (tmp_name (Os.tmp_next (fs s)))
            = false) /\
           (existsb (String.eqb (tmp_name (Os.tmp_next (fs s))))
                    (Os.locked (fs s)) = true ->
            script melspectrogram power_to_db image_resize tmp_name
              librosa_load softmax tflite_Interpreter uploaded_file s
            = (inl (OSError "PermissionError"), s'))))).
Proof.
  split.
  - intros H. unfold script, load_interpreter, mbind.
    rewrite (read_absent _ _ H). reflexivity.
  - intros b Hb. split.
    + intros e He. unfold script, load_interpreter, mbind.
      rewrite Hb, He. reflexivity.
    + intros m Hm. split.
      * intros ->. unfold script, load_interpreter, mbind.
        rewrite Hb, Hm. reflexivity.
      * intros Hup. destruct uploaded_file as [f |]; [| congruence].
        unfold script, load_interpreter, mbind. rewrite Hb, Hm.
        destruct (on_upload_cleanup (input_details_0 m)
                    (output_details_0 m) melspectrogram power_to_db
                    image_resize tmp_name librosa_load (invoke m) softmax
                    f s) as (s' & Hfree & Hheld).
        exists s'. split.
        -- exact Hfree.
        -- intros H. apply (proj1 (Hheld H)).
Qed.

End Int8Script.

(** ** What can leave an analysis of the MFCC front end *)

Section EscapingExceptions.
Import Py Np Week1App.
Local Open Scope string_scope.

Variable BASE_DIR : string.
Variable uuid4 : nat -> string.
Variable mqtt_outcome : mqtt_call -> outcome.
Variable tmp_name : nat -> string.
Variable librosa_load : Os.bytes -> result (list Q).
Variable librosa_effects_trim : list Q -> list Q.
Variable librosa_feature_mfcc : list Q -> matrix.

(** The cleanup at the end of [analyze_audio] never raises. *)
Lemma cleanup_returns (path : string) (s : app_state) :
  exists s',
    try_except (os_remove path) (fun _ => mret tt) s = (inr tt, s').
Proof.
  unfold try_except, os_remove, mret.
  destruct (Os.remove (fs s) path) as [[e | []] fs']; eexists; reflexivity.
Qed.

(** X23.  The exceptions that leave [analyze_audio].  An exception leaves
    an analysis only when the button was pressed, a model is loaded and
    the upload was decoded, and it is then the exception of the
    interpreter, of [np.argmax] on the scores, or of the lookup of the
    label.  In each of these cases no client call has been made, only the
    player has been shown, and the temporary file is still there. *)
Theorem exceptions_leaving_analyze_audio
    (interpreter : option Interpreter) (classes : option (list string))
    (src : source) (pressed : bool) (st st' : app_state) (e : exception) :
  analyze_audio BASE_DIR uuid4 mqtt_outcome tmp_name librosa_load
    librosa_effects_trim librosa_feature_mfcc interpreter classes src
    pressed st = (inl e, st') ->
  pressed = true /\
  (exists (loaded : Interpreter) (y : list Q),
     interpreter = Some loaded /\
     librosa_load (content src) = inr y /\
     let x := nd_float32
                (expand_dims_batch_channel
                   (fix_time_steps
                      (librosa_feature_mfcc
                         (pad_or_truncate (librosa_effects_trim y))))) in
     (run loaded x = inl e \/
      exists probs,
        run loaded x = inr probs /\
        (argmax probs = inl e \/
         exists pred_idx,
           argmax probs = inr pred_idx /\
           match classes with
           | Some cs => item cs pred_idx
           | None => raise TypeError
           end = inl e))) /\
  mqtt_log st' = mqtt_log st /\
  ui st' = (ui st ++ [st_audio (tmp_name (Os.tmp_next (fs st)))])%list /\
  Os.path_exists (fs st') (tmp_name (Os.tmp_next (fs st))) = true.
Proof.
  intros H.
  unfold analyze_audio, mbind at 1 2, write_temp in H.
  pose proof (write_temp_exists tmp_name (fs st) (content src)) as [Hex _].
  pose proof (write_temp_read tmp_name (fs st) (content src)) as Hread.
  destruct (Os.write_temp tmp_name (fs st) (content src)) as [path fs1] eqn:Ew.
  assert (Hpath : path = tmp_name (Os.tmp_next (fs st))).
  { unfold Os.write_temp in Ew. injection Ew as <- _. reflexivity. }
  cbn [fst snd] in Hex, Hread.
  unfold ret, show, modify, mbind at 1 in H.
  cbn [fs ui mqtt_log invoked uuid_next] in H.
  set (s1 := mk_state fs1 (ui st ++ [st_audio path]) (mqtt_log st)
                      (invoked st) (uuid_next st)) in *.
  assert (Hs1 : Os.read (fs s1) path = Some (content src)) by exact Hread.
  assert (Hclean : forall s r,
             try_except (os_remove path)
               (fun (_ : exception) (s : app_state) => (inr tt, s)) s
             <> (inl e, r)).
  { intros s r Hc. destruct (cleanup_returns path s) as (s2 & E).
    unfold mret in E. rewrite E in Hc. discriminate Hc. }
  destruct pressed.
  2: { unfold mret, mbind in H. exfalso. exact (Hclean _ _ H). }
  destruct interpreter as [loaded |].
  2: { unfold mret, mbind in H. exfalso. exact (Hclean _ _ H). }
  unfold classify_and_notify, mbind at 1 in H.
  destruct (librosa_load (content src)) as [e0 | y] eqn:Hload.
  { destruct (preprocess_audio_not_loaded librosa_load librosa_effects_trim
                librosa_feature_mfcc path s1) as (e1 & Hpre).
    { right. exists (content src), e0. split; assumption. }
    rewrite Hpre in H. unfold mret, mbind in H.
    exfalso. exact (Hclean _ _ H). }
  rewrite (preprocess_audio_loaded librosa_load librosa_effects_trim
             librosa_feature_mfcc path s1 (content src) y Hs1 Hload) in H.
  unfold mbind, lift in H.
  split; [reflexivity |].
  match type of H with
  | context [interpreter_run ?i ?x ?s] =>
      destruct (run i x) as [e1 | probs] eqn:Hrun;
      [ destruct (interpreter_run_raises i x e1 s Hrun) as [inv Hir]
      | pose proof (interpreter_run_returns i x probs s Hrun) as Hir ];
      rewrite Hir in H; clear Hir
  end.
  { injection H as <- <-. subst s1. cbn [mqtt_log ui fs].
    rewrite <- Hpath.
    split; [| repeat split; auto].
    exists loaded, y. split; [reflexivity |]. split; [reflexivity |].
    left. exact Hrun. }
  destruct (argmax probs) as [e1 | pred_idx] eqn:Harg.
  { injection H as <- <-. subst s1. cbn [mqtt_log ui fs].
    rewrite <- Hpath.
    split; [| repeat split; auto].
    exists loaded, y. split; [reflexivity |]. split; [reflexivity |].
    right. exists probs. split; [exact Hrun |]. left. exact Harg. }
  destruct (argmax_first_largest _ _ Harg) as (p & Hp & _).
  unfold item at 1 in H. rewrite Hp in H. unfold ret in H.
  destruct (match classes with
            | Some cs => item cs pred_idx
            | None => raise TypeError
            end) as [e1 | emotion] eqn:Hlk.
  { injection H as <- <-. subst s1. cbn [mqtt_log ui fs].
    rewrite <- Hpath.
    split; [| repeat split; auto].
    exists loaded, y. split; [reflexivity |]. split; [reflexivity |].
    right. exists probs. split; [exact Hrun |]. right.
    exists pred_idx. split; [exact Harg | exact Hlk]. }
  exfalso.
  destruct (safety_logic emotion) as [[status color] mqtt_cmd].
  rewrite send_to_wokwi_spec in H.
  destruct (Spec.until_failure mqtt_outcome _) as [made [e1 |]];
    unfold show, modify, mret in H; exact (Hclean _ _ H).
Qed.

End EscapingExceptions.

Lemma exceptions_leaving_analyze_audio_witness :
  true = true /\
  (exists (loaded : Week1App.Interpreter) (y : list Q),
     Some Example.rejecting_model = Some loaded /\
     Example.librosa_load (Week1App.content Example.upload) = inr y /\
     let x := Np.nd_float32
                (Week1App.expand_dims_batch_channel
                   (Week1App.fix_time_steps
                      (Example.librosa_feature_mfcc
                         (Week1App.pad_or_truncate
                            (Example.librosa_effects_trim y))))) in
     (Week1App.run loaded x
      = inl (Py.LibraryError "Cannot set tensor: Dimension mismatch") \/
      exists probs,
        Week1App.run loaded x = inr probs /\
        (Np.argmax probs
         = inl (Py.LibraryError "Cannot set tensor: Dimension mismatch") \/
         exists pred_idx,
           Np.argmax probs = inr pred_idx /\
           match Some Week1App.default_classes with
           | Some cs => Week1App.item cs pred_idx
           | None => Py.raise Py.TypeError
           end
           = inl (Py.LibraryError
                    "Cannot set tensor: Dimension mismatch")))) /\
  Week1App.mqtt_log
    (Week1App.mk_state (Os.mk_fs [("/tmp/tmp0.wav", "RIFF")]%string [] 1)
       [Week1App.st_audio "/tmp/tmp0.wav"] []
       [Np.nd_float32
          (Week1App.expand_dims_batch_channel
             (Week1App.fix_time_steps
                (Example.librosa_feature_mfcc
                   (Week1App.pad_or_truncate
                      (Example.librosa_effects_trim [1 # 2; - (1 # 4)])))))]
       0)
  = Week1App.mqtt_log Example.no_files /\
  Week1App.ui
    (Week1App.mk_state (Os.mk_fs [("/tmp/tmp0.wav", "RIFF")]%string [] 1)
       [Week1App.st_audio "/tmp/tmp0.wav"] []
       [Np.nd_float32
          (Week1App.expand_dims_batch_channel
             (Week1App.fix_time_steps
                (Example.librosa_feature_mfcc
                   (Week1App.pad_or_truncate
                      (Example.librosa_effects_trim [1 # 2; - (1 # 4)])))))]
       0)
  = (Week1App.ui Example.no_files
     ++ [Week1App.st_audio
           (Example.tmp_name
              (Os.tmp_next (Week1App.fs Example.no_files)))])%list /\
  Os.path_exists
    (Week1App.fs
       (Week1App.mk_state (Os.mk_fs [("/tmp/tmp0.wav", "RIFF")]%string [] 1)
          [Week1App.st_audio "/tmp/tmp0.wav"] []
          [Np.nd_float32
             (Week1App.expand_dims_batch_channel
                (Week1App.fix_time_steps
                   (Example.librosa_feature_mfcc
                      (Week1App.pad_or_truncate
                         (Example.librosa_effects_trim
                            [1 # 2; - (1 # 4)])))))]
          0))
    (Example.tmp_name (Os.tmp_next (Week1App.fs Example.no_files)))
  = true.
Proof.
  apply (exceptions_leaving_analyze_audio Example.BASE_DIR Example.uuid4
           Example.broker_up Example.tmp_name Example.librosa_load
           Example.librosa_effects_trim Example.librosa_feature_mfcc
           (Some Example.rejecting_model) (Some Week1App.default_classes)
           Example.upload true Example.no_files).
  reflexivity.
Defined.

(** ** What an analysis may send to the badge *)

Section BadgeChannel.
Import Py Np Week1App.
Local Open Scope string_scope.

Variable BASE_DIR : string.
Variable uuid4 : nat -> string.
Variable mqtt_outcome : mqtt_call -> outcome.
Variable tmp_name : nat -> string.
Variable librosa_load : Os.bytes -> result (list Q).
Variable librosa_effects_trim : list Q -> list Q.
Variable librosa_feature_mfcc : list Q -> matrix.

Lemma cleanup_keeps_the_log (path : string) (s : app_state) :
  mqtt_log (snd (try_except (os_remove path) (fun _ => mret tt) s))
  = mqtt_log s.
Proof.
  unfold try_except, os_remove, mret.
  destruct (Os.remove (fs s) path) as [[e | []] fs']; reflexivity.
Qed.

Lemma badge_code_values (emotion : string) :
  Spec.badge_code emotion = "D" \/ Spec.badge_code emotion = "C" \/
  Spec.badge_code emotion = "S".
Proof.
  unfold Spec.badge_code.
  destruct (emotion =? "fear"); [left; reflexivity |].
  destruct (emotion =? "angry"); [right; left | right; right]; reflexivity.
Qed.

(** The calls that are made are a beginning of the calls that were to be
    made. *)
Lemma until_failure_prefix (calls : list mqtt_call) :
  exists rest,
    calls = (fst (Spec.until_failure mqtt_outcome calls) ++ rest)%list.
Proof.
  pose proof (until_failure_spec mqtt_outcome calls) as H.
  destruct (Spec.until_failure mqtt_outcome calls) as [made [e |]];
    cbn [fst].
  - destruct H as (before & c & after & -> & -> & _).
    exists after. rewrite <- app_assoc. reflexivity.
  - destruct H as [-> _]. exists []. rewrite app_nil_r. reflexivity.
Qed.

(** X24.  What an analysis may send.  Whatever the upload, the model, the
    labels and the broker do, and however the analysis ends, the client
    calls of one [analyze_audio] are either none at all or a beginning of
    one notification whose command is D, C or S: the badge is never sent
    two messages for one press of the button, and never anything but one
    of the three codes. *)
Theorem at_most_one_notification
    (interpreter : option Interpreter) (classes : option (list string))
    (src : source) (pressed : bool) (st : app_state) :
  exists made : list mqtt_call,
    mqtt_log
      (snd (analyze_audio BASE_DIR uuid4 mqtt_outcome tmp_name librosa_load
              librosa_effects_trim librosa_feature_mfcc interpreter classes
              src pressed st))
    = (mqtt_log st ++ made)%list /\
    (made = [] \/
     exists command rest,
       (command = "D" \/ command = "C" \/ command = "S") /\
       Spec.protocol BASE_DIR (uuid4 (uuid_next st)) command
       = (made ++ rest)%list).
Proof.
  unfold analyze_audio, mbind at 1 2, write_temp.
  pose proof (write_temp_read tmp_name (fs st) (content src)) as Hread.
  destruct (Os.write_temp tmp_name (fs st) (content src)) as [path fs1].
  cbn [fst snd] in Hread.
  unfold ret, show, modify, mbind at 1.
  cbn [fs ui mqtt_log invoked uuid_next].
  set (s1 := mk_state fs1 (ui st ++ [st_audio path]) (mqtt_log st)
                      (invoked st) (uuid_next st)).
  assert (Hs1 : Os.read (fs s1) path = Some (content src)) by exact Hread.
  assert (Hnone : forall s,
             mqtt_log s = mqtt_log st ->
             exists made : list mqtt_call,
               mqtt_log
                 (snd (try_except (os_remove path) (fun _ => mret tt) s))
               = (mqtt_log st ++ made)%list /\
               (made = [] \/
                exists command rest,
                  (command = "D" \/ command = "C" \/ command = "S") /\
                  Spec.protocol BASE_DIR (uuid4 (uuid_next st)) command
                  = (made ++ rest)%list)).
  { intros s Hs. exists []. rewrite cleanup_keeps_the_log, Hs, app_nil_r.
    split; [reflexivity | left; reflexivity]. }
  destruct pressed.
  2: { unfold mret, mbind. apply Hnone. reflexivity. }
  destruct interpreter as [loaded |].
  2: { unfold show, modify, mbind. apply Hnone. reflexivity. }
  unfold classify_and_notify, mbind at 1.
  destruct (librosa_load (content src)) as [e0 | y] eqn:Hload.
  { destruct (preprocess_audio_not_loaded librosa_load librosa_effects_trim
                librosa_feature_mfcc path s1) as (e1 & Hpre).
    { right. exists (content src), e0. split; assumption. }
    rewrite Hpre. unfold mret, mbind. apply Hnone. reflexivity. }
  rewrite (preprocess_audio_loaded librosa_load librosa_effects_trim
             librosa_feature_mfcc path s1 (content src) y Hs1 Hload).
  unfold mbind, lift.
  match goal with
  | |- context [interpreter_run ?i ?x ?s] =>
      destruct (run i x) as [e1 | probs] eqn:Hrun;
      [ destruct (interpreter_run_raises i x e1 s Hrun) as [inv Hir]
      | pose proof (interpreter_run_returns i x probs s Hrun) as Hir ];
      rewrite Hir; clear Hir
  end.
  { exists []. cbn [snd mqtt_log]. rewrite app_nil_r.
    split; [reflexivity | left; reflexivity]. }
  destruct (argmax probs) as [e1 | pred_idx] eqn:Harg.
  { exists []. cbn [snd mqtt_log]. rewrite app_nil_r.
    split; [reflexivity | left; reflexivity]. }
  destruct (argmax_first_largest _ _ Harg) as (p & Hp & _).
  unfold item at 1. rewrite Hp. unfold ret.
  destruct (match classes with
            | Some cs => item cs pred_idx
            | None => raise TypeError
            end) as [e1 | emotion].
  { exists []. cbn [snd mqtt_log]. rewrite app_nil_r.
    split; [reflexivity | left; reflexivity]. }
  destruct (safety_logic_code emotion) as (status & color & Hsafe).
  rewrite Hsafe, send_to_wokwi_spec. cbn [uuid_next].
  destruct (until_failure_prefix
              (Spec.protocol BASE_DIR (uuid4 (uuid_next st))
                             (Spec.badge_code emotion))) as (rest & Hrest).
  destruct (Spec.until_failure mqtt_outcome _) as [made failure].
  cbn [fst] in Hrest. exists made.
  split.
  - destruct failure as [e1 |]; unfold show, modify;
      cbn [fs ui mqtt_log invoked uuid_next];
      rewrite cleanup_keeps_the_log; reflexivity.
  - right. exists (Spec.badge_code emotion), rest.
    split; [apply badge_code_values | exact Hrest].
Qed.

End BadgeChannel.
